(** * news.js: crawl, parse, render and publish pipeline

    A shallow embedding of [src/news.js].  JavaScript strings are sequences
    of UTF-16 code units, the DOM that cheerio exposes is a tree of text and
    element nodes, and everything that touches the outside (HTTP, clock,
    random numbers, file system, git, logger) goes through a state and
    exception monad over an explicit [World], with the answers of the
    outside collected in an [Env].  Numbers are the rationals they denote,
    and their arithmetic rounds to binary64. *)

From Stdlib Require Import String Ascii List NArith ZArith QArith Qround Qabs Qpower Lia Lqa DecimalString Sorted.
From stdpp Require Import base option list gmap.
Import ListNotations.

Local Open Scope N_scope.

(** ** JavaScript strings *)

Module JsString.

(** A string value is its list of UTF-16 code units; [s.length] is the
    length of that list. *)
Definition jsstring := list N.

(** Source literals are UTF-8 in the file; [utf16_of_utf8] turns the bytes of
    a literal into the code units the engine holds. *)
Fixpoint utf16_of_utf8 (bs : list N) : jsstring :=
  match bs with
  | [] => []
  | b1 :: r1 =>
    if b1 <? 0x80 then b1 :: utf16_of_utf8 r1
    else if b1 <? 0xE0 then
      match r1 with
      | b2 :: r2 =>
        N.lor (N.shiftl (N.land b1 0x1F) 6) (N.land b2 0x3F) :: utf16_of_utf8 r2
      | _ => []
      end
    else if b1 <? 0xF0 then
      match r1 with
      | b2 :: b3 :: r3 =>
        N.lor (N.shiftl (N.land b1 0x0F) 12)
              (N.lor (N.shiftl (N.land b2 0x3F) 6) (N.land b3 0x3F))
        :: utf16_of_utf8 r3
      | _ => []
      end
    else
      match r1 with
      | b2 :: b3 :: b4 :: r4 =>
        let cp := N.lor (N.shiftl (N.land b1 0x07) 18)
                   (N.lor (N.shiftl (N.land b2 0x3F) 12)
                     (N.lor (N.shiftl (N.land b3 0x3F) 6) (N.land b4 0x3F))) in
        let v := cp - 0x10000 in
        (0xD800 + N.shiftr v 10) :: (0xDC00 + N.land v 0x3FF) :: utf16_of_utf8 r4
      | _ => []
      end
  end.

Definition js (s : string) : jsstring :=
  utf16_of_utf8 (map N_of_ascii (list_ascii_of_string s)).

(** The double quote, which a literal of this file cannot hold. *)
Definition dquote : jsstring := [34].

(** [WhiteSpace] and [LineTerminator] code units, the ones
    [String.prototype.trim] strips. *)
Definition is_white_space (c : N) : bool :=
  (c =? 0x09) || (c =? 0x0A) || (c =? 0x0B) || (c =? 0x0C) || (c =? 0x0D)
  || (c =? 0x20) || (c =? 0xA0) || (c =? 0x1680)
  || ((0x2000 <=? c) && (c <=? 0x200A))
  || (c =? 0x2028) || (c =? 0x2029) || (c =? 0x202F) || (c =? 0x205F)
  || (c =? 0x3000) || (c =? 0xFEFF).

Fixpoint trimStart (s : jsstring) : jsstring :=
  match s with
  | c :: r => if is_white_space c then trimStart r else s
  | [] => []
  end.

Definition trimEnd (s : jsstring) : jsstring := rev (trimStart (rev s)).

Definition trim (s : jsstring) : jsstring := trimEnd (trimStart s).

Fixpoint startsWith (s p : jsstring) {struct p} : bool :=
  match p, s with
  | [], _ => true
  | a :: p', b :: s' => (a =? b) && startsWith s' p'
  | _ :: _, [] => false
  end.

Fixpoint includes (s p : jsstring) : bool :=
  startsWith s p ||
  match s with
  | [] => false
  | _ :: s' => includes s' p
  end.

(** [s.replace(/c/g, r)] for a pattern that is one literal code unit. *)
Definition replaceAll (c : N) (r : jsstring) (s : jsstring) : jsstring :=
  flat_map (fun x => if x =? c then r else [x]) s.

(** [s.split(c)[0]] for a one-unit separator: the part before the first
    occurrence. *)
Fixpoint split_head (c : N) (s : jsstring) : jsstring :=
  match s with
  | [] => []
  | x :: r => if x =? c then [] else x :: split_head c r
  end.

(** [String(n)] and [`${n}`] for a non-negative integer. *)
Definition ofN (n : N) : jsstring := js (NilZero.string_of_uint (N.to_uint n)).

Fixpoint cycle (k : nat) (fill cur : jsstring) : jsstring :=
  match k with
  | O => []
  | S k' =>
    match cur with
    | c :: cur' => c :: cycle k' fill cur'
    | [] =>
      match fill with
      | c :: cur' => c :: cycle k' fill cur'
      | [] => []
      end
    end
  end.

Definition padStart (target : nat) (fill s : jsstring) : jsstring :=
  cycle (target - length s) fill fill ++ s.

(** Truthiness of a string operand of [&&], [||], [!] and [if]. *)
Definition truthy (s : jsstring) : bool :=
  match s with [] => false | _ => true end.

(** [a || b] on strings. *)
Definition or_else (a b : jsstring) : jsstring := if truthy a then a else b.

End JsString.
Import JsString.

(** ** The DOM as cheerio exposes it *)

Module Cheerio.

(** Text and element nodes; comments and directives carry no text and match
    no selector, so they are left out. *)
#[warnings="-register-all"]
Inductive node : Type :=
| Text (data : jsstring)
| Element (name : jsstring) (attribs : list (jsstring * jsstring))
          (children : list node).

(** The selectors of this program: a tag name or a class, alone or below an
    ancestor ([".list_a li"]), in comma-separated groups. *)
Inductive simple : Type :=
| Tag (name : jsstring)
| Class (name : jsstring).

Inductive complex : Type :=
| Simple (s : simple)
| Descendant (ancestor s : simple).

Definition getAttrib (name : jsstring) (attribs : list (jsstring * jsstring))
  : option jsstring :=
  snd <$> List.find (fun kv => bool_decide (fst kv = name)) attribs.

(** Whitespace-separated tokens of an attribute value. *)
Fixpoint tokens_aux (cur : jsstring) (s : jsstring) : list jsstring :=
  match s with
  | [] => match cur with [] => [] | _ => [rev cur] end
  | c :: r =>
    if is_white_space c
    then match cur with [] => tokens_aux [] r | _ => rev cur :: tokens_aux [] r end
    else tokens_aux (c :: cur) r
  end.

Definition tokens (s : jsstring) : list jsstring := tokens_aux [] s.

Definition matches_simple (s : simple) (el : jsstring * list (jsstring * jsstring))
  : bool :=
  match s with
  | Tag n => bool_decide (fst el = n)
  | Class c =>
    match getAttrib (js "class") (snd el) with
    | Some v => bool_decide (c ∈ tokens v)
    | None => false
    end
  end.

Definition matches_complex (c : complex)
    (ancestors : list (jsstring * list (jsstring * jsstring)))
    (el : jsstring * list (jsstring * jsstring)) : bool :=
  match c with
  | Simple s => matches_simple s el
  | Descendant a s => matches_simple s el && existsb (matches_simple a) ancestors
  end.

Definition matches (sel : list complex)
    (ancestors : list (jsstring * list (jsstring * jsstring)))
    (el : jsstring * list (jsstring * jsstring)) : bool :=
  existsb (fun c => matches_complex c ancestors el) sel.

(** Elements at or below [n] that match, in document order. *)
Fixpoint select_from (sel : list complex)
    (ancestors : list (jsstring * list (jsstring * jsstring))) (n : node)
  : list node :=
  match n with
  | Text _ => []
  | Element name attribs children =>
    (if matches sel ancestors (name, attribs) then [n] else [])
    ++ flat_map (select_from sel ((name, attribs) :: ancestors)) children
  end.

(** [$(selector)] on a loaded document, given by its top-level nodes. *)
Definition select (sel : list complex) (document : list node) : list node :=
  flat_map (select_from sel []) document.

(** [$el.find(selector)]: the matching descendants of [el].  The program only
    passes groups of simple selectors here. *)
Definition find (sel : list simple) (el : node) : list node :=
  match el with
  | Text _ => []
  | Element _ _ children => flat_map (select_from (map Simple sel) []) children
  end.

Definition first (set : list node) : list node :=
  match set with
  | [] => []
  | x :: _ => [x]
  end.

Fixpoint textContent (n : node) : jsstring :=
  match n with
  | Text d => d
  | Element _ _ children => flat_map textContent children
  end.

(** [.text()] of a selection: the text of each member, concatenated. *)
Definition text (set : list node) : jsstring := flat_map textContent set.

(** [.attr(name)] of a selection: the attribute of its first member,
    [undefined] ([None]) when the selection is empty or the attribute absent. *)
Definition attr (name : jsstring) (set : list node) : option jsstring :=
  match set with
  | Element _ attribs _ :: _ => getAttrib name attribs
  | _ => None
  end.

End Cheerio.
Import Cheerio.

(** ** Numbers *)

Module Number.
Local Open Scope Q_scope.

(** A finite Number is held as the rational it denotes.  The arithmetic
    operators give the exact result rounded to binary64: 53 significant
    bits, to the nearest representable value and, of two equally near, to
    the one whose last bit is 0.  Magnitudes of 2^1024 and more, where the
    result is Infinity, do not occur: no Number of the program exceeds
    8000. *)

(** The binary exponent of a positive rational:
    [2 ^ ilog2 x <= x < 2 ^ (ilog2 x + 1)]. *)
Definition ilog2 (x : Q) : Z :=
  let e := (Z.log2 (Qnum x) - Z.log2 (Zpos (Qden x)))%Z in
  if Qle_bool (2 ^ e) x then e else (e - 1)%Z.

(** The nearest integer, and the even one of two equally near. *)
Definition nearest_even (x : Q) : Z :=
  let f := Qfloor x in
  match Qcompare (x - inject_Z f) (1 # 2) with
  | Lt => f
  | Gt => (f + 1)%Z
  | Eq => if Z.even f then f else (f + 1)%Z
  end.

(** Rounding to binary64.  The spacing of the representable values around
    [x] is [2 ^ (e - 52)] for the exponent [e] of [x], which is not taken
    below -1022 (below [2 ^ -1022] the spacing stays [2 ^ -1074]). *)
Definition round64 (x : Q) : Q :=
  if Qeq_bool x 0 then 0
  else
    let e := Z.max (ilog2 (Qabs x)) (-1022) in
    let ulp := 2 ^ (e - 52) in
    Qred (inject_Z (nearest_even (x / ulp)) * ulp).

(** [a + b], [a * b] and [a / b]. *)
Definition add (a b : Q) : Q := round64 (a + b).
Definition mul (a b : Q) : Q := round64 (a * b).
Definition div (a b : Q) : Q := round64 (a / b).

(** The multiple of [2 ^ -53] that the low 53 bits of [bits] count. *)
Definition of_bits (bits : N) : Q := Z.of_N (bits mod 2 ^ 53) # 2 ^ 53.

End Number.

(** ** The outside world *)

Module Effects.

(** A thrown value; the program only ever reads its [message]. *)
Record Error : Type := { message : jsstring }.

Inductive result (A : Type) : Type :=
| Ok (a : A)
| Throw (e : Error).
Arguments Ok {A} a.
Arguments Throw {A} e.

(** What the program reads off a [Date] object. *)
Record Date : Type := {
  getFullYear : N;
  getMonth : N;
  getDate : N;
  toISOString : jsstring;
  toLocaleDateString_zhCN : jsstring;
  toLocaleString_zhCN : jsstring
}.

(** The fields of an axios response and of simple-git's status summary that
    the program reads. *)
Record Response : Type := { status : N; data : jsstring }.

Record StatusResult : Type := {
  modified : list jsstring;
  not_added : list jsstring
}.

(** winston's npm levels, most severe first. *)
Inductive level : Type := Lerror | Lwarn | Linfo | Ldebug.

Definition severity (l : level) : nat :=
  match l with Lerror => 0 | Lwarn => 1 | Linfo => 2 | Ldebug => 5 end%nat.

(** Every interaction with network, disk, timer and git, with its outcome. *)
Inductive event : Type :=
| HttpGet (url : jsstring) (outcome : result Response)
| WriteFile (path content : jsstring) (outcome : result unit)
| Sleep (ms : Q)
| GitStatus (outcome : result StatusResult)
| GitAdd (path : jsstring) (outcome : result unit)
| GitCommit (msg : jsstring) (outcome : result unit)
| GitPush (remote branch : jsstring) (outcome : result unit).

(** [files] is what the program has written through [fs].  What the logger
    prints and appends to its own files is kept in [logged], and of the
    repository only git's answers are seen. *)
Record World : Type := {
  files : gmap jsstring jsstring;
  trace : list event;
  logged : list (level * jsstring);
  dates : nat;
  draws : nat
}.

(** The answers of the outside.  Network, disk and git may answer according
    to everything that happened before; the k-th [Date] is whatever the
    clock gives, and [random_at k] are the bits the generator gives for the
    k-th random number.  For a write that
    fails, [fs_write_left] says what it left of the target: [None] when the
    file could not be opened and is as it was, [Some s] when it was opened,
    and thereby emptied, and holds [s] when the error comes. *)
Record Env : Type := {
  axios_reply : list event -> jsstring -> result Response;
  cheerio_parse : jsstring -> result (list node);
  URL_href : jsstring -> jsstring -> result jsstring;
  URL_hostname : jsstring -> result jsstring;
  Date_at : nat -> Date;
  random_at : nat -> N;
  fs_write_reply : list event -> jsstring -> jsstring -> result unit;
  fs_write_left : list event -> jsstring -> jsstring -> option jsstring;
  git_status_reply : list event -> result StatusResult;
  git_add_reply : list event -> jsstring -> result unit;
  git_commit_reply : list event -> jsstring -> result unit;
  git_push_reply : list event -> jsstring -> jsstring -> result unit
}.

(** State and exception monad of the program. *)
Definition M (A : Type) : Type := World -> result A * World.

Definition ret {A} (a : A) : M A := fun w => (Ok a, w).

Definition bind {A B} (m : M A) (k : A -> M B) : M B :=
  fun w =>
    match m w with
    | (Ok a, w') => k a w'
    | (Throw e, w') => (Throw e, w')
    end.

Definition throw {A} (e : Error) : M A := fun w => (Throw e, w).

(** [try { body } catch (e) { handler }] *)
Definition try_catch {A} (body : M A) (handler : Error -> M A) : M A :=
  fun w =>
    match body w with
    | (Ok a, w') => (Ok a, w')
    | (Throw e, w') => handler e w'
    end.

(** A pure call that may throw. *)
Definition lift {A} (r : result A) : M A := fun w => (r, w).

Definition add_event (ev : event) (w : World) : World :=
  {| files := files w; trace := trace w ++ [ev]; logged := logged w;
     dates := dates w; draws := draws w |}.

Definition add_log (l : level) (msg : jsstring) (w : World) : World :=
  {| files := files w; trace := trace w; logged := logged w ++ [(l, msg)];
     dates := dates w; draws := draws w |}.

Definition put_file (path content : jsstring) (w : World) : World :=
  {| files := <[path := content]> (files w); trace := trace w;
     logged := logged w; dates := dates w; draws := draws w |}.

Definition next_date (w : World) : World :=
  {| files := files w; trace := trace w; logged := logged w;
     dates := S (dates w); draws := draws w |}.

Definition next_draw (w : World) : World :=
  {| files := files w; trace := trace w; logged := logged w;
     dates := dates w; draws := S (draws w) |}.

End Effects.
Import Effects.

Declare Scope js_scope.
Delimit Scope js_scope with js.
Notation "x <- c1 ;; c2" := (bind c1 (fun x => c2))
  (at level 100, c1 at next level, right associativity) : js_scope.
Notation "c1 ;; c2" := (bind c1 (fun _ => c2))
  (at level 100, right associativity) : js_scope.
Local Open Scope js_scope.

(** ** The program *)

(** The logger of the file is created with level "info": a call is emitted
    when its level is at least that severe. *)
Definition logger_level : level := Linfo.

Definition logger (l : level) (msg : jsstring) : M unit :=
  fun w =>
    if (severity l <=? severity logger_level)%nat
    then (Ok tt, add_log l msg w)
    else (Ok tt, w).

(** *** NewsCrawler *)

Record NewsRecord : Type := {
  title : jsstring;
  link : jsstring;
  summary : jsstring;
  crawl_time : jsstring;
  source : jsstring
}.

Record NewsCrawler : Type := {
  url : jsstring;
  headers : list (jsstring * jsstring)
}.

Definition new_NewsCrawler (u : jsstring) : NewsCrawler :=
  {| url := u;
     headers :=
       [ (js "User-Agent",
          js "Mozilla/5.0 (Windows NT 10.0; Win64; x64) AppleWebKit/537.36 (KHTML, like Gecko) Chrome/91.0.4472.124 Safari/537.36");
         (js "Accept",
          js "text/html,application/xhtml+xml,application/xml;q=0.9,image/webp,*/*;q=0.8");
         (js "Accept-Language", js "zh-CN,zh;q=0.9,en;q=0.8");
         (js "Connection", js "keep-alive");
         (js "Upgrade-Insecure-Requests", js "1") ] |}.

(** *** The built-in [Map], in insertion order *)

Module JsMap.

Section Map.
Context {V : Type}.

Fixpoint set (k : jsstring) (v : V) (m : list (jsstring * V))
  : list (jsstring * V) :=
  match m with
  | [] => [(k, v)]
  | (k', v') :: r =>
    if bool_decide (k' = k) then (k', v) :: r else (k', v') :: set k v r
  end.

(** [new Map(entries)]: each entry is [set] in turn. *)
Definition of_entries (entries : list (jsstring * V)) : list (jsstring * V) :=
  fold_left (fun m kv => set (fst kv) (snd kv) m) entries [].

(** [m.get(k)] *)
Definition get (k : jsstring) (m : list (jsstring * V)) : option V :=
  snd <$> List.find (fun kv => bool_decide (fst kv = k)) m.

(** [Array.from(m.values())] *)
Definition values (m : list (jsstring * V)) : list V := map snd m.

Definition keys (m : list (jsstring * V)) : list jsstring := map fst m.

End Map.
End JsMap.

(** Lines 243-245. *)
Definition uniqueNews (newsItems : list NewsRecord) : list NewsRecord :=
  JsMap.values (JsMap.of_entries (map (fun item => (title item, item)) newsItems)).

(** *** A plain object used as a dictionary *)

Module JsObject.

(** Property names every object inherits from [Object.prototype]; reading
    one of them on [{}] gives a truthy value that is not an array. *)
Definition inherited : list jsstring :=
  [js "constructor"; js "__defineGetter__"; js "__defineSetter__";
   js "hasOwnProperty"; js "__lookupGetter__"; js "__lookupSetter__";
   js "isPrototypeOf"; js "propertyIsEnumerable"; js "toString";
   js "valueOf"; js "__proto__"; js "toLocaleString"].

Definition digit (c : N) : option N :=
  if (48 <=? c) && (c <=? 57) then Some (c - 48) else None.

Fixpoint decimal (acc : N) (s : jsstring) : option N :=
  match s with
  | [] => Some acc
  | c :: r =>
    match digit c with
    | Some d => decimal (10 * acc + d) r
    | None => None
    end
  end.

(** A key that is the canonical decimal form of an integer below 2^32 - 1 is
    an array index: such keys are enumerated first, in ascending order. *)
Definition array_index (k : jsstring) : option N :=
  match decimal 0 k with
  | Some n =>
    if bool_decide (ofN n = k) && (n <=? 4294967294) then Some n else None
  | None => None
  end.

Section Object.
Context {V : Type}.

Record t : Type := {
  indexed : list (N * V);
  named : list (jsstring * V)
}.

Definition empty : t := {| indexed := []; named := [] |}.

Fixpoint set_indexed (n : N) (v : V) (l : list (N * V)) : list (N * V) :=
  match l with
  | [] => [(n, v)]
  | (m, x) :: r =>
    if n =? m then (m, v) :: r
    else if n <? m then (n, v) :: (m, x) :: r
    else (m, x) :: set_indexed n v r
  end.

Definition get_own (k : jsstring) (o : t) : option V :=
  match array_index k with
  | Some n => snd <$> List.find (fun e => fst e =? n) (indexed o)
  | None => snd <$> List.find (fun e => bool_decide (fst e = k)) (named o)
  end.

Definition set (k : jsstring) (v : V) (o : t) : t :=
  match array_index k with
  | Some n => {| indexed := set_indexed n v (indexed o); named := named o |}
  | None => {| indexed := indexed o; named := JsMap.set k v (named o) |}
  end.

(** [Object.entries(o)] *)
Definition entries (o : t) : list (jsstring * V) :=
  map (fun e => (ofN (fst e), snd e)) (indexed o) ++ named o.

End Object.
Arguments t : clear implicits.

End JsObject.

Section Program.

Context (E : Env).

Definition new_Date : M Date :=
  fun w => (Ok (Date_at E (dates w)), next_date w).

(** [Math.random()]: a Number of [0, 1).  V8 makes it of 53 bits of its
    generator: it is a multiple of [2 ^ -53]. *)
Definition Math_random : M Q :=
  fun w => (Ok (Number.of_bits (random_at E (draws w))), next_draw w).

(** [axios.get(url, { headers, timeout: 10000 })] *)
Definition axios_get (url : jsstring) : M Response :=
  fun w =>
    let r := axios_reply E (trace w) url in
    (r, add_event (HttpGet url r) w).

(** [fs.writeFileSync(path, content)] opens the file with flag [w], which
    creates or empties it, then writes.  After a call that throws the file
    is therefore not always what it was. *)
Definition fs_writeFileSync (path content : jsstring) : M unit :=
  fun w =>
    let r := fs_write_reply E (trace w) path content in
    (r, add_event (WriteFile path content r)
          match r with
          | Ok _ => put_file path content w
          | Throw _ =>
            match fs_write_left E (trace w) path content with
            | Some rest => put_file path rest w
            | None => w
            end
          end).

(** [await new Promise((resolve) => setTimeout(resolve, ms))] *)
Definition sleep (ms : Q) : M unit :=
  fun w => (Ok tt, add_event (Sleep ms) w).

Definition git_status : M StatusResult :=
  fun w =>
    let r := git_status_reply E (trace w) in (r, add_event (GitStatus r) w).

Definition git_add (path : jsstring) : M unit :=
  fun w =>
    let r := git_add_reply E (trace w) path in (r, add_event (GitAdd path r) w).

Definition git_commit (msg : jsstring) : M unit :=
  fun w =>
    let r := git_commit_reply E (trace w) msg in
    (r, add_event (GitCommit msg r) w).

Definition git_push (remote branch : jsstring) : M unit :=
  fun w =>
    let r := git_push_reply E (trace w) remote branch in
    (r, add_event (GitPush remote branch r) w).

(** [status.modified.includes(filePath)] *)
Definition array_includes (l : list jsstring) (x : jsstring) : bool :=
  bool_decide (x ∈ l).

Definition commitToGitHub (filePath : jsstring) : M bool :=
  try_catch
    (logger Linfo (js "准备提交文件到GitHub...") ;;
     status <- git_status ;;
     if negb (array_includes (modified status) filePath)
        && negb (array_includes (not_added status) filePath)
     then
       logger Lwarn (js "文件 " ++ filePath ++ js " 没有变更，无需提交") ;;
       ret false
     else
       now <- new_Date ;;
       let commitMsg :=
         js "更新每日新闻 " ++ split_head 84 (toISOString now) in
       git_add filePath ;;
       git_commit commitMsg ;;
       git_push (js "origin") (js "main") ;;
       logger Linfo
         (js "已成功提交和推送文件 " ++ filePath ++ js " 到GitHub") ;;
       ret true)
    (fun error =>
       logger Lerror (js "GitHub提交失败: " ++ message error) ;;
       ret false).

Definition fetchPage (this : NewsCrawler) : M jsstring :=
  try_catch
    (logger Linfo (js "正在获取页面: " ++ url this) ;;
     response <- axios_get (url this) ;;
     logger Linfo (js "成功获取页面: " ++ url this ++ js ", 状态码: "
                   ++ ofN (status response)) ;;
     ret (data response))
    (fun error =>
       logger Lerror (js "获取页面失败: " ++ message error) ;;
       throw error).

(** [link.startsWith("http") ? link : new URL(link, this.url).href] *)
Definition fullLink (this : NewsCrawler) (href : jsstring) : M jsstring :=
  if startsWith href (js "http") then ret href
  else lift (URL_href E href (url this)).

(** [cheerio.each]: the callback sees each element in turn; [newsItems], the
    array the callbacks push to, is threaded through. *)
Fixpoint each {A} (f : A -> node -> M A) (els : list node) (acc : A) : M A :=
  match els with
  | [] => ret acc
  | el :: rest => acc' <- f acc el ;; each f rest acc'
  end.

(** [title && link] with [link] possibly [undefined]. *)
Definition title_and_link (t : jsstring) (l : option jsstring) : option jsstring :=
  match l with
  | Some h => if truthy t && truthy h then Some h else None
  | None => None
  end.

(** Callback of the first Sina pass (lines 133-156). *)
Definition sina_card (this : NewsCrawler) (newsItems : list NewsRecord)
    (el : node) : M (list NewsRecord) :=
  try_catch
    (let t :=
       or_else
         (trim (text (find [Tag (js "h2"); Class (js "ty-card-tt");
                            Class (js "news-title")] el)))
         (trim (text (first (find [Tag (js "a")] el)))) in
     let l := attr (js "href") (find [Tag (js "a")] el) in
     match title_and_link t l with
     | Some h =>
       full <- fullLink this h ;;
       now <- new_Date ;;
       ret (newsItems ++
              [{| title := t; link := full; summary := js "热门新闻";
                  crawl_time := toISOString now; source := js "新浪新闻" |}])
     | None => ret newsItems
     end)
    (fun e =>
       logger Lwarn (js "解析新闻项时出错: " ++ message e) ;;
       ret newsItems).

(** Callback of the second Sina pass (lines 159-180). *)
Definition sina_hot (this : NewsCrawler) (newsItems : list NewsRecord)
    (el : node) : M (list NewsRecord) :=
  try_catch
    (let t := trim (text (first (find [Tag (js "a"); Tag (js "span")] el))) in
     let l := attr (js "href") (find [Tag (js "a")] el) in
     match title_and_link t l with
     | Some h =>
       full <- fullLink this h ;;
       now <- new_Date ;;
       ret (newsItems ++
              [{| title := t; link := full; summary := js "热榜新闻，无摘要";
                  crawl_time := toISOString now;
                  source := js "新浪微博热搜" |}])
     | None => ret newsItems
     end)
    (fun e =>
       logger Lwarn (js "解析热搜项时出错: " ++ message e) ;;
       ret newsItems).

(** Callback of the NetEase pass (lines 185-206). *)
Definition netease_item (this : NewsCrawler) (newsItems : list NewsRecord)
    (el : node) : M (list NewsRecord) :=
  try_catch
    (let t :=
       trim (text (first (find [Tag (js "h3"); Class (js "title");
                                Tag (js "a")] el))) in
     let l := attr (js "href") (find [Tag (js "a")] el) in
     match title_and_link t l with
     | Some h =>
       full <- fullLink this h ;;
       now <- new_Date ;;
       ret (newsItems ++
              [{| title := t; link := full; summary := js "网易新闻，无摘要";
                  crawl_time := toISOString now; source := js "网易新闻" |}])
     | None => ret newsItems
     end)
    (fun e =>
       logger Lwarn (js "解析网易新闻项时出错: " ++ message e) ;;
       ret newsItems).

(** [/^(javascript|mailto|tel):/.test(href)]: the pattern has no flag, so
    the three alternatives are compared code unit by code unit. *)
Definition scheme_test (href : jsstring) : bool :=
  startsWith href (js "javascript:") || startsWith href (js "mailto:")
  || startsWith href (js "tel:").

(** The condition of the [if] at lines 217-223; [Some href] when it holds. *)
Definition anchor_filter (txt : jsstring) (href : option jsstring)
  : option jsstring :=
  match href with
  | Some h =>
    if truthy txt && truthy h
       && (10 <? length txt)%nat && (length txt <? 100)%nat
       && negb (scheme_test h)
    then Some h else None
  | None => None
  end.

Definition generic_summary : jsstring := js "通用爬取，无摘要".

(** Callback of the generic pass (lines 211-239). *)
Definition generic_anchor (this : NewsCrawler) (newsItems : list NewsRecord)
    (el : node) : M (list NewsRecord) :=
  let href := attr (js "href") [el] in
  let txt := trim (text [el]) in
  match anchor_filter txt href with
  | Some h =>
    try_catch
      (full <- fullLink this h ;;
       now <- new_Date ;;
       host <- lift (URL_hostname E (url this)) ;;
       ret (newsItems ++
              [{| title := txt; link := full; summary := generic_summary;
                  crawl_time := toISOString now; source := host |}]))
      (fun _ => ret newsItems)
  | None => ret newsItems
  end.

(** The site-specific branches (lines 131-207). *)
Definition specific_pass (this : NewsCrawler) (document : list node)
  : M (list NewsRecord) :=
  if includes (url this) (js "sina.com.cn") then
    items <- each (sina_card this)
               (select [Simple (Class (js "news-item"));
                        Simple (Class (js "ty-card-type1"));
                        Simple (Class (js "ty-card-type2"))] document) [] ;;
    each (sina_hot this)
      (select [Descendant (Class (js "list_a")) (Tag (js "li"));
               Descendant (Class (js "data-list")) (Tag (js "li"))] document)
      items
  else if includes (url this) (js "163.com") then
    each (netease_item this)
      (select [Simple (Class (js "news_title"));
               Simple (Class (js "data_row"));
               Simple (Class (js "news_item"))] document) []
  else ret [].

(** The generic pass with its guard (lines 210-240). *)
Definition generic_pass (this : NewsCrawler) (document : list node)
    (newsItems : list NewsRecord) : M (list NewsRecord) :=
  if (length newsItems =? 0)%nat
  then each (generic_anchor this) (select [Simple (Tag (js "a"))] document)
         newsItems
  else ret newsItems.

(** The passes of [parseNews] up to, not including, deduplication. *)
Definition collectNews (this : NewsCrawler) (document : list node)
  : M (list NewsRecord) :=
  items <- specific_pass this document ;;
  generic_pass this document items.

Definition parseNews (this : NewsCrawler) (html : jsstring)
  : M (list NewsRecord) :=
  try_catch
    (logger Linfo (js "开始解析新闻内容") ;;
     document <- lift (cheerio_parse E html) ;;
     newsItems <- collectNews this document ;;
     let unique := uniqueNews newsItems in
     logger Linfo (js "成功解析到 " ++ ofN (N.of_nat (length unique))
                   ++ js " 条新闻") ;;
     ret unique)
    (fun error =>
       logger Lerror (js "解析新闻内容失败: " ++ message error) ;;
       ret []).

Definition nl : jsstring := [10].

(** [`${year}${month}${day}.md`] from one [Date] (lines 271-275, 462-466). *)
Definition dated_md (now : Date) : jsstring :=
  let year := getFullYear now in
  let month := padStart 2 (js "0") (ofN (getMonth now + 1)) in
  let day := padStart 2 (js "0") (ofN (getDate now)) in
  ofN year ++ month ++ day ++ js ".md".

(** One turn of the grouping loop (lines 286-291): the guard reads
    [newsBySource[item.source]] through the prototype chain, so for an
    inherited name no array is created and the call of [push] throws. *)
Definition group_item (newsBySource : JsObject.t (list NewsRecord))
    (item : NewsRecord) : result (JsObject.t (list NewsRecord)) :=
  match JsObject.get_own (source item) newsBySource with
  | Some items => Ok (JsObject.set (source item) (items ++ [item]) newsBySource)
  | None =>
    if bool_decide (source item ∈ JsObject.inherited)
    then Throw {| message :=
                    js "newsBySource[item.source].push is not a function" |}
    else Ok (JsObject.set (source item) ([] ++ [item]) newsBySource)
  end.

Fixpoint group_items (newsBySource : JsObject.t (list NewsRecord))
    (newsItems : list NewsRecord) : result (JsObject.t (list NewsRecord)) :=
  match newsItems with
  | [] => Ok newsBySource
  | item :: rest =>
    match group_item newsBySource item with
    | Ok o => group_items o rest
    | Throw e => Throw e
    end
  end.

(** Lines 301-305. *)
Definition md_row (item : NewsRecord) : jsstring :=
  let safeTitle := replaceAll 124 [92; 124] (title item) in
  js "| " ++ safeTitle ++ js " | [链接](" ++ link item ++ js ") |" ++ nl.

(** Lines 294-308, one source. *)
Definition md_section (entry : jsstring * list NewsRecord) : jsstring :=
  js "## " ++ fst entry ++ nl ++ nl
  ++ js "| 标题 | 链接 |" ++ nl
  ++ js "| ---- | ---- |" ++ nl
  ++ flat_map md_row (snd entry)
  ++ nl.

(** The text [mdContent] holds when it is written (lines 280-311): the title
    line with the date read first, a section per source, and the closing
    line with the time read last. *)
Definition md_document (head : Date)
    (newsBySource : JsObject.t (list NewsRecord)) (foot : Date) : jsstring :=
  let mdContent :=
    js "# 每日新闻摘要 " ++ toLocaleDateString_zhCN head ++ nl ++ nl in
  let mdContent :=
    mdContent ++ flat_map md_section (JsObject.entries newsBySource) in
  mdContent ++ nl ++ js "> 爬取时间: " ++ toLocaleString_zhCN foot ++ nl.

Definition saveToMarkdown (this : NewsCrawler)
    (newsItems : option (list NewsRecord)) (filename : option jsstring)
  : M bool :=
  match newsItems with
  | None | Some [] =>
    logger Lwarn (js "没有新闻数据可保存") ;;
    ret false
  | Some items =>
    filename <-
      (if match filename with Some f => truthy f | None => false end
       then ret (default [] filename)
       else now <- new_Date ;; ret (dated_md now)) ;;
    try_catch
      (head <- new_Date ;;
       newsBySource <- lift (group_items JsObject.empty items) ;;
       foot <- new_Date ;;
       let mdContent := md_document head newsBySource foot in
       fs_writeFileSync filename mdContent ;;
       logger Linfo (js "已保存 " ++ ofN (N.of_nat (length items))
                     ++ js " 条新闻到 Markdown 文件 " ++ filename) ;;
       ret true)
      (fun error =>
         logger Lerror (js "保存Markdown文件失败: " ++ message error) ;;
         ret false)
  end.

(** Lines 351 and 353-355: first every double quote is replaced by two, then
    every comma by the full-width comma U+FF0C. *)
Definition csv_escape (s : jsstring) : jsstring :=
  replaceAll 44 (js "，") (replaceAll 34 (dquote ++ dquote) s).

Definition csv_field (s : jsstring) : jsstring := dquote ++ s ++ dquote.

(** Lines 349-360, one record. *)
Definition csv_row (item : NewsRecord) : jsstring :=
  let t := csv_escape (title item) in
  let l := link item in
  let s := csv_escape (or_else (summary item) []) in
  let time := crawl_time item in
  let src := source item in
  csv_field t ++ js "," ++ csv_field l ++ js "," ++ csv_field s ++ js ","
  ++ csv_field time ++ js "," ++ csv_field src ++ nl.

Definition saveToCsv (this : NewsCrawler)
    (newsItems : option (list NewsRecord)) (filename : option jsstring)
  : M bool :=
  match newsItems with
  | None | Some [] =>
    logger Lwarn (js "没有新闻数据可保存到CSV") ;;
    ret false
  | Some items =>
    filename <-
      (if match filename with Some f => truthy f | None => false end
       then ret (default [] filename)
       else
         now <- new_Date ;;
         let date := replaceAll 45 [] (split_head 84 (toISOString now)) in
         ret (js "news_" ++ date ++ js ".csv")) ;;
    try_catch
      (let BOM := [0xFEFF] in
       let csvContent := BOM ++ js "标题,链接,摘要,爬取时间,来源" ++ nl in
       let csvContent := csvContent ++ flat_map csv_row items in
       fs_writeFileSync filename csvContent ;;
       logger Linfo (js "已保存 " ++ ofN (N.of_nat (length items))
                     ++ js " 条新闻到 CSV 文件 " ++ filename) ;;
       ret true)
      (fun error =>
         logger Lerror (js "保存CSV文件失败: " ++ message error) ;;
         ret false)
  end.

Definition debug_html : jsstring := js "debug_html.html".

(** [run(filename = null, debug = true)]: an omitted argument is [None]. *)
Definition run (this : NewsCrawler) (filename : option jsstring)
    (debug : option bool) : M (list NewsRecord) :=
  let debug := default true debug in
  try_catch
    (html <- fetchPage this ;;
     (if debug
      then fs_writeFileSync debug_html html ;;
           logger Ldebug (js "已保存原始HTML到debug_html.html")
      else ret tt) ;;
     newsItems <- parseNews this html ;;
     (if (0 <? length newsItems)%nat
      then logger Linfo (js "成功解析到 " ++ ofN (N.of_nat (length newsItems))
                         ++ js " 条新闻") ;;
           saveToMarkdown this (Some newsItems) filename ;;
           ret tt
      else logger Lwarn (js "从 " ++ url this ++ js " 没有解析到任何新闻")) ;;
     ret newsItems)
    (fun error =>
       logger Lerror (js "爬虫运行失败: " ++ message error) ;;
       ret []).

(** *** The orchestrator *)

Definition newsSites : list jsstring :=
  [js "https://news.sina.com.cn/"; js "https://news.163.com/";
   js "https://news.qq.com/"; js "https://www.sohu.com/c/8/";
   js "https://www.thepaper.cn/"].

(** [`${z}`] for an integer. *)
Definition ofZ (z : Z) : jsstring :=
  if (z <? 0)%Z then js "-" ++ ofN (Z.abs_N z) else ofN (Z.to_N z).

(** [Math.round]: the nearest integer, half-way cases going up.  The
    result is exact, no rounding to binary64 comes in. *)
Definition Math_round (x : Q) : Z := Qfloor (x + (1 # 2))%Q.

(** The body of [for (const site of newsSites)] (lines 442-456).  The push
    to [allNews] is followed by logging, a random draw and the timer only,
    none of which throws, so the handler sees [allNews] as the turn found
    it. *)
Definition crawl_site (allNews : list NewsRecord) (site : jsstring)
  : M (list NewsRecord) :=
  try_catch
    (logger Linfo (js "开始爬取: " ++ site) ;;
     let crawler := new_NewsCrawler site in
     news <- run crawler None None ;;
     let allNews := allNews ++ news in
     logger Linfo (js "成功爬取 " ++ ofN (N.of_nat (length news))
                   ++ js " 条新闻") ;;
     r <- Math_random ;;
     let sleepTime := Number.add 3000 (Number.mul r 5000) in
     logger Linfo (js "等待 " ++ ofZ (Math_round (Number.div sleepTime 1000))
                   ++ js " 秒后继续下一个网站") ;;
     sleep sleepTime ;;
     ret allNews)
    (fun error =>
       logger Lerror (js "处理 " ++ site ++ js " 时出错: " ++ message error) ;;
       ret allNews).

Fixpoint crawl_sites (sites : list jsstring) (allNews : list NewsRecord)
  : M (list NewsRecord) :=
  match sites with
  | [] => ret allNews
  | site :: rest => allNews' <- crawl_site allNews site ;; crawl_sites rest allNews'
  end.

(** Lines 459-477. *)
Definition publish (allNews : list NewsRecord) : M unit :=
  if (0 <? length allNews)%nat
  then
    now <- new_Date ;;
    let mdFilename := dated_md now in
    let dummyCrawler := new_NewsCrawler (js "https://example.com") in
    saveToMarkdown dummyCrawler (Some allNews) (Some mdFilename) ;;
    logger Linfo (js "已保存总计 " ++ ofN (N.of_nat (length allNews))
                  ++ js " 条新闻到 Markdown 文件 " ++ mdFilename) ;;
    commitToGitHub mdFilename ;;
    ret tt
  else ret tt.

(** [main] over a list of targets; the program runs it on [newsSites]. *)
Definition main_on (sites : list jsstring) : M unit :=
  allNews <- crawl_sites sites [] ;;
  publish allNews.

Definition main : M unit := main_on newsSites.

(** The job that [setupDailyTask] hands to [cron.schedule]. *)
Definition daily_job : M unit :=
  logger Linfo (js "开始执行每日爬虫任务") ;;
  main ;;
  logger Linfo (js "每日爬虫任务完成").

End Program.

(** ** A concrete outside world

    A small fixture to run the program on: one generic portal and one Sina
    page, a clock that advances by a second per reading, a disk and a
    repository that accept everything. *)

Module Fixture.

Definition date_at (k : nat) : Date :=
  let ss := padStart 2 (js "0") (ofN (N.of_nat k)) in
  {| getFullYear := 2025; getMonth := 0; getDate := 5;
     toISOString := js "2025-01-05T08:00:" ++ ss ++ js ".000Z";
     toLocaleDateString_zhCN := js "2025/1/5";
     toLocaleString_zhCN := js "2025/1/5 08:00:" ++ ss |}.

Definition anchor (href txt : string) : node :=
  Element (js "a") [(js "href", js href)] [Text (js txt)].

Definition qq : jsstring := js "https://news.qq.com/".
Definition sina : jsstring := js "https://news.sina.com.cn/".

(** Two anchors share a title, one href has a capitalised scheme, one text
    is too short. *)
Definition qq_page : list node :=
  [Element (js "div") []
     [anchor "/a/1" "  Breaking news of the day  ";
      anchor "JavaScript:void(0)" "Click here to open the menu";
      anchor "/a/2" "Breaking news of the day";
      anchor "/a/3" "short"]].

(** One featured card, and an anchor outside of it that only the generic pass
    would pick up. *)
Definition sina_page : list node :=
  [Element (js "div") [(js "class", js "card news-item")]
     [Element (js "h2") [] [Text (js "Featured story")];
      anchor "/f/1" "read more"];
   anchor "/about" "About this portal and its editors"].

Definition resolve (rel base : jsstring) : result jsstring :=
  if bool_decide (rel = js "JavaScript:void(0)") then Ok (js "javascript:void(0)")
  else if startsWith rel (js "/") then
    Ok ((if includes base (js "sina.com.cn")
         then js "https://news.sina.com.cn" else js "https://news.qq.com") ++ rel)
  else Throw {| message := js "Invalid URL" |}.

Definition hostname (u : jsstring) : result jsstring :=
  if includes u (js "sina.com.cn") then Ok (js "news.sina.com.cn")
  else Ok (js "news.qq.com").

Definition fetch (u : jsstring) : result Response :=
  if bool_decide (u = qq) then Ok {| status := 200; data := js "<qq>" |}
  else if bool_decide (u = sina) then Ok {| status := 200; data := js "<sina>" |}
  else Throw {| message := js "timeout of 10000ms exceeded" |}.

Definition parse (html : jsstring) : result (list node) :=
  if bool_decide (html = js "<qq>") then Ok qq_page
  else if bool_decide (html = js "<sina>") then Ok sina_page
  else Ok [].

Definition env : Env :=
  {| axios_reply := fun _ u => fetch u;
     cheerio_parse := parse;
     URL_href := resolve;
     URL_hostname := hostname;
     Date_at := date_at;
     random_at := fun _ => 2 ^ 52;
     fs_write_reply := fun _ _ _ => Ok tt;
     fs_write_left := fun _ _ _ => None;
     git_status_reply := fun _ => Ok {| modified := []; not_added := [] |};
     git_add_reply := fun _ _ => Ok tt;
     git_commit_reply := fun _ _ => Ok tt;
     git_push_reply := fun _ _ _ => Ok tt |}.

(** What [parseNews] makes of [qq_page]. *)
Definition qq_news : list NewsRecord :=
  [{| title := js "Breaking news of the day";
      link := js "https://news.qq.com/a/2";
      summary := js "通用爬取，无摘要";
      crawl_time := js "2025-01-05T08:00:02.000Z";
      source := js "news.qq.com" |};
   {| title := js "Click here to open the menu";
      link := js "javascript:void(0)";
      summary := js "通用爬取，无摘要";
      crawl_time := js "2025-01-05T08:00:01.000Z";
      source := js "news.qq.com" |}].

Definition world0 : World :=
  {| files := ∅; trace := []; logged := []; dates := 0; draws := 0 |}.

End Fixture.

(** ** Vocabulary of the statements *)

(** A computation that returns on every world. *)
Definition returns {A} (m : M A) : Prop :=
  forall w, exists a w', m w = (Ok a, w').

(** An absent ([null], [undefined]) or empty array argument. *)
Definition no_records (newsItems : option (list NewsRecord)) : Prop :=
  newsItems = None \/ newsItems = Some [].

(** What the specification says of a free-text CSV field, one code unit at a
    time: a double quote is doubled, a comma becomes U+FF0C, anything else
    stays. *)
Definition spec_csv_unit (c : N) : jsstring :=
  if c =? 34 then [34; 34] else if c =? 44 then [0xFF0C] else [c].

(** The title [He said <dq>hi<dq>, ok] of the specification's example. *)
Definition he_said : jsstring :=
  js "He said " ++ dquote ++ js "hi" ++ dquote ++ js ", ok".

(** The keys of a list, each at the place of its first occurrence. *)
Fixpoint first_occurrences (ks : list jsstring) : list jsstring :=
  match ks with
  | [] => []
  | k :: r =>
    k :: List.filter (fun x => negb (bool_decide (x = k))) (first_occurrences r)
  end.

(** The value that the last entry with key [k] carries. *)
Definition last_entry {V} (k : jsstring) (entries : list (jsstring * V))
  : option V :=
  snd <$> List.find (fun kv => bool_decide (fst kv = k)) (rev entries).

(** The record pushed last among those with title [t]. *)
Definition last_titled (t : jsstring) (newsItems : list NewsRecord)
  : option NewsRecord :=
  List.find (fun r => bool_decide (title r = t)) (rev newsItems).

(** A callback of [each] that, when it returns, has pushed nothing or one
    record satisfying [P]. *)
Definition pushes (P : NewsRecord -> Prop)
    (f : list NewsRecord -> node -> M (list NewsRecord)) : Prop :=
  forall items el w items' w',
    f items el w = (Ok items', w') ->
    items' = items \/ exists r, items' = items ++ [r] /\ P r.

(** [m] moves every world to one related to it by [R]. *)
Definition steps (R : World -> World -> Prop) {A} (m : M A) : Prop :=
  forall w, R w (snd (m w)).

(** Relations between worlds that the silent operations (logging, reading
    the clock, drawing a random number) respect. *)
Class Frame (R : World -> World -> Prop) : Prop := {
  frame_refl : forall w, R w w;
  frame_trans : forall w1 w2 w3, R w1 w2 -> R w2 w3 -> R w1 w3;
  frame_log : forall l msg w, R w (add_log l msg w);
  frame_date : forall w, R w (next_date w);
  frame_draw : forall w, R w (next_draw w)
}.

(** Properties of traces that hold of nothing and of concatenations. *)
Class Monoidal (S : list event -> Prop) : Prop := {
  monoidal_nil : S [];
  monoidal_app : forall t1 t2, S t1 -> S t2 -> S (t1 ++ t2)
}.

(** The later world has the trace of the earlier one, then events [t]
    with [S t]. *)
Definition extends (S : list event -> Prop) (w w' : World) : Prop :=
  exists t, trace w' = trace w ++ t /\ S t.

(** The durations of the sleeps of a trace, in order. *)
Definition sleeps (t : list event) : list Q :=
  flat_map (fun ev => match ev with Sleep ms => [ms] | _ => [] end) t.

Definition is_git (ev : event) : Prop :=
  match ev with
  | GitStatus _ | GitAdd _ _ | GitCommit _ _ | GitPush _ _ _ => True
  | _ => False
  end.

Definition is_http (ev : event) : Prop :=
  match ev with HttpGet _ _ => True | _ => False end.

(** What kind of event, and on which URL or path. *)
Inductive kind : Type :=
| KHttpGet (url : jsstring)
| KWriteFile (path : jsstring)
| KSleep
| KGit.

Definition kind_of (ev : event) : kind :=
  match ev with
  | HttpGet u _ => KHttpGet u
  | WriteFile p _ _ => KWriteFile p
  | Sleep _ => KSleep
  | _ => KGit
  end.

(** Every successful GET of the trace is followed at once by a write of the
    fetched text to [debug_html.html]. *)
Fixpoint debug_dumped (t : list event) : Prop :=
  match t with
  | [] => True
  | HttpGet _ (Ok resp) :: rest =>
    (exists o, List.head rest = Some (WriteFile debug_html (data resp) o))
    /\ debug_dumped rest
  | _ :: rest => debug_dumped rest
  end.

Definition no_http (t : list event) : Prop :=
  Forall (fun ev => ~ is_http ev) t.

(** The file [p] reads the same in both worlds. *)
Definition same_file (p : jsstring) (w w' : World) : Prop :=
  files w' !! p = files w !! p.

(** The name [saveToMarkdown] writes to: the argument when it is a non-empty
    string, else the dated name from the clock reading [now]. *)
Definition md_target (filename : option jsstring) (now : Date) : jsstring :=
  match filename with
  | Some (c :: f) => c :: f
  | _ => dated_md now
  end.

(** No record is labelled with a property name that objects inherit, so
    that grouping by source cannot throw. *)
Definition plain_sources (newsItems : list NewsRecord) : Prop :=
  Forall (fun r => source r ∉ JsObject.inherited) newsItems.

(** One [set] of [new Map(entries)], and the entry of a record. *)
Definition step {V} (m : list (jsstring * V)) (kv : jsstring * V)
  : list (jsstring * V) :=
  JsMap.set (fst kv) (snd kv) m.

Definition entry (item : NewsRecord) : jsstring * NewsRecord :=
  (title item, item).

(** The spacing of the binary64 values around [x]. *)
Definition spacing (x : Q) : Q :=
  (2 ^ (Z.max (Number.ilog2 (Qabs x)) (-1022) - 52))%Q.

(** The world a failed write of [c] to [p] leaves behind, its event apart:
    every other file as it was, and of [p] what [fs_write_left] says. *)
Definition left_by (E : Env) (p c : jsstring) (w : World) : World :=
  match fs_write_left E (trace w) p c with
  | Some rest => put_file p rest w
  | None => w
  end.

(** ** Vocabulary of the further properties *)

(** A string without white space at either end. *)
Definition trimmed (s : jsstring) : Prop :=
  match s with
  | [] => True
  | c :: _ =>
    is_white_space c = false /\ is_white_space (List.last s c) = false
  end.

(** The four [each] loops of [parseNews]. *)
Inductive pass : Type := SinaCard | SinaHot | NetEase | Generic.

(** The elements a loop visits (the selections of lines 133, 159, 185 and
    211). *)
Definition visited (p : pass) (document : list node) : list node :=
  match p with
  | SinaCard =>
    select [Simple (Class (js "news-item"));
            Simple (Class (js "ty-card-type1"));
            Simple (Class (js "ty-card-type2"))] document
  | SinaHot =>
    select [Descendant (Class (js "list_a")) (Tag (js "li"));
            Descendant (Class (js "data-list")) (Tag (js "li"))] document
  | NetEase =>
    select [Simple (Class (js "news_title"));
            Simple (Class (js "data_row"));
            Simple (Class (js "news_item"))] document
  | Generic => select [Simple (Tag (js "a"))] document
  end.

(** What a loop reads off the element it is at: the title (lines 136-138,
    162, 188, 214) and the href (lines 139, 163, 189, 213). *)
Definition title_in (p : pass) (el : node) : jsstring :=
  match p with
  | SinaCard =>
    or_else
      (trim (text (find [Tag (js "h2"); Class (js "ty-card-tt");
                         Class (js "news-title")] el)))
      (trim (text (first (find [Tag (js "a")] el))))
  | SinaHot => trim (text (first (find [Tag (js "a"); Tag (js "span")] el)))
  | NetEase =>
    trim (text (first (find [Tag (js "h3"); Class (js "title");
                             Tag (js "a")] el)))
  | Generic => trim (text [el])
  end.

Definition href_in (p : pass) (el : node) : option jsstring :=
  match p with
  | Generic => attr (js "href") [el]
  | _ => attr (js "href") (find [Tag (js "a")] el)
  end.

(** The URL test under which a loop is reached at all. *)
Definition reached (this : NewsCrawler) (p : pass) : Prop :=
  match p with
  | SinaCard | SinaHot => includes (url this) (js "sina.com.cn") = true
  | NetEase => includes (url this) (js "sina.com.cn") = false
               /\ includes (url this) (js "163.com") = true
  | Generic => True
  end.

(** Summary and source as the loop sets them. *)
Definition labelled (E : Env) (this : NewsCrawler) (p : pass) (r : NewsRecord)
  : Prop :=
  match p with
  | SinaCard => summary r = js "热门新闻" /\ source r = js "新浪新闻"
  | SinaHot => summary r = js "热榜新闻，无摘要"
               /\ source r = js "新浪微博热搜"
  | NetEase => summary r = js "网易新闻，无摘要" /\ source r = js "网易新闻"
  | Generic => summary r = generic_summary
               /\ URL_hostname E (url this) = Ok (source r)
  end.

(** Record [r] is what loop [p] pushes at element [el]: the title is the
    one read off [el] and is not empty; the link is the href of [el], which
    is not empty, taken as it is when it starts with [http] and resolved
    against the crawler's URL otherwise; the time is a reading of the clock;
    the labels are those of the loop; and in the generic loop the title has
    11 to 99 code units and the href does not match the scheme pattern. *)
Definition made_at (E : Env) (this : NewsCrawler) (p : pass) (el : node)
    (r : NewsRecord) : Prop :=
  title r = title_in p el
  /\ truthy (title r) = true
  /\ (exists h,
        href_in p el = Some h
        /\ truthy h = true
        /\ ((startsWith h (js "http") = true /\ link r = h)
            \/ (startsWith h (js "http") = false
                /\ URL_href E h (url this) = Ok (link r)))
        /\ (p = Generic -> scheme_test h = false))
  /\ (exists k, crawl_time r = toISOString (Date_at E k))
  /\ labelled E this p r
  /\ (p = Generic -> (10 < length (title r) < 100)%nat).

(** Record [r] comes from an element of the parsed page, visited by a loop
    that the crawler's URL lets run. *)
Definition from_page (E : Env) (this : NewsCrawler) (document : list node)
    (r : NewsRecord) : Prop :=
  exists p el,
    reached this p /\ In el (visited p document) /\ made_at E this p el r.

(** Every call of [f] returns its array as it got it, or with one record
    added that stands in relation [P] to the element of the call. *)
Definition pushes_at (P : node -> NewsRecord -> Prop)
    (f : list NewsRecord -> node -> M (list NewsRecord)) : Prop :=
  forall items el w items' w',
    f items el w = (Ok items', w') ->
    items' = items \/ exists r, items' = items ++ [r] /\ P el r.

(** No event was added and no file changed. *)
Definition quiet (w w' : World) : Prop :=
  trace w' = trace w /\ files w' = files w.

(** ** Outside worlds in which something fails *)

Module Faults.

(** As [Fixture.env], with single answers replaced. *)
Definition with_replies
    (parse : jsstring -> result (list node))
    (write : list event -> jsstring -> jsstring -> result unit)
    (leave : list event -> jsstring -> jsstring -> option jsstring)
    (status : list event -> result StatusResult)
    (add commit : list event -> jsstring -> result unit)
    (push : list event -> jsstring -> jsstring -> result unit) : Env :=
  {| axios_reply := axios_reply Fixture.env;
     cheerio_parse := parse;
     URL_href := URL_href Fixture.env;
     URL_hostname := URL_hostname Fixture.env;
     Date_at := Date_at Fixture.env;
     random_at := random_at Fixture.env;
     fs_write_reply := write;
     fs_write_left := leave;
     git_status_reply := status;
     git_add_reply := add;
     git_commit_reply := commit;
     git_push_reply := push |}.

(** [cheerio.load] throws. *)
Definition unparsable : Env :=
  with_replies (fun _ => Throw {| message := js "unexpected input" |})
    (fs_write_reply Fixture.env) (fs_write_left Fixture.env)
    (git_status_reply Fixture.env)
    (git_add_reply Fixture.env) (git_commit_reply Fixture.env)
    (git_push_reply Fixture.env).

(** Every write fails after the file was opened, and leaves it empty. *)
Definition full_disk : Env :=
  with_replies (cheerio_parse Fixture.env)
    (fun _ _ _ => Throw {| message := js "ENOSPC: no space left on device" |})
    (fun _ _ _ => Some [])
    (git_status_reply Fixture.env)
    (git_add_reply Fixture.env) (git_commit_reply Fixture.env)
    (git_push_reply Fixture.env).

(** The repository shows the dated file as untracked; the push is
    rejected when [push_ok] is [false]. *)
Definition untracked (push_ok : bool) : Env :=
  with_replies (cheerio_parse Fixture.env) (fs_write_reply Fixture.env)
    (fs_write_left Fixture.env)
    (fun _ => Ok {| modified := []; not_added := [js "20250105.md"] |})
    (git_add_reply Fixture.env) (git_commit_reply Fixture.env)
    (fun _ _ _ =>
       if push_ok then Ok tt
       else Throw {| message := js "rejected: non-fast-forward" |}).

(** A record from a site whose host name is [constructor]. *)
Definition constructor_item : NewsRecord :=
  {| title := js "A headline long enough";
     link := js "http://constructor/a";
     summary := js "通用爬取，无摘要";
     crawl_time := js "2025-01-05T08:00:00.000Z";
     source := js "constructor" |}.

End Faults.

(** The world [fetchPage] leaves after an answer [resp]. *)
Definition after_fetch (this : NewsCrawler) (resp : Response) (w : World)
  : World :=
  add_log Linfo
    (js "成功获取页面: " ++ url this ++ js ", 状态码: " ++ ofN (status resp))
    (add_event (HttpGet (url this) (Ok resp))
       (add_log Linfo (js "正在获取页面: " ++ url this) w)).

(** The world after the dump of the fetched text has succeeded. *)
Definition after_dump (this : NewsCrawler) (resp : Response) (w : World)
  : World :=
  add_event (WriteFile debug_html (data resp) (Ok tt))
    (put_file debug_html (data resp) (after_fetch this resp w)).

(** [ev] is a write to path [p]. *)
Definition writes_to (p : jsstring) (ev : event) : Prop :=
  match ev with
  | WriteFile q _ _ => q = p
  | _ => False
  end.

(** The reading of the clock that heads the Markdown document: the first
    when a file name was passed, the second when the name took the first. *)
Definition md_clock (filename : option jsstring) (w : World) : nat :=
  match filename with
  | Some (_ :: _) => dates w
  | _ => S (dates w)
  end.

(** The name [saveToCsv] writes to. *)
Definition csv_target (filename : option jsstring) (now : Date) : jsstring :=
  match filename with
  | Some (c :: f) => c :: f
  | _ => js "news_" ++ replaceAll 45 [] (split_head 84 (toISOString now))
         ++ js ".csv"
  end.

(** The text [saveToCsv] writes. *)
Definition csv_document (items : list NewsRecord) : jsstring :=
  [0xFEFF] ++ js "标题,链接,摘要,爬取时间,来源" ++ nl ++ flat_map csv_row items.

Definition succeeded {A} (r : result A) : bool :=
  match r with Ok _ => true | Throw _ => false end.

(** The records of [items] whose source is [k], in their order. *)
Definition group_of (k : jsstring) (items : list NewsRecord)
  : list NewsRecord :=
  List.filter (fun r => bool_decide (source r = k)) items.

Definition is_index (k : jsstring) : bool :=
  match JsObject.array_index k with Some _ => true | None => false end.

(** The shape [JsObject.set] keeps: index keys ascending and canonical,
    the other keys distinct and none of them an index. *)
Definition wf_object {V} (o : JsObject.t V) : Prop :=
  StronglySorted N.lt (map fst (JsObject.indexed o))
  /\ Forall (fun e => JsObject.array_index (ofN (fst e)) = Some (fst e))
       (JsObject.indexed o)
  /\ Forall (fun e => JsObject.array_index (fst e) = None) (JsObject.named o)
  /\ List.NoDup (map fst (JsObject.named o)).

(** The object holds, under each source, the records of [pre] with that
    source, and nothing under a source that does not occur. *)
Definition groups (o : JsObject.t (list NewsRecord)) (pre : list NewsRecord)
  : Prop :=
  forall k,
    JsObject.get_own k o
    = match group_of k pre with [] => None | l => Some l end.

(** The named keys of the object, in terms of the records grouped. *)
Definition named_order (o : JsObject.t (list NewsRecord))
    (pre : list NewsRecord) : Prop :=
  map fst (JsObject.named o)
  = first_occurrences
      (List.filter (fun k => negb (is_index k)) (map source pre)).

(** The grouping of the records of the fixture page. *)
Definition qq_groups : JsObject.t (list NewsRecord) :=
  match group_items JsObject.empty Fixture.qq_news with
  | Ok o => o
  | Throw _ => JsObject.empty
  end.

(** The path is listed as modified or as untracked. *)
Definition listed (p : jsstring) (st : StatusResult) : Prop :=
  p ∈ modified st \/ p ∈ not_added st.

(** The git events one call of [commitToGitHub] for path [p] can leave, with
    the value it returns: each step is taken only after the one before it
    succeeded. *)
Inductive commit_chain (p msg : jsstring) : list event -> bool -> Prop :=
| chain_status_failed e :
    commit_chain p msg [GitStatus (Throw e)] false
| chain_unchanged st :
    ~ listed p st ->
    commit_chain p msg [GitStatus (Ok st)] false
| chain_add_failed st e :
    listed p st ->
    commit_chain p msg [GitStatus (Ok st); GitAdd p (Throw e)] false
| chain_commit_failed st e :
    listed p st ->
    commit_chain p msg
      [GitStatus (Ok st); GitAdd p (Ok tt); GitCommit msg (Throw e)] false
| chain_push_failed st e :
    listed p st ->
    commit_chain p msg
      [GitStatus (Ok st); GitAdd p (Ok tt); GitCommit msg (Ok tt);
       GitPush (js "origin") (js "main") (Throw e)] false
| chain_pushed st :
    listed p st ->
    commit_chain p msg
      [GitStatus (Ok st); GitAdd p (Ok tt); GitCommit msg (Ok tt);
       GitPush (js "origin") (js "main") (Ok tt)] true.

(** The URLs requested in a trace, in order. *)
Definition gets (t : list event) : list jsstring :=
  flat_map (fun ev => match ev with HttpGet u _ => [u] | _ => [] end) t.

(** The files are as they were. *)
Definition same_files (w w' : World) : Prop := files w' = files w.

(** [P] holds of every number below [n]. *)
Definition all_below (P : N -> bool) (n : N) : bool :=
  forallb P (map N.of_nat (seq 0 (N.to_nat n))).

Definition is_digit (c : N) : bool := (48 <=? c) && (c <=? 57).

(** Decimal digits, [k] of them. *)
Definition digits (k : nat) (s : jsstring) : bool :=
  (length s =? k)%nat && forallb is_digit s.

(** ** Sanity checks of the string and DOM layers *)

Example js_literal : js "a，b" = [97; 0xFF0C; 98].
Proof. reflexivity. Qed.

Example trim_sample : trim (js "  ab c  ") = js "ab c".
Proof. reflexivity. Qed.

Example padStart_sample : padStart 2 (js "0") (ofN 7) = js "07".
Proof. reflexivity. Qed.

Example grouping_order :
  let item (src : string) :=
    {| title := js "t"; link := js "l"; summary := [];
       crawl_time := js "c"; source := js src |} in
  match group_items JsObject.empty
          (map item ["b"%string; "7"%string; "a"%string; "b"%string]) with
  | Ok o => map fst (JsObject.entries o) = [js "7"; js "b"; js "a"]
  | Throw _ => False
  end.
Proof. reflexivity. Qed.

Example grouping_inherited_name :
  group_items JsObject.empty
    [{| title := js "t"; link := js "l"; summary := [];
        crawl_time := js "c"; source := js "constructor" |}]
  = Throw {| message := js "newsBySource[item.source].push is not a function" |}.
Proof. reflexivity. Qed.

Example select_descendant :
  let li := Element (js "li") [] [Text (js "x")] in
  select [Descendant (Class (js "list_a")) (Tag (js "li"))]
    [Element (js "ul") [(js "class", js "top list_a")] [li]; li] = [li].
Proof. reflexivity. Qed.

(** ** Sanity checks of the arithmetic *)

(** [0.1 + 0.2] is [0.30000000000000004]. *)
Example binary64_sum :
  Number.add (Number.round64 (1 # 10)) (Number.round64 (2 # 10))
  = (1351079888211149 # 4503599627370496)%Q.
Proof. vm_compute. reflexivity. Qed.

(** Between 1 and 2 the spacing is [2 ^ -52]; half of it goes to the even
    neighbour. *)
Example binary64_ties :
  Number.round64 (1 + (1 # 9007199254740992)) = 1%Q
  /\ Number.round64 (1 + (3 # 9007199254740992))
     = (2251799813685249 # 2251799813685248)%Q.
Proof. split; vm_compute; reflexivity. Qed.

(** A draw for which the exact [3000 + r * 5000] is below 4500, while the
    Number the program computes is 4500 and is announced as 5 seconds. *)
Example sleepTime_rounded :
  (3000 + Number.of_bits 2702159776422297 * 5000 < 4500)%Q
  /\ Number.add 3000 (Number.mul (Number.of_bits 2702159776422297) 5000)
     = 4500%Q
  /\ Math_round (Number.div 4500 1000) = 5%Z.
Proof. repeat split; vm_compute; reflexivity. Qed.

(** The largest draw gives the Number just below 8000. *)
Example sleepTime_largest :
  Number.add 3000 (Number.mul (Number.of_bits (2 ^ 53 - 1)) 5000)
  = (8796093022207999 # 1099511627776)%Q.
Proof. vm_compute. reflexivity. Qed.

(** ** The monad: outcomes and catching *)

Lemma bind_ok {A B} (m : M A) (k : A -> M B) w a w' :
  m w = (Ok a, w') -> bind m k w = k a w'.
Proof. intros H. unfold bind. now rewrite H. Qed.

Lemma bind_throw {A B} (m : M A) (k : A -> M B) w e w' :
  m w = (Throw e, w') -> bind m k w = (Throw e, w').
Proof. intros H. unfold bind. now rewrite H. Qed.

Lemma returns_ret {A} (a : A) : returns (ret a).
Proof. intros w. now exists a, w. Qed.

Lemma returns_bind {A B} (m : M A) (k : A -> M B) :
  returns m -> (forall a, returns (k a)) -> returns (bind m k).
Proof.
  intros Hm Hk w. destruct (Hm w) as (a & w1 & Ha).
  rewrite (bind_ok _ _ _ _ _ Ha). apply Hk.
Qed.

Lemma returns_try_catch {A} (body : M A) (handler : Error -> M A) :
  (forall e, returns (handler e)) -> returns (try_catch body handler).
Proof.
  intros Hh w. unfold try_catch.
  destruct (body w) as [[a | e] w1]; [now exists a, w1 | apply Hh].
Qed.

Lemma returns_logger l msg : returns (logger l msg).
Proof.
  intros w. unfold logger.
  destruct (severity l <=? severity logger_level)%nat; eauto.
Qed.

Create HintDb returns.
#[local] Hint Resolve returns_ret returns_logger : returns.

(** ** Empty input of the renderers *)

(** C8. [saveToMarkdown] and [saveToCsv], given an absent or empty record
    list, return [false]; no [fs.writeFileSync] happens and every file is as
    before (only the warning is logged). *)
Theorem save_without_records E this newsItems filename w :
  no_records newsItems ->
  (fst (saveToMarkdown E this newsItems filename w) = Ok false
   /\ files (snd (saveToMarkdown E this newsItems filename w)) = files w
   /\ trace (snd (saveToMarkdown E this newsItems filename w)) = trace w)
  /\ (fst (saveToCsv E this newsItems filename w) = Ok false
      /\ files (snd (saveToCsv E this newsItems filename w)) = files w
      /\ trace (snd (saveToCsv E this newsItems filename w)) = trace w).
Proof.
  intros [-> | ->]; repeat split; reflexivity.
Qed.

Lemma save_without_records_witness :
  fst (saveToMarkdown Fixture.env (new_NewsCrawler Fixture.qq) (Some [])
         (Some (js "digest.md")) Fixture.world0) = Ok false.
Proof.
  exact (proj1 (proj1 (save_without_records Fixture.env
                         (new_NewsCrawler Fixture.qq) (Some [])
                         (Some (js "digest.md")) Fixture.world0
                         (or_intror eq_refl)))).
Defined.

(** ** Committing *)

(** C9. [commitToGitHub] always returns a boolean, whatever git answers; and
    when the status lists the path neither as modified nor as untracked, it
    returns [false] having asked git for the status only: no add, commit or
    push, and no file touched. *)
Theorem commitToGitHub_guarded E filePath w :
  (exists b w', commitToGitHub E filePath w = (Ok b, w'))
  /\ (forall st,
        git_status_reply E (trace w) = Ok st ->
        filePath ∉ modified st ->
        filePath ∉ not_added st ->
        let r := commitToGitHub E filePath w in
        fst r = Ok false
        /\ trace (snd r) = trace w ++ [GitStatus (Ok st)]
        /\ files (snd r) = files w).
Proof.
  split.
  - apply returns_try_catch. intros e.
    apply returns_bind; auto with returns.
  - intros st Hst Hm Hn. cbv zeta.
    unfold commitToGitHub, try_catch, bind, git_status, logger, array_includes.
    simpl. rewrite Hst.
    rewrite !bool_decide_eq_false_2 by assumption.
    simpl. repeat split; reflexivity.
Qed.

Lemma commitToGitHub_guarded_witness :
  fst (commitToGitHub Fixture.env (js "20250105.md") Fixture.world0) = Ok false.
Proof.
  refine (proj1 (proj2 (commitToGitHub_guarded Fixture.env (js "20250105.md")
                          Fixture.world0)
                   {| modified := []; not_added := [] |} _ _ _)).
  - reflexivity.
  - apply not_elem_of_nil.
  - apply not_elem_of_nil.
Defined.

(** ** CSV rows *)

Lemma replaceAll_app c r s t :
  replaceAll c r (s ++ t) = replaceAll c r s ++ replaceAll c r t.
Proof. unfold replaceAll. apply flat_map_app. Qed.

Lemma csv_escape_cons c s :
  csv_escape (c :: s) = spec_csv_unit c ++ csv_escape s.
Proof.
  unfold csv_escape, spec_csv_unit.
  change (c :: s) with ([c] ++ s). rewrite !replaceAll_app. f_equal.
  unfold replaceAll at 2. simpl flat_map.
  destruct (c =? 34) eqn:Hq.
  - reflexivity.
  - destruct (c =? 44) eqn:Hc; simpl; rewrite Hc; reflexivity.
Qed.

Lemma csv_escape_spec s : csv_escape s = flat_map spec_csv_unit s.
Proof.
  induction s as [| c s IH]; [reflexivity |].
  rewrite csv_escape_cons, IH. reflexivity.
Qed.

(** C6, as the code has it.  The example title renders as the field
    [<dq>He said <dq><dq>hi<dq><dq>， ok<dq>]: quotes doubled, the comma
    replaced by U+FF0C, and the blank that followed the comma still there.
    In general the title and summary fields are escaped unit by unit as
    [spec_csv_unit] says, link, time and source are copied as they are, and
    each of the five fields stands between double quotes. *)
Theorem csv_row_rendering :
  (forall l s t src,
      exists rest,
        csv_row {| title := he_said; link := l; summary := s;
                   crawl_time := t; source := src |}
        = (dquote ++ js "He said " ++ dquote ++ dquote ++ js "hi" ++ dquote
           ++ dquote ++ js "， ok" ++ dquote) ++ js "," ++ rest)
  /\ (forall s, csv_escape s = flat_map spec_csv_unit s)
  /\ (forall item,
        csv_row item =
        dquote ++ flat_map spec_csv_unit (title item) ++ dquote ++ js ","
        ++ dquote ++ link item ++ dquote ++ js ","
        ++ dquote ++ flat_map spec_csv_unit (summary item) ++ dquote ++ js ","
        ++ dquote ++ crawl_time item ++ dquote ++ js ","
        ++ dquote ++ source item ++ dquote ++ nl).
Proof.
  split; [| split].
  - intros l s t src. eexists. unfold csv_row. cbn [title].
    replace (csv_field (csv_escape he_said))
      with (dquote ++ js "He said " ++ dquote ++ dquote ++ js "hi" ++ dquote
            ++ dquote ++ js "， ok" ++ dquote) by (vm_compute; reflexivity).
    rewrite <- !app_assoc. reflexivity.
  - apply csv_escape_spec.
  - intros item. unfold csv_row, csv_field.
    assert (Hs : or_else (summary item) [] = summary item)
      by (unfold or_else; destruct (summary item); reflexivity).
    rewrite Hs, !csv_escape_spec, <- !app_assoc. reflexivity.
Qed.

(** The field the specification's example promises, without the blank, is not
    what the row starts with. *)
Lemma csv_example_keeps_blank :
  let row := csv_row {| title := he_said; link := js "https://example.com/";
                        summary := []; crawl_time := js "t"; source := js "s" |} in
  startsWith row (dquote ++ js "He said " ++ dquote ++ dquote ++ js "hi"
                  ++ dquote ++ dquote ++ js "，ok" ++ dquote) = false
  /\ startsWith row (dquote ++ js "He said " ++ dquote ++ dquote ++ js "hi"
                     ++ dquote ++ dquote ++ js "， ok" ++ dquote) = true.
Proof. split; vm_compute; reflexivity. Qed.

(** ** The anchor filter of the generic pass *)

Lemma startsWith_app p rest : startsWith (p ++ rest) p = true.
Proof.
  induction p as [| a p IH]; [reflexivity |].
  simpl. rewrite N.eqb_refl. exact IH.
Qed.

Lemma generic_anchor_rejected E this newsItems el w :
  anchor_filter (trim (text [el])) (attr (js "href") [el]) = None ->
  generic_anchor E this newsItems el w = (Ok newsItems, w).
Proof. intros H. unfold generic_anchor. rewrite H. reflexivity. Qed.

Lemma fullLink_pure E this h w :
  fullLink E this h w = (fst (fullLink E this h w), w).
Proof. unfold fullLink. destruct (startsWith h (js "http")); reflexivity. Qed.

Lemma generic_anchor_accepted E this newsItems el w h full host :
  anchor_filter (trim (text [el])) (attr (js "href") [el]) = Some h ->
  fst (fullLink E this h w) = Ok full ->
  URL_hostname E (url this) = Ok host ->
  generic_anchor E this newsItems el w
  = (Ok (newsItems ++
           [{| title := trim (text [el]); link := full;
               summary := generic_summary;
               crawl_time := toISOString (Date_at E (dates w));
               source := host |}]),
     next_date w).
Proof.
  intros Hf Hl Hh. unfold generic_anchor. rewrite Hf.
  unfold try_catch, bind. rewrite fullLink_pure, Hl.
  unfold new_Date, lift. rewrite Hh. reflexivity.
Qed.

Lemma startsWith_spec s p :
  startsWith s p = true <-> exists rest, s = p ++ rest.
Proof.
  split.
  - revert s. induction p as [| a p IH]; intros s H; [now exists s |].
    destruct s as [| b s]; [discriminate H |].
    cbn [startsWith] in H. apply andb_true_iff in H. destruct H as [Hab Hs].
    apply N.eqb_eq in Hab. subst b. destruct (IH s Hs) as (rest & ->).
    now exists rest.
  - intros (rest & ->). apply startsWith_app.
Qed.

Lemma scheme_test_spec h :
  scheme_test h = true
  <-> exists rest,
        h = js "javascript:" ++ rest \/ h = js "mailto:" ++ rest
        \/ h = js "tel:" ++ rest.
Proof.
  unfold scheme_test. rewrite !orb_true_iff, !startsWith_spec. split.
  - intros [[(rest & H) | (rest & H)] | (rest & H)]; exists rest; tauto.
  - intros (rest & [H | [H | H]]); [left; left | left; right | right];
      now exists rest.
Qed.

(** C5, as the code has it.  The pattern is matched case-sensitively: it
    matches an href exactly when the href begins, code unit by code unit,
    with [javascript:], [mailto:] or [tel:] in lower case.  An anchor whose
    href it matches is rejected by the generic pass, whatever its text; an
    href it does not match, differing capitals included, does not keep the
    anchor out: with a text of 11 to 99 code units the anchor passes the
    filter. *)
Theorem scheme_prefix_rejected E this newsItems el h w :
  attr (js "href") [el] = Some h ->
  (scheme_test h = true
   <-> exists rest,
         h = js "javascript:" ++ rest \/ h = js "mailto:" ++ rest
         \/ h = js "tel:" ++ rest)
  /\ (scheme_test h = true ->
      generic_anchor E this newsItems el w = (Ok newsItems, w))
  /\ (scheme_test h = false ->
      truthy h = true ->
      (10 < length (trim (text [el])) < 100)%nat ->
      anchor_filter (trim (text [el])) (attr (js "href") [el]) = Some h).
Proof.
  intros Ha. split; [apply scheme_test_spec |]. split.
  - intros Ht. apply generic_anchor_rejected. rewrite Ha. unfold anchor_filter.
    rewrite Ht. rewrite !andb_false_r. reflexivity.
  - intros Hs Hh [Hlo Hhi]. rewrite Ha. unfold anchor_filter.
    rewrite Hh, Hs.
    assert (Ht : truthy (trim (text [el])) = true)
      by (destruct (trim (text [el])); [cbn in Hlo; lia | reflexivity]).
    rewrite Ht. apply Nat.ltb_lt in Hlo, Hhi. now rewrite Hlo, Hhi.
Qed.

Lemma scheme_prefix_rejected_witness :
  generic_anchor Fixture.env (new_NewsCrawler Fixture.qq) []
    (Fixture.anchor "javascript:void(0)" "Click here to open the menu")
    Fixture.world0
  = (Ok [], Fixture.world0)
  /\ anchor_filter (js "Click here to open the menu")
       (Some (js "Tel:+1-555-0100"))
     = Some (js "Tel:+1-555-0100").
Proof.
  split.
  - refine (proj1 (proj2 (scheme_prefix_rejected Fixture.env
                            (new_NewsCrawler Fixture.qq) []
                            (Fixture.anchor "javascript:void(0)"
                               "Click here to open the menu")
                            (js "javascript:void(0)") Fixture.world0 _)) _).
    + reflexivity.
    + reflexivity.
  - refine (proj2 (proj2 (scheme_prefix_rejected Fixture.env
                            (new_NewsCrawler Fixture.qq) []
                            (Fixture.anchor "Tel:+1-555-0100"
                               "Click here to open the menu")
                            (js "Tel:+1-555-0100") Fixture.world0 _)) _ _ _).
    + reflexivity.
    + reflexivity.
    + reflexivity.
    + split; apply Nat.ltb_lt; reflexivity.
Defined.

(** An href that begins [JavaScript:] is not matched by the pattern, and the
    anchor becomes a record. *)
Lemma capitalised_scheme_accepted :
  scheme_test (js "JavaScript:void(0)") = false
  /\ fst (generic_anchor Fixture.env (new_NewsCrawler Fixture.qq) []
            (Fixture.anchor "JavaScript:void(0)" "Click here to open the menu")
            Fixture.world0)
     = Ok [{| title := js "Click here to open the menu";
              link := js "javascript:void(0)";
              summary := generic_summary;
              crawl_time := js "2025-01-05T08:00:00.000Z";
              source := js "news.qq.com" |}].
Proof. split; vm_compute; reflexivity. Qed.

(** C7. The length bound of the generic pass is exclusive at both ends:
    an anchor whose trimmed text has at most 10 or at least 100 code units,
    so one of exactly 10 or exactly 100, is skipped whatever its href; one
    of more than 10 and fewer than 100, so one of 11 or of 99, whose href
    is non-empty and not matched by the scheme pattern passes the filter,
    and becomes a record as soon as its link resolves. *)
Theorem anchor_length_bounds E this newsItems el w :
  let txt := trim (text [el]) in
  ((length txt <= 10 \/ 100 <= length txt)%nat ->
   generic_anchor E this newsItems el w = (Ok newsItems, w))
  /\ ((10 < length txt < 100)%nat ->
      forall h,
        attr (js "href") [el] = Some h ->
        truthy h = true ->
        scheme_test h = false ->
        anchor_filter txt (attr (js "href") [el]) = Some h
        /\ forall full host,
            fst (fullLink E this h w) = Ok full ->
            URL_hostname E (url this) = Ok host ->
            generic_anchor E this newsItems el w
            = (Ok (newsItems ++
                     [{| title := txt; link := full;
                         summary := generic_summary;
                         crawl_time := toISOString (Date_at E (dates w));
                         source := host |}]),
               next_date w)).
Proof.
  cbv zeta. split.
  - intros Hlen. apply generic_anchor_rejected. unfold anchor_filter.
    destruct (attr (js "href") [el]) as [h |]; [| reflexivity].
    destruct Hlen as [Hlen | Hlen].
    + apply Nat.ltb_ge in Hlen. rewrite Hlen, !andb_false_r. reflexivity.
    + apply Nat.ltb_ge in Hlen. rewrite Hlen, !andb_false_r. reflexivity.
  - intros [Hlo Hhi] h Ha Hh Hs.
    assert (Hf : anchor_filter (trim (text [el])) (attr (js "href") [el])
                 = Some h).
    { rewrite Ha. unfold anchor_filter. rewrite Hh, Hs.
      assert (Ht : truthy (trim (text [el])) = true)
        by (destruct (trim (text [el])); [cbn in Hlo; lia | reflexivity]).
      rewrite Ht. apply Nat.ltb_lt in Hlo, Hhi. now rewrite Hlo, Hhi. }
    split; [exact Hf |].
    intros full host Hl Hhost. now apply generic_anchor_accepted with (h := h).
Qed.

Lemma anchor_length_bounds_witness :
  anchor_filter (js "A headline of forty units, not at a bound")
    (Some (js "/a/41"))
  = Some (js "/a/41")
  /\ generic_anchor Fixture.env (new_NewsCrawler Fixture.qq) []
       (Fixture.anchor "/a/10" " Ten chars ") Fixture.world0
     = (Ok [], Fixture.world0).
Proof.
  split.
  - refine (proj1 (proj2 (anchor_length_bounds Fixture.env
                            (new_NewsCrawler Fixture.qq) []
                            (Fixture.anchor "/a/41"
                               " A headline of forty units, not at a bound ")
                            Fixture.world0)
                     _ (js "/a/41") _ _ _)).
    + split; apply Nat.ltb_lt; reflexivity.
    + reflexivity.
    + reflexivity.
    + reflexivity.
  - refine (proj1 (anchor_length_bounds Fixture.env
                     (new_NewsCrawler Fixture.qq) []
                     (Fixture.anchor "/a/10" " Ten chars ")
                     Fixture.world0) _).
    left. apply Nat.leb_le. reflexivity.
Defined.

(** ** The insertion-ordered map *)

Section MapFacts.
Context {V : Type}.
Implicit Types (m : list (jsstring * V)) (k : jsstring) (v : V).

Lemma filter_filter_and {A} (f g : A -> bool) (l : list A) :
  List.filter f (List.filter g l) = List.filter (fun x => g x && f x) l.
Proof.
  induction l as [| a l IH]; [reflexivity |].
  simpl. destruct (g a); simpl; [destruct (f a) |]; now rewrite IH.
Qed.

Lemma keys_set k v m :
  JsMap.keys (JsMap.set k v m)
  = if bool_decide (k ∈ JsMap.keys m) then JsMap.keys m
    else JsMap.keys m ++ [k].
Proof.
  induction m as [| [k0 v0] m IH].
  - cbn. rewrite bool_decide_eq_false_2; [reflexivity | apply not_elem_of_nil].
  - cbn [JsMap.set JsMap.keys map fst].
    destruct (bool_decide_reflect (k0 = k)) as [-> | Hne].
    + rewrite bool_decide_eq_true_2 by apply list_elem_of_here. reflexivity.
    + cbn [map fst]. fold (JsMap.keys (JsMap.set k v m)). rewrite IH.
      fold (JsMap.keys m).
      destruct (bool_decide_reflect (k ∈ JsMap.keys m)) as [Hin | Hnin].
      * rewrite bool_decide_eq_true_2 by now apply list_elem_of_further.
        reflexivity.
      * rewrite bool_decide_eq_false_2; [reflexivity |].
        rewrite elem_of_cons. intros [? | ?]; congruence.
Qed.

Lemma get_set k v m k' :
  JsMap.get k' (JsMap.set k v m)
  = if bool_decide (k = k') then Some v else JsMap.get k' m.
Proof.
  unfold JsMap.get.
  induction m as [| [k0 v0] m IH].
  - cbn [JsMap.set List.find fst]. now destruct (bool_decide (k = k')).
  - cbn [JsMap.set].
    destruct (bool_decide_reflect (k0 = k)) as [-> | Hne];
      cbn [List.find fst].
    + now destruct (bool_decide (k = k')).
    + destruct (bool_decide_reflect (k0 = k')) as [-> | Hne'].
      * now rewrite bool_decide_eq_false_2 by congruence.
      * exact IH.
Qed.

Lemma Forall_set (P : jsstring * V -> Prop) k v m :
  P (k, v) -> Forall P m -> Forall P (JsMap.set k v m).
Proof.
  intros Hk. induction 1 as [| [k0 v0] m H0 Hm IH]; cbn [JsMap.set].
  - now repeat constructor.
  - destruct (bool_decide_reflect (k0 = k)) as [-> | Hne];
      constructor; assumption.
Qed.

Lemma Forall_fold (P : jsstring * V -> Prop) entries m :
  Forall P entries -> Forall P m -> Forall P (fold_left step entries m).
Proof.
  intros He. revert m.
  induction He as [| [k v] entries Hk He IH]; intros m Hm; [exact Hm |].
  cbn [fold_left]. apply IH. now apply Forall_set.
Qed.

Lemma keys_fold entries m :
  JsMap.keys (fold_left step entries m)
  = JsMap.keys m
    ++ List.filter (fun x => negb (bool_decide (x ∈ JsMap.keys m)))
         (first_occurrences (JsMap.keys entries)).
Proof.
  revert m. induction entries as [| [k v] entries IH]; intros m.
  - cbn. now rewrite app_nil_r.
  - cbn [fold_left]. rewrite IH. unfold step. cbn [fst snd].
    rewrite keys_set.
    cbn [JsMap.keys map fst first_occurrences List.filter].
    fold (JsMap.keys entries). fold (JsMap.keys m).
    destruct (bool_decide_reflect (k ∈ JsMap.keys m)) as [Hin | Hnin];
      cbn [negb].
    + f_equal. rewrite filter_filter_and. apply filter_ext. intros x.
      destruct (bool_decide_reflect (x = k)) as [-> | Hx]; cbn [negb andb].
      * now rewrite bool_decide_eq_true_2.
      * reflexivity.
    + rewrite <- app_assoc. cbn [app]. do 2 f_equal.
      rewrite filter_filter_and. apply filter_ext. intros x.
      destruct (bool_decide_reflect (x = k)) as [-> | Hx]; cbn [negb andb].
      * apply negb_false_iff, bool_decide_eq_true_2.
        rewrite elem_of_app, elem_of_cons. now right; left.
      * f_equal. apply bool_decide_ext.
        rewrite elem_of_app, elem_of_cons, elem_of_nil. intuition congruence.
Qed.

Lemma find_snoc {A} (p : A -> bool) (l : list A) (a : A) :
  List.find p (l ++ [a])
  = match List.find p l with
    | Some x => Some x
    | None => if p a then Some a else None
    end.
Proof.
  induction l as [| b l IH]; [reflexivity |].
  cbn [app List.find]. now destruct (p b).
Qed.

Lemma get_fold entries m k :
  JsMap.get k (fold_left step entries m)
  = match last_entry k entries with
    | Some v => Some v
    | None => JsMap.get k m
    end.
Proof.
  revert m. induction entries as [| [k0 v0] entries IH]; intros m.
  - reflexivity.
  - cbn [fold_left]. rewrite IH. unfold last_entry. cbn [rev].
    rewrite find_snoc.
    destruct (List.find _ (rev entries)) as [[k1 v1] |]; [reflexivity |].
    cbn [fmap option_fmap option_map fst]. unfold step. cbn [fst snd].
    rewrite get_set.
    destruct (bool_decide (k0 = k)); reflexivity.
Qed.

Lemma filter_none {A} (f : A -> bool) (l : list A) :
  (forall x, In x l -> f x = false) -> List.filter f l = [].
Proof.
  induction l as [| a l IH]; [reflexivity |].
  intros H. cbn [List.filter]. rewrite (H a) by now left.
  apply IH. intros x Hx. apply H. now right.
Qed.

Lemma filter_of_get m k v :
  List.NoDup (JsMap.keys m) ->
  JsMap.get k m = Some v ->
  List.filter (fun kv => bool_decide (fst kv = k)) m = [(k, v)].
Proof.
  unfold JsMap.get.
  induction m as [| [k0 v0] m IH]; [discriminate |].
  cbn [JsMap.keys map fst]. intros Hnd. apply List.NoDup_cons_iff in Hnd.
  destruct Hnd as [Hnin Hnd]. cbn [List.find List.filter fst].
  destruct (bool_decide_reflect (k0 = k)) as [-> | Hne].
  - intros [= ->]. f_equal.
    rewrite filter_none; [reflexivity |].
    intros [k1 v1] Hin. cbn [fst].
    apply bool_decide_eq_false_2. intros ->.
    apply Hnin. change k with (fst (k, v1)). now apply in_map.
  - intros Hg. now apply IH.
Qed.

End MapFacts.

Lemma first_occurrences_incl ks k :
  In k (first_occurrences ks) -> In k ks.
Proof.
  induction ks as [| k0 ks IH]; [easy |].
  cbn [first_occurrences In]. intros [-> | Hin]; [now left |].
  apply filter_In in Hin. right. apply IH, Hin.
Qed.

Lemma first_occurrences_NoDup ks : List.NoDup (first_occurrences ks).
Proof.
  induction ks as [| k ks IH]; [constructor |].
  cbn [first_occurrences]. constructor.
  - intros Hin. apply filter_In in Hin. destruct Hin as [_ Hk].
    now rewrite bool_decide_eq_true_2 in Hk.
  - now apply List.NoDup_filter.
Qed.

(** ** Deduplication by title *)

Lemma uniqueNews_unfold newsItems :
  uniqueNews newsItems = map snd (fold_left step (map entry newsItems) []).
Proof. reflexivity. Qed.

Lemma entries_keyed newsItems :
  Forall (fun kv => fst kv = title (snd kv))
    (fold_left step (map entry newsItems) []).
Proof.
  apply Forall_fold; [| constructor].
  apply Forall_forall. intros kv Hin. apply list_elem_of_In, in_map_iff in Hin.
  destruct Hin as (item & <- & _). reflexivity.
Qed.

Lemma filter_all {A} (f : A -> bool) (l : list A) :
  (forall x, f x = true) -> List.filter f l = l.
Proof.
  intros H. induction l as [| a l IH]; [reflexivity |].
  cbn [List.filter]. now rewrite H, IH.
Qed.

Lemma uniqueNews_titles newsItems :
  map title (uniqueNews newsItems) = first_occurrences (map title newsItems).
Proof.
  rewrite uniqueNews_unfold, map_map.
  transitivity (JsMap.keys (fold_left step (map entry newsItems) [])).
  - unfold JsMap.keys. apply map_ext_in. intros kv Hin.
    pose proof (entries_keyed newsItems) as Hk.
    rewrite Forall_forall in Hk. symmetry. apply Hk. now apply list_elem_of_In.
  - rewrite keys_fold. cbn [JsMap.keys map app].
    rewrite filter_all.
    + unfold JsMap.keys. rewrite map_map. reflexivity.
    + intros x. apply negb_true_iff, bool_decide_eq_false_2, not_elem_of_nil.
Qed.

Lemma find_map {A B} (p : B -> bool) (f : A -> B) (l : list A) :
  List.find p (map f l) = f <$> List.find (fun x => p (f x)) l.
Proof.
  induction l as [| a l IH]; [reflexivity |].
  cbn [map List.find]. now destruct (p (f a)).
Qed.

Lemma last_entry_titled t newsItems :
  last_entry t (map entry newsItems) = last_titled t newsItems.
Proof.
  unfold last_entry, last_titled. rewrite <- map_rev, find_map.
  cbn [entry fst]. now destruct (List.find _ (rev newsItems)).
Qed.

Lemma last_titled_some item newsItems :
  In item newsItems -> exists r, last_titled (title item) newsItems = Some r.
Proof.
  intros Hin. unfold last_titled.
  destruct (List.find _ (rev newsItems)) as [r |] eqn:Hf; [now exists r |].
  apply find_none with (x := item) in Hf; [| now apply in_rev in Hin].
  now rewrite bool_decide_eq_true_2 in Hf.
Qed.

Lemma filter_map_snd {A B} (p : B -> bool) (l : list (A * B)) :
  List.filter p (map snd l) = map snd (List.filter (fun kv => p (snd kv)) l).
Proof.
  induction l as [| a l IH]; [reflexivity |].
  cbn [map List.filter]. destruct (p (snd a)); cbn [map]; now rewrite IH.
Qed.

Lemma uniqueNews_one_per_title item newsItems :
  In item newsItems ->
  exists r,
    last_titled (title item) newsItems = Some r
    /\ List.filter (fun x => bool_decide (title x = title item))
         (uniqueNews newsItems) = [r].
Proof.
  intros Hin. destruct (last_titled_some _ _ Hin) as [r Hr]. exists r.
  split; [exact Hr |].
  rewrite uniqueNews_unfold, filter_map_snd.
  set (m := fold_left step (map entry newsItems) []).
  assert (Hext : List.filter (fun kv => bool_decide (title (snd kv) = title item)) m
                 = List.filter (fun kv => bool_decide (fst kv = title item)) m).
  { apply filter_ext_in. intros kv Hkv.
    pose proof (entries_keyed newsItems) as Hk. rewrite Forall_forall in Hk.
    rewrite (Hk kv) by now apply list_elem_of_In. reflexivity. }
  rewrite Hext, (filter_of_get m (title item) r); [reflexivity | |].
  - subst m. rewrite keys_fold. cbn [JsMap.keys map app].
    apply List.NoDup_filter, first_occurrences_NoDup.
  - subst m. rewrite get_fold, last_entry_titled, Hr. reflexivity.
Qed.

(** ** The passes of parseNews always return *)

Section ParseReturns.
Context (E : Env) (this : NewsCrawler).

Lemma returns_each {A} (f : A -> node -> M A) els acc :
  (forall a el, returns (f a el)) -> returns (each f els acc).
Proof.
  intros Hf. revert acc.
  induction els as [| el els IH]; intros acc; cbn [each].
  - apply returns_ret.
  - apply returns_bind; [apply Hf | intros a; apply IH].
Qed.

Lemma returns_sina_card items el : returns (sina_card E this items el).
Proof.
  apply returns_try_catch. intros e. apply returns_bind; auto with returns.
Qed.

Lemma returns_sina_hot items el : returns (sina_hot E this items el).
Proof.
  apply returns_try_catch. intros e. apply returns_bind; auto with returns.
Qed.

Lemma returns_netease_item items el : returns (netease_item E this items el).
Proof.
  apply returns_try_catch. intros e. apply returns_bind; auto with returns.
Qed.

Lemma returns_generic_anchor items el : returns (generic_anchor E this items el).
Proof.
  unfold generic_anchor. destruct (anchor_filter _ _).
  - apply returns_try_catch. auto with returns.
  - apply returns_ret.
Qed.

Lemma returns_specific_pass document : returns (specific_pass E this document).
Proof.
  unfold specific_pass.
  destruct (includes (url this) (js "sina.com.cn")).
  - apply returns_bind.
    + apply returns_each, returns_sina_card.
    + intros items. apply returns_each, returns_sina_hot.
  - destruct (includes (url this) (js "163.com")).
    + apply returns_each, returns_netease_item.
    + apply returns_ret.
Qed.

Lemma returns_generic_pass document items :
  returns (generic_pass E this document items).
Proof.
  unfold generic_pass. destruct (length items =? 0)%nat.
  - apply returns_each, returns_generic_anchor.
  - apply returns_ret.
Qed.

Lemma returns_collectNews document : returns (collectNews E this document).
Proof.
  apply returns_bind; [apply returns_specific_pass |].
  intros items. apply returns_generic_pass.
Qed.

Lemma parseNews_parsed html document w newsItems w1 :
  cheerio_parse E html = Ok document ->
  collectNews E this document (add_log Linfo (js "开始解析新闻内容") w)
  = (Ok newsItems, w1) ->
  parseNews E this html w
  = (Ok (uniqueNews newsItems),
     add_log Linfo
       (js "成功解析到 " ++ ofN (N.of_nat (length (uniqueNews newsItems)))
        ++ js " 条新闻") w1).
Proof.
  intros Hp Hc. unfold parseNews, try_catch.
  rewrite (bind_ok _ _ w tt (add_log Linfo (js "开始解析新闻内容") w))
    by reflexivity.
  rewrite (bind_ok _ _ _ document (add_log Linfo (js "开始解析新闻内容") w))
    by (unfold lift; now rewrite Hp).
  rewrite (bind_ok _ _ _ _ _ Hc). reflexivity.
Qed.

End ParseReturns.

(** C1. Deduplication in [parseNews]: for every accepted element (pushed
    record) the result holds exactly one record with its title, namely the
    one pushed last with that title, so link, summary, crawl_time and source
    are those of the later element; and the titles of the result are the
    pushed titles in the order of their first occurrence. *)
Theorem parseNews_deduplicates E this html document w :
  cheerio_parse E html = Ok document ->
  exists newsItems w1 w2,
    collectNews E this document (add_log Linfo (js "开始解析新闻内容") w)
    = (Ok newsItems, w1)
    /\ parseNews E this html w = (Ok (uniqueNews newsItems), w2)
    /\ (forall item,
          In item newsItems ->
          exists r,
            last_titled (title item) newsItems = Some r
            /\ List.filter (fun x => bool_decide (title x = title item))
                 (uniqueNews newsItems) = [r])
    /\ map title (uniqueNews newsItems)
       = first_occurrences (map title newsItems).
Proof.
  intros Hp.
  destruct (returns_collectNews E this document
              (add_log Linfo (js "开始解析新闻内容") w)) as (items & w1 & Hc).
  exists items, w1. eexists. split; [exact Hc |]. split.
  - exact (parseNews_parsed E this html document w items w1 Hp Hc).
  - split.
    + intros item Hin. now apply uniqueNews_one_per_title.
    + apply uniqueNews_titles.
Qed.

Lemma parseNews_deduplicates_witness :
  exists newsItems w1 w2,
    collectNews Fixture.env (new_NewsCrawler Fixture.qq) Fixture.qq_page
      (add_log Linfo (js "开始解析新闻内容") Fixture.world0)
    = (Ok newsItems, w1)
    /\ parseNews Fixture.env (new_NewsCrawler Fixture.qq) (js "<qq>")
         Fixture.world0 = (Ok (uniqueNews newsItems), w2)
    /\ (forall item,
          In item newsItems ->
          exists r,
            last_titled (title item) newsItems = Some r
            /\ List.filter (fun x => bool_decide (title x = title item))
                 (uniqueNews newsItems) = [r])
    /\ map title (uniqueNews newsItems)
       = first_occurrences (map title newsItems).
Proof.
  apply (parseNews_deduplicates Fixture.env (new_NewsCrawler Fixture.qq)
           (js "<qq>") Fixture.qq_page Fixture.world0).
  reflexivity.
Defined.

(** The fixture page: the two anchors titled alike give one record, at the
    place of the first and with the link and time of the second. *)
Example parseNews_qq_page :
  fst (parseNews Fixture.env (new_NewsCrawler Fixture.qq) (js "<qq>")
         Fixture.world0)
  = Ok [{| title := js "Breaking news of the day";
           link := js "https://news.qq.com/a/2";
           summary := generic_summary;
           crawl_time := js "2025-01-05T08:00:02.000Z";
           source := js "news.qq.com" |};
        {| title := js "Click here to open the menu";
           link := js "javascript:void(0)";
           summary := generic_summary;
           crawl_time := js "2025-01-05T08:00:01.000Z";
           source := js "news.qq.com" |}].
Proof. vm_compute. reflexivity. Qed.

(** ** Which pass a record comes from *)

Lemma each_pushes P f :
  pushes P f ->
  forall els items w items' w',
    each f els items w = (Ok items', w') ->
    exists added, items' = items ++ added /\ Forall P added.
Proof.
  intros Hf els. induction els as [| el els IH]; intros items w items' w' H.
  - injection H as <- <-. exists []. now rewrite app_nil_r.
  - cbn [each] in H. unfold bind in H.
    destruct (f items el w) as [[a | e] w1] eqn:Hel; [| discriminate].
    destruct (IH _ _ _ _ H) as (added & -> & Hadd).
    destruct (Hf _ _ _ _ _ Hel) as [-> | (r & -> & Hr)].
    + now exists added.
    + exists (r :: added). rewrite <- app_assoc. split; [reflexivity |].
      now constructor.
Qed.

Ltac callback_pushes :=
  let H := fresh "H" in
  intros ? ? ? ? ? H;
  unfold try_catch, bind in H;
  destruct (title_and_link _ _) as [h |];
  [ rewrite fullLink_pure in H;
    destruct (fst (fullLink _ _ h _)) as [full | e];
    [ injection H as <- <-; right; eexists; split; [reflexivity |]
    | injection H as <- <-; now left ]
  | injection H as <- <-; now left ].

Section Provenance.
Context (E : Env) (this : NewsCrawler).

Lemma sina_card_pushes :
  pushes (fun r => summary r = js "热门新闻") (sina_card E this).
Proof. unfold sina_card. callback_pushes. reflexivity. Qed.

Lemma sina_hot_pushes :
  pushes (fun r => summary r = js "热榜新闻，无摘要") (sina_hot E this).
Proof. unfold sina_hot. callback_pushes. reflexivity. Qed.

Lemma netease_item_pushes :
  pushes (fun r => summary r = js "网易新闻，无摘要") (netease_item E this).
Proof. unfold netease_item. callback_pushes. reflexivity. Qed.

Lemma generic_anchor_pushes :
  pushes (fun r => summary r = generic_summary) (generic_anchor E this).
Proof.
  intros items el w items' w' H. unfold generic_anchor in H.
  destruct (anchor_filter _ _) as [h |]; [| injection H as <- <-; now left].
  unfold try_catch, bind in H. rewrite fullLink_pure in H.
  destruct (fst (fullLink E this h w)) as [full | e];
    [| injection H as <- <-; now left].
  unfold new_Date, lift in H.
  destruct (URL_hostname E (url this)) as [host | e];
    injection H as <- <-; [right; eexists; split; reflexivity | now left].
Qed.

Lemma pushes_weaken (P Q : NewsRecord -> Prop) f :
  (forall r, P r -> Q r) -> pushes P f -> pushes Q f.
Proof.
  intros HPQ Hf items el w items' w' H.
  destruct (Hf _ _ _ _ _ H) as [-> | (r & -> & Hr)]; [now left |].
  right. exists r. auto.
Qed.

(** No site-specific pass pushes a record that carries the placeholder of
    the generic pass. *)
Lemma specific_pass_summaries document w specific w1 :
  specific_pass E this document w = (Ok specific, w1) ->
  Forall (fun r => summary r <> generic_summary) specific.
Proof.
  unfold specific_pass.
  destruct (includes (url this) (js "sina.com.cn")).
  - unfold bind. intros H.
    destruct (each (sina_card E this) _ [] w) as [[items | e] w0] eqn:H1;
      [| discriminate].
    apply (each_pushes (fun r => summary r <> generic_summary)) in H1;
      [| eapply pushes_weaken; [| apply sina_card_pushes];
         intros r ->; vm_compute; discriminate].
    apply (each_pushes (fun r => summary r <> generic_summary)) in H;
      [| eapply pushes_weaken; [| apply sina_hot_pushes];
         intros r ->; vm_compute; discriminate].
    destruct H1 as (a1 & -> & Ha1). destruct H as (a2 & -> & Ha2).
    cbn [app]. apply Forall_app. now split.
  - destruct (includes (url this) (js "163.com")).
    + intros H.
      apply (each_pushes (fun r => summary r <> generic_summary)) in H;
        [| eapply pushes_weaken; [| apply netease_item_pushes];
           intros r ->; vm_compute; discriminate].
      now destruct H as (a & -> & Ha).
    + intros [= <- <-]. constructor.
Qed.

End Provenance.

Lemma uniqueNews_incl newsItems r :
  In r (uniqueNews newsItems) -> In r newsItems.
Proof.
  rewrite uniqueNews_unfold. intros Hin. apply in_map_iff in Hin.
  destruct Hin as (kv & <- & Hkv).
  assert (H : Forall (fun kv => In (snd kv) newsItems)
                (fold_left step (map entry newsItems) [])).
  { apply Forall_fold; [| constructor].
    apply Forall_forall. intros e He. apply list_elem_of_In, in_map_iff in He.
    now destruct He as (item & <- & Hitem). }
  rewrite Forall_forall in H. apply H. now apply list_elem_of_In.
Qed.

(** C2. The generic pass is gated on the site-specific result.  When the
    site-specific branches pushed at least one record, [parseNews] returns
    those records deduplicated, its world is the one the specific pass left
    plus the closing log line (no anchor was visited), and no record of the
    result carries the generic placeholder summary.  When they pushed
    nothing, the result is what the callback of the generic pass, run over
    every anchor, pushed. *)
Theorem generic_pass_gate E this html document w :
  cheerio_parse E html = Ok document ->
  exists specific w1,
    specific_pass E this document (add_log Linfo (js "开始解析新闻内容") w)
    = (Ok specific, w1)
    /\ (specific <> [] ->
        parseNews E this html w
        = (Ok (uniqueNews specific),
           add_log Linfo
             (js "成功解析到 " ++ ofN (N.of_nat (length (uniqueNews specific)))
              ++ js " 条新闻") w1)
        /\ forall r, In r (uniqueNews specific) -> summary r <> generic_summary)
    /\ (specific = [] ->
        exists generic w2,
          each (generic_anchor E this) (select [Simple (Tag (js "a"))] document)
            [] w1 = (Ok generic, w2)
          /\ parseNews E this html w
             = (Ok (uniqueNews generic),
                add_log Linfo
                  (js "成功解析到 "
                   ++ ofN (N.of_nat (length (uniqueNews generic)))
                   ++ js " 条新闻") w2)
          /\ forall r, In r (uniqueNews generic) -> summary r = generic_summary).
Proof.
  intros Hp.
  destruct (returns_specific_pass E this document
              (add_log Linfo (js "开始解析新闻内容") w)) as (specific & w1 & Hs).
  exists specific, w1. split; [exact Hs |]. split.
  - intros Hne. split.
    + apply parseNews_parsed with (document := document); [exact Hp |].
      unfold collectNews. rewrite (bind_ok _ _ _ _ _ Hs). unfold generic_pass.
      destruct specific; [contradiction | reflexivity].
    + intros r Hr. apply uniqueNews_incl in Hr.
      pose proof (specific_pass_summaries E this _ _ _ _ Hs) as Hall.
      rewrite Forall_forall in Hall. apply Hall. now apply list_elem_of_In.
  - intros ->.
    destruct (returns_each (generic_anchor E this)
                (select [Simple (Tag (js "a"))] document) []
                (returns_generic_anchor E this) w1) as (generic & w2 & Hg).
    exists generic, w2. split; [exact Hg |]. split.
    + apply parseNews_parsed with (document := document); [exact Hp |].
      unfold collectNews. rewrite (bind_ok _ _ _ _ _ Hs). exact Hg.
    + intros r Hr. apply uniqueNews_incl in Hr.
      apply (each_pushes _ _ (generic_anchor_pushes E this)) in Hg.
      destruct Hg as (added & -> & Hall). cbn [app] in Hr.
      rewrite Forall_forall in Hall. apply Hall. now apply list_elem_of_In.
Qed.

Lemma generic_pass_gate_witness :
  exists specific w1,
    specific_pass Fixture.env (new_NewsCrawler Fixture.sina) Fixture.sina_page
      (add_log Linfo (js "开始解析新闻内容") Fixture.world0)
    = (Ok specific, w1)
    /\ specific <> [].
Proof.
  destruct (generic_pass_gate Fixture.env (new_NewsCrawler Fixture.sina)
              (js "<sina>") Fixture.sina_page Fixture.world0 eq_refl)
    as (specific & w1 & Hs & _).
  exists specific, w1. split; [exact Hs |].
  intros ->. vm_compute in Hs. discriminate Hs.
Defined.

(** The Sina fixture: the card is found, so the anchor that only the generic
    pass would accept does not appear. *)
Example parseNews_sina_page :
  fst (parseNews Fixture.env (new_NewsCrawler Fixture.sina) (js "<sina>")
         Fixture.world0)
  = Ok [{| title := js "Featured story";
           link := js "https://news.sina.com.cn/f/1";
           summary := js "热门新闻";
           crawl_time := js "2025-01-05T08:00:00.000Z";
           source := js "新浪新闻" |}].
Proof. vm_compute. reflexivity. Qed.

(** ** Following the world through the program *)

Section Steps.
Context (R : World -> World -> Prop) `{!Frame R}.

Lemma steps_ret {A} (a : A) : steps R (ret a).
Proof. intros w. apply frame_refl. Qed.

Lemma steps_throw {A} e : steps R (@throw A e).
Proof. intros w. apply frame_refl. Qed.

Lemma steps_lift {A} (r : result A) : steps R (lift r).
Proof. intros w. apply frame_refl. Qed.

Lemma steps_logger l msg : steps R (logger l msg).
Proof.
  intros w. unfold logger.
  destruct (severity l <=? severity logger_level)%nat;
    [apply frame_log | apply frame_refl].
Qed.

Lemma steps_bind {A B} (m : M A) (k : A -> M B) :
  steps R m -> (forall a, steps R (k a)) -> steps R (bind m k).
Proof.
  intros Hm Hk w. specialize (Hm w). unfold bind.
  destruct (m w) as [[a | e] w1]; cbn [snd] in *; [| exact Hm].
  eapply frame_trans; [exact Hm | apply Hk].
Qed.

Lemma steps_bind_ret {A B} (a : A) (k : A -> M B) :
  steps R (k a) -> steps R (bind (ret a) k).
Proof. intros H w. exact (H w). Qed.

Lemma steps_bind_assoc {A B C} (m : M A) (f : A -> M B) (k : B -> M C) :
  steps R (bind m (fun x => bind (f x) k)) -> steps R (bind (bind m f) k).
Proof.
  intros H w. specialize (H w). unfold bind in *.
  destruct (m w) as [[a | e] w1]; exact H.
Qed.

Lemma steps_try_catch {A} (body : M A) handler :
  steps R body -> (forall e, steps R (handler e)) ->
  steps R (try_catch body handler).
Proof.
  intros Hb Hh w. specialize (Hb w). unfold try_catch.
  destruct (body w) as [[a | e] w1]; cbn [snd] in *; [exact Hb |].
  eapply frame_trans; [exact Hb | apply Hh].
Qed.

Lemma steps_each {A} (f : A -> node -> M A) els acc :
  (forall a el, steps R (f a el)) -> steps R (each f els acc).
Proof.
  intros Hf. revert acc. induction els as [| el els IH]; intros acc; cbn [each].
  - apply steps_ret.
  - apply steps_bind; [apply Hf | intros a; apply IH].
Qed.

Context (E : Env).

Lemma steps_new_Date : steps R (new_Date E).
Proof. intros w. apply frame_date. Qed.

Lemma steps_Math_random : steps R (Math_random E).
Proof. intros w. apply frame_draw. Qed.

Lemma steps_fullLink this h : steps R (fullLink E this h).
Proof.
  unfold fullLink. destruct (startsWith h (js "http"));
    [apply steps_ret | apply steps_lift].
Qed.

End Steps.

(** Walks through binds, handlers and branches, closing the silent leaves. *)
Ltac walk :=
  repeat first
    [ assumption
    | match goal with H : _ |- steps _ _ => solve [apply H] end
    | match goal with |- Frame _ => exact _ end
    | match goal with |- forall _, _ => intros ? end
    | apply steps_ret | apply steps_throw | apply steps_lift
    | apply steps_logger | apply steps_new_Date | apply steps_Math_random
    | apply steps_fullLink
    | match goal with
      | |- steps _ (bind (ret _) _) => apply steps_bind_ret
      | |- steps _ (bind (bind _ _) _) => apply steps_bind_assoc
      end
    | apply steps_bind
    | apply steps_try_catch
    | apply steps_each
    | match goal with
      | |- steps _ (match ?x with _ => _ end) => destruct x
      end ].

Section StepsProgram.
Context (R : World -> World -> Prop) `{!Frame R} (E : Env).

Lemma steps_parseNews this html : steps R (parseNews E this html).
Proof.
  unfold parseNews, collectNews, specific_pass, generic_pass,
    sina_card, sina_hot, netease_item, generic_anchor.
  walk.
Qed.

Lemma steps_fetchPage this :
  steps R (axios_get E (url this)) -> steps R (fetchPage E this).
Proof. intros Hget. unfold fetchPage. walk. Qed.

Lemma steps_saveToMarkdown (ok : jsstring -> Prop) this newsItems filename :
  (forall f c, ok f -> steps R (fs_writeFileSync E f c)) ->
  (forall d, ok (dated_md d)) ->
  (forall f, filename = Some f -> ok f) ->
  steps R (saveToMarkdown E this newsItems filename).
Proof.
  intros Hw Hd Hf. unfold saveToMarkdown.
  destruct newsItems as [[| item items] |]; [walk | | walk].
  destruct filename as [[| c f] |]; cbn [truthy default]; walk.
  - apply Hw, Hd.
  - apply Hw, Hf. reflexivity.
  - apply Hw, Hd.
Qed.

Lemma steps_commitToGitHub filePath :
  steps R (git_status E) ->
  (forall p, steps R (git_add E p)) ->
  (forall m, steps R (git_commit E m)) ->
  (forall r b, steps R (git_push E r b)) ->
  steps R (commitToGitHub E filePath).
Proof. intros Hs Ha Hc Hp. unfold commitToGitHub. walk; auto. Qed.

End StepsProgram.

Section StepsOrchestrator.
Context (R : World -> World -> Prop) `{!Frame R} (E : Env).

Lemma steps_run (ok : jsstring -> Prop) this filename debug :
  steps R (axios_get E (url this)) ->
  (forall c, steps R (fs_writeFileSync E debug_html c)) ->
  (forall f c, ok f -> steps R (fs_writeFileSync E f c)) ->
  (forall d, ok (dated_md d)) ->
  (forall f, filename = Some f -> ok f) ->
  steps R (run E this filename debug).
Proof.
  intros Hget Hdbg Hw Hd Hf. unfold run.
  pose proof (steps_fetchPage R E this Hget) as Hfetch.
  pose proof (fun html => steps_parseNews R E this html) as Hparse.
  pose proof (fun items => steps_saveToMarkdown R E ok this items filename
                             Hw Hd Hf) as Hsave.
  destruct (default true debug); walk.
Qed.

Lemma steps_publish allNews :
  (forall f c, steps R (fs_writeFileSync E f c)) ->
  steps R (git_status E) ->
  (forall p, steps R (git_add E p)) ->
  (forall m, steps R (git_commit E m)) ->
  (forall r b, steps R (git_push E r b)) ->
  steps R (publish E allNews).
Proof.
  intros Hw Hs Ha Hc Hp. unfold publish.
  pose proof (fun this items f =>
                steps_saveToMarkdown R E (fun _ => True) this items f
                  (fun f c _ => Hw f c) (fun _ => I) (fun _ _ => I)) as Hsave.
  pose proof (fun p => steps_commitToGitHub R E p Hs Ha Hc Hp) as Hcommit.
  walk.
Qed.

End StepsOrchestrator.

(** ** Traces *)

#[local] Instance extends_frame S `{!Monoidal S} : Frame (extends S).
Proof.
  split.
  - intros w. exists []. rewrite app_nil_r. split; [reflexivity | apply monoidal_nil].
  - intros w1 w2 w3 (t1 & H1 & S1) (t2 & H2 & S2). exists (t1 ++ t2).
    rewrite H2, H1, app_assoc. split; [reflexivity | now apply monoidal_app].
  - intros l msg w. exists []. cbn. rewrite app_nil_r.
    split; [reflexivity | apply monoidal_nil].
  - intros w. exists []. cbn. rewrite app_nil_r.
    split; [reflexivity | apply monoidal_nil].
  - intros w. exists []. cbn. rewrite app_nil_r.
    split; [reflexivity | apply monoidal_nil].
Qed.

Section Events.
Context (S : list event -> Prop) `{!Monoidal S} (E : Env).

Lemma extends_axios_get u :
  (forall o, S [HttpGet u o]) -> steps (extends S) (axios_get E u).
Proof. intros H w. eexists. split; [reflexivity | apply H]. Qed.

Lemma extends_writeFileSync p c :
  (forall o, S [WriteFile p c o]) -> steps (extends S) (fs_writeFileSync E p c).
Proof.
  intros H w. exists [WriteFile p c (fs_write_reply E (trace w) p c)].
  split; [| apply H].
  unfold fs_writeFileSync. cbn [snd].
  destruct (fs_write_reply E (trace w) p c); [reflexivity |].
  destruct (fs_write_left E (trace w) p c); reflexivity.
Qed.

Lemma extends_git_status :
  (forall o, S [GitStatus o]) -> steps (extends S) (git_status E).
Proof. intros H w. eexists. split; [reflexivity | apply H]. Qed.

Lemma extends_git_add p :
  (forall o, S [GitAdd p o]) -> steps (extends S) (git_add E p).
Proof. intros H w. eexists. split; [reflexivity | apply H]. Qed.

Lemma extends_git_commit m :
  (forall o, S [GitCommit m o]) -> steps (extends S) (git_commit E m).
Proof. intros H w. eexists. split; [reflexivity | apply H]. Qed.

Lemma extends_git_push r b :
  (forall o, S [GitPush r b o]) -> steps (extends S) (git_push E r b).
Proof. intros H w. eexists. split; [reflexivity | apply H]. Qed.

End Events.

(** ** Rounding to binary64 *)

Section NumberFacts.
Local Open Scope Q_scope.

Lemma Qdiv_le_div a b c d :
  0 < b -> 0 < d -> a * d <= c * b -> a / b <= c / d.
Proof.
  intros Hb Hd H. apply Qle_shift_div_r; [exact Hb |].
  assert (E : c / d * b == c * b / d)
    by (field; intros E; rewrite E in Hd; discriminate Hd).
  rewrite E.
  now apply Qle_shift_div_l.
Qed.

Lemma Qdiv_lt_div a b c d :
  0 < b -> 0 < d -> a * d < c * b -> a / b < c / d.
Proof.
  intros Hb Hd H. apply Qlt_shift_div_r; [exact Hb |].
  assert (E : c / d * b == c * b / d)
    by (field; intros E; rewrite E in Hd; discriminate Hd).
  rewrite E.
  now apply Qlt_shift_div_l.
Qed.

Lemma ilog2_spec x : 0 < x -> 2 ^ Number.ilog2 x <= x /\ x < 2 ^ (Number.ilog2 x + 1).
Proof.
  intros Hx. destruct x as [n d]. unfold Number.ilog2. cbn [Qnum Qden].
  assert (Hn : (0 < n)%Z) by (unfold Qlt in Hx; cbn in Hx; lia).
  pose proof (Z.log2_spec n Hn) as [Hn1 Hn2].
  pose proof (Z.log2_spec (Zpos d) (Pos2Z.is_pos d)) as [Hd1 Hd2].
  pose proof (Z.log2_nonneg n) as Ha. pose proof (Z.log2_nonneg (Zpos d)) as Hb.
  set (a := Z.log2 n) in *. set (b := Z.log2 (Zpos d)) in *.
  assert (H2 : ~ 2 == 0) by (intros H; discriminate H).
  assert (Hqa : 2 ^ a == inject_Z (2 ^ a)) by (now rewrite Zpower_Qpower).
  assert (Hqb : 2 ^ b == inject_Z (2 ^ b)) by (now rewrite Zpower_Qpower).
  assert (Hqa1 : 2 ^ (a + 1) == inject_Z (2 ^ (a + 1)))
    by (rewrite Zpower_Qpower; [reflexivity | lia]).
  assert (Hqb1 : 2 ^ (b + 1) == inject_Z (2 ^ (b + 1)))
    by (rewrite Zpower_Qpower; [reflexivity | lia]).
  assert (Hx' : n # d == inject_Z n / inject_Z (Zpos d)) by apply Qmake_Qdiv.
  assert (Hdpos : 0 < inject_Z (Zpos d)) by (unfold Qlt; cbn; lia).
  assert (Hbpos : 0 < 2 ^ b) by (apply Qpower_0_lt; reflexivity).
  assert (Hb1pos : 0 < 2 ^ (b + 1)) by (apply Qpower_0_lt; reflexivity).
  destruct (Qle_bool (2 ^ (a - b)) (n # d)) eqn:Hle.
  - apply Qle_bool_iff in Hle. split; [exact Hle |].
    replace (a - b + 1)%Z with (a + 1 - b)%Z by lia.
    rewrite Qpower_minus by exact H2. rewrite Hx'.
    apply Qdiv_lt_div; [exact Hdpos | exact Hbpos |].
    rewrite Hqa1, Hqb. rewrite <- !inject_Z_mult. rewrite <- Zlt_Qlt.
    replace (Z.succ a) with (a + 1)%Z in Hn2 by lia. nia.
  - assert (Hlt : n # d < 2 ^ (a - b)).
    { apply Qnot_le_lt. intros H. apply Qle_bool_iff in H. congruence. }
    replace (a - b - 1 + 1)%Z with (a - b)%Z by lia. split; [| exact Hlt].
    replace (a - b - 1)%Z with (a - (b + 1))%Z by lia.
    rewrite Qpower_minus by exact H2. rewrite Hx'.
    apply Qdiv_le_div; [exact Hb1pos | exact Hdpos |].
    rewrite Hqa, Hqb1. rewrite <- !inject_Z_mult. rewrite <- Zle_Qle.
    replace (Z.succ b) with (b + 1)%Z in Hd2 by lia. nia.
Qed.

Lemma nearest_even_floor x :
  (Qfloor x <= Number.nearest_even x <= Qfloor x + 1)%Z
  /\ (x - inject_Z (Qfloor x) < 1 # 2 -> Number.nearest_even x = Qfloor x).
Proof.
  unfold Number.nearest_even.
  destruct (Qcompare_spec (x - inject_Z (Qfloor x)) (1 # 2)) as [H | H | H].
  - split; [destruct (Z.even (Qfloor x)); lia |].
    intros Hlt. rewrite H in Hlt. discriminate Hlt.
  - split; [lia | reflexivity].
  - split; [lia |]. intros Hlt. exfalso. apply (Qlt_irrefl (1 # 2)).
    now apply Qlt_trans with (x - inject_Z (Qfloor x)).
Qed.

Lemma nearest_even_ge x n : inject_Z n <= x -> (n <= Number.nearest_even x)%Z.
Proof.
  intros H. apply Qfloor_resp_le in H. rewrite Qfloor_Z in H.
  pose proof (proj1 (nearest_even_floor x)). lia.
Qed.

Lemma nearest_even_le x n : x <= inject_Z n -> (Number.nearest_even x <= n)%Z.
Proof.
  intros H. pose proof (nearest_even_floor x) as [[_ Hup] Hlow].
  pose proof (Qfloor_le x) as Hf.
  destruct (Qlt_le_dec (x - inject_Z (Qfloor x)) (1 # 2)) as [Hlt | Hge].
  - rewrite (Hlow Hlt). rewrite Zle_Qle. now apply Qle_trans with x.
  - assert (Hs : inject_Z (Qfloor x) < inject_Z n) by lra.
    rewrite <- Zlt_Qlt in Hs. lia.
Qed.

Lemma nearest_even_below_half x n :
  x < inject_Z n - (1 # 2) -> (Number.nearest_even x <= n - 1)%Z.
Proof.
  intros H. pose proof (nearest_even_floor x) as [[_ Hup] Hlow].
  pose proof (Qfloor_le x) as Hf.
  destruct (Qlt_le_dec (x - inject_Z (Qfloor x)) (1 # 2)) as [Hlt | Hge].
  - rewrite (Hlow Hlt).
    assert (Hs : inject_Z (Qfloor x) < inject_Z n) by lra.
    rewrite <- Zlt_Qlt in Hs. lia.
  - assert (Hs : inject_Z (Qfloor x) + 1 < inject_Z n) by lra.
    change 1 with (inject_Z 1) in Hs.
    rewrite <- inject_Z_plus in Hs. rewrite <- Zlt_Qlt in Hs. lia.
Qed.

Lemma spacing_pos x : 0 < spacing x.
Proof. apply Qpower_0_lt. reflexivity. Qed.

Lemma round64_pos x :
  0 < x ->
  Number.round64 x == inject_Z (Number.nearest_even (x / spacing x)) * spacing x.
Proof.
  intros Hx. unfold Number.round64.
  destruct (Qeq_bool x 0) eqn:H0.
  - apply Qeq_bool_iff in H0. rewrite H0 in Hx. discriminate Hx.
  - cbv zeta. rewrite Qred_correct. reflexivity.
Qed.

Lemma round64_between x a b :
  0 < x ->
  inject_Z a * spacing x <= x -> x <= inject_Z b * spacing x ->
  inject_Z a * spacing x <= Number.round64 x
  /\ Number.round64 x <= inject_Z b * spacing x.
Proof.
  intros Hx Ha Hb. rewrite (round64_pos x Hx).
  pose proof (spacing_pos x) as Hu.
  assert (Hlo : (a <= Number.nearest_even (x / spacing x))%Z)
    by (apply nearest_even_ge; now apply Qle_shift_div_l).
  assert (Hhi : (Number.nearest_even (x / spacing x) <= b)%Z)
    by (apply nearest_even_le; now apply Qle_shift_div_r).
  rewrite Zle_Qle in Hlo, Hhi.
  split; apply Qmult_le_compat_r; try assumption; now apply Qlt_le_weak.
Qed.

Lemma Qabs_of_pos x : 0 < x -> Qabs x == x.
Proof. intros H. apply Qabs_pos. now apply Qlt_le_weak. Qed.

Lemma exponent_spec x :
  0 < x ->
  2 ^ Number.ilog2 (Qabs x) <= x /\ x < 2 ^ (Number.ilog2 (Qabs x) + 1).
Proof.
  intros Hx. pose proof (Qabs_of_pos x Hx) as Ha.
  assert (Hp : 0 < Qabs x) by (now rewrite Ha).
  destruct (ilog2_spec (Qabs x) Hp) as [H1 H2]. split.
  - apply Qle_trans with (Qabs x); [exact H1 | rewrite Ha; apply Qle_refl].
  - apply Qle_lt_trans with (Qabs x); [rewrite Ha; apply Qle_refl | exact H2].
Qed.

Lemma exponent_le x hi :
  0 < x -> x < 2 ^ (hi + 1) -> (Number.ilog2 (Qabs x) <= hi)%Z.
Proof.
  intros Hx Hhi. destruct (exponent_spec x Hx) as [H1 _].
  assert (Hb : 2 ^ Number.ilog2 (Qabs x) < 2 ^ (hi + 1))
    by (now apply Qle_lt_trans with x).
  apply Qpower_lt_compat_l_inv in Hb; [lia | reflexivity].
Qed.

Lemma exponent_ge x lo :
  0 < x -> 2 ^ lo <= x -> (lo <= Number.ilog2 (Qabs x))%Z.
Proof.
  intros Hx Hlo. destruct (exponent_spec x Hx) as [_ H2].
  assert (Ha : 2 ^ lo < 2 ^ (Number.ilog2 (Qabs x) + 1))
    by (now apply Qle_lt_trans with x).
  apply Qpower_lt_compat_l_inv in Ha; [lia | reflexivity].
Qed.

Lemma pow2_split e : inject_Z (2 ^ 53) * 2 ^ (e - 52) == 2 ^ (e + 1).
Proof.
  rewrite Zpower_Qpower by lia.
  rewrite <- Qpower_plus by (intros H; discriminate H).
  replace (53 + (e - 52))%Z with (e + 1)%Z by lia. reflexivity.
Qed.

Lemma mul_5000_range r :
  0 <= r -> r <= 1 - (1 # 9007199254740992) ->
  0 <= Number.mul r 5000
  /\ Number.mul r 5000 <= 5000 - (1 # 1099511627776).
Proof.
  intros H0 H1. unfold Number.mul.
  assert (Hy0 : 0 <= r * 5000) by lra.
  assert (Hy1 : r * 5000 <= 5000 - (5000 # 9007199254740992)) by lra.
  set (y := r * 5000) in *.
  destruct (Qeq_bool y 0) eqn:Hz.
  - unfold Number.round64. rewrite Hz. split; [apply Qle_refl | easy].
  - assert (Hy : 0 < y).
    { apply Qle_lt_or_eq in Hy0. destruct Hy0 as [H | H]; [exact H |].
      symmetry in H. apply Qeq_bool_iff in H. congruence. }
    assert (Hk : (Number.ilog2 (Qabs y) <= 12)%Z).
    { apply (exponent_le y 12 Hy).
      assert (E : 2 ^ (12 + 1) == 8192) by reflexivity. rewrite E. lra. }
    destruct (Z_le_gt_dec (Number.ilog2 (Qabs y)) 11%Z) as [Hlow | Hhigh].
    + destruct (round64_between y 0 (2 ^ 53) Hy) as [Ha Hb].
      * rewrite Qmult_0_l. exact Hy0.
      * unfold spacing. rewrite pow2_split. apply Qlt_le_weak.
        apply Qlt_le_trans with (2 ^ (Number.ilog2 (Qabs y) + 1));
          [apply (exponent_spec y Hy) |].
        apply Qpower_le_compat_l; [lia | easy].
      * rewrite Qmult_0_l in Ha. split; [exact Ha |].
        apply Qle_trans with (1 := Hb). unfold spacing. rewrite pow2_split.
        apply Qle_trans with (2 ^ 12);
          [apply Qpower_le_compat_l; [lia | easy] | easy].
    + assert (Hu : spacing y == 1 # 1099511627776).
      { unfold spacing. replace (Number.ilog2 (Qabs y)) with 12%Z by lia.
        reflexivity. }
      rewrite (round64_pos y Hy).
      assert (Hq : y / spacing y == y * 1099511627776) by (rewrite Hu; field).
      assert (Hge : (0 <= Number.nearest_even (y / spacing y))%Z).
      { apply nearest_even_ge. rewrite Hq. change (inject_Z 0) with 0. lra. }
      assert (Hle : (Number.nearest_even (y / spacing y)
                     <= 5497558138880000 - 1)%Z).
      { apply nearest_even_below_half. rewrite Hq.
        change (inject_Z 5497558138880000) with 5497558138880000. lra. }
      rewrite Zle_Qle in Hge, Hle.
      change (inject_Z 0) with 0 in Hge.
      change (inject_Z (5497558138880000 - 1)) with 5497558138879999 in Hle.
      set (n := inject_Z (Number.nearest_even (y / spacing y))) in *.
      rewrite Hu. split; lra.
Qed.

Lemma add_3000_range z :
  0 <= z -> z <= 5000 - (1 # 1099511627776) ->
  3000 <= Number.add 3000 z
  /\ Number.add 3000 z <= 8000 - (1 # 1099511627776).
Proof.
  intros H0 H1. unfold Number.add.
  set (x := 3000 + z) in *.
  assert (Hx0 : 3000 <= x) by (unfold x; lra).
  assert (Hx1 : x <= 8000 - (1 # 1099511627776)) by (unfold x; lra).
  assert (Hx : 0 < x) by lra.
  assert (Hlo : (11 <= Number.ilog2 (Qabs x))%Z).
  { apply (exponent_ge x 11 Hx).
    assert (E : 2 ^ 11 == 2048) by reflexivity. rewrite E. lra. }
  assert (Hhi : (Number.ilog2 (Qabs x) <= 12)%Z).
  { apply (exponent_le x 12 Hx).
    assert (E : 2 ^ (12 + 1) == 8192) by reflexivity. rewrite E. lra. }
  destruct (Z.eq_dec (Number.ilog2 (Qabs x)) 11%Z) as [Hk | Hk].
  - assert (Hu : spacing x == 1 # 2199023255552)
      by (unfold spacing; rewrite Hk; reflexivity).
    destruct (round64_between x 6597069766656000 17592186044415998 Hx)
      as [Ha Hb].
    + rewrite Hu. change (inject_Z 6597069766656000) with 6597069766656000.
      lra.
    + rewrite Hu. change (inject_Z 17592186044415998) with 17592186044415998.
      lra.
    + rewrite Hu in Ha, Hb.
      change (inject_Z 6597069766656000) with 6597069766656000 in Ha.
      change (inject_Z 17592186044415998) with 17592186044415998 in Hb.
      split; lra.
  - assert (Hu : spacing x == 1 # 1099511627776).
    { unfold spacing. replace (Number.ilog2 (Qabs x)) with 12%Z by lia.
      reflexivity. }
    destruct (round64_between x 3298534883328000 8796093022207999 Hx)
      as [Ha Hb].
    + rewrite Hu. change (inject_Z 3298534883328000) with 3298534883328000.
      lra.
    + rewrite Hu. change (inject_Z 8796093022207999) with 8796093022207999.
      lra.
    + rewrite Hu in Ha, Hb.
      change (inject_Z 3298534883328000) with 3298534883328000 in Ha.
      change (inject_Z 8796093022207999) with 8796093022207999 in Hb.
      split; lra.
Qed.

Lemma of_bits_range bits :
  0 <= Number.of_bits bits
  /\ Number.of_bits bits <= 1 - (1 # 9007199254740992).
Proof.
  unfold Number.of_bits.
  assert (H : (bits mod 2 ^ 53 < 2 ^ 53)%N) by (apply N.mod_lt; discriminate).
  change (2 ^ 53)%N with 9007199254740992%N in *.
  change (2 ^ 53)%positive with 9007199254740992%positive.
  set (m := (bits mod 9007199254740992)%N) in *.
  split; unfold Qle, Qminus, Qplus, Qopp; cbn [Qnum Qden]; lia.
Qed.

(** Whatever the bits drawn, [3000 + Math.random() * 5000] lies in
    [3000, 8000). *)
Lemma sleepTime_range bits :
  3000 <= Number.add 3000 (Number.mul (Number.of_bits bits) 5000)
  /\ Number.add 3000 (Number.mul (Number.of_bits bits) 5000) < 8000.
Proof.
  destruct (of_bits_range bits) as [H0 H1].
  destruct (mul_5000_range _ H0 H1) as [Hm0 Hm1].
  destruct (add_3000_range _ Hm0 Hm1) as [Ha0 Ha1].
  split; [exact Ha0 |]. apply Qle_lt_trans with (1 := Ha1). reflexivity.
Qed.

End NumberFacts.

(** ** Sleeping between targets *)

Lemma sleeps_app t1 t2 : sleeps (t1 ++ t2) = sleeps t1 ++ sleeps t2.
Proof. apply flat_map_app. Qed.

#[local] Instance no_sleep_monoidal : Monoidal (fun t => sleeps t = []).
Proof.
  split; [reflexivity |].
  intros t1 t2 H1 H2. now rewrite sleeps_app, H1, H2.
Qed.

Section Sleeping.
Context (E : Env).

Lemma run_no_sleep this filename debug :
  steps (extends (fun t => sleeps t = [])) (run E this filename debug).
Proof.
  apply (steps_run _ E (fun _ => True)); try easy.
  - apply extends_axios_get; easy.
  - intros c. apply extends_writeFileSync; easy.
  - intros f c _. apply extends_writeFileSync; easy.
Qed.

Lemma publish_no_sleep allNews :
  steps (extends (fun t => sleeps t = [])) (publish E allNews).
Proof.
  apply steps_publish; try exact _; intros.
  - apply extends_writeFileSync; easy.
  - apply extends_git_status; easy.
  - apply extends_git_add; easy.
  - apply extends_git_commit; easy.
  - apply extends_git_push; easy.
Qed.

Lemma returns_run this filename debug : returns (run E this filename debug).
Proof.
  apply returns_try_catch. intros e. apply returns_bind; auto with returns.
Qed.

(** One turn of the loop: [run] returns, its records are appended, and the
    turn ends with the sleep, whose duration comes from the next random
    number. *)
Lemma crawl_site_turn allNews site w :
  exists news w1,
    run E (new_NewsCrawler site) None None
      (add_log Linfo (js "开始爬取: " ++ site) w) = (Ok news, w1)
    /\ fst (crawl_site E allNews site w) = Ok (allNews ++ news)
    /\ trace (snd (crawl_site E allNews site w))
       = trace w1
         ++ [Sleep (Number.add 3000
                      (Number.mul (Number.of_bits (random_at E (draws w1)))
                         5000))].
Proof.
  destruct (returns_run (new_NewsCrawler site) None None
              (add_log Linfo (js "开始爬取: " ++ site) w)) as (news & w1 & Hr).
  exists news, w1. split; [exact Hr |].
  unfold crawl_site, try_catch.
  rewrite (bind_ok _ _ w tt (add_log Linfo (js "开始爬取: " ++ site) w))
    by reflexivity.
  rewrite (bind_ok _ _ _ _ _ Hr). split; reflexivity.
Qed.

Lemma crawl_sites_sleeps sites : forall allNews w,
  exists all' w1 t,
    crawl_sites E sites allNews w = (Ok all', w1)
    /\ trace w1 = trace w ++ t
    /\ length (sleeps t) = length sites
    /\ (sites <> [] -> exists t0 ms, t = t0 ++ [Sleep ms])
    /\ Forall (fun ms => 3000 <= ms /\ ms < 8000)%Q (sleeps t)
    /\ Forall (fun ms =>
                 exists k,
                   ms = Number.add 3000
                          (Number.mul (Number.of_bits (random_at E k)) 5000))
         (sleeps t).
Proof.
  induction sites as [| site sites IH]; intros allNews w.
  - exists allNews, w, []. rewrite app_nil_r.
    repeat split; try reflexivity; [congruence | constructor | constructor].
  - destruct (crawl_site_turn allNews site w) as (news & w1 & Hr & Hv & Ht).
    destruct (run_no_sleep (new_NewsCrawler site) None None
                (add_log Linfo (js "开始爬取: " ++ site) w))
      as (tr & Htr & Hns).
    rewrite Hr in Htr. cbn [snd trace add_log] in Htr.
    destruct (crawl_site E allNews site w) as [r2 w2] eqn:Hc.
    cbn [fst snd] in Hv, Ht. subst r2.
    destruct (IH (allNews ++ news) w2)
      as (all' & w3 & t & Hs & Htt & Hlen & Hend & Hb & Hf).
    set (ms1 := Number.add 3000
                  (Number.mul (Number.of_bits (random_at E (draws w1))) 5000))
      in *.
    exists all', w3, (tr ++ [Sleep ms1] ++ t).
    split; [| split; [| split; [| split; [| split]]]].
    + cbn [crawl_sites]. rewrite (bind_ok _ _ _ _ _ Hc). exact Hs.
    + rewrite Htt, Ht, Htr, <- !app_assoc. reflexivity.
    + rewrite !sleeps_app, Hns. cbn [app sleeps flat_map length].
      now rewrite Hlen.
    + intros _. destruct sites as [| s sites'].
      * cbn [crawl_sites] in Hs. injection Hs as <- <-.
        assert (t = []) as ->
            by (apply (List.app_inv_head (trace w2)); now rewrite app_nil_r).
        exists tr, ms1. reflexivity.
      * destruct Hend as (t0 & ms & ->); [discriminate |].
        exists (tr ++ [Sleep ms1] ++ t0), ms.
        now rewrite <- !app_assoc.
    + rewrite !sleeps_app, Hns. cbn [app sleeps flat_map].
      constructor; [| exact Hb]. apply sleepTime_range.
    + rewrite !sleeps_app, Hns. cbn [app sleeps flat_map].
      constructor; [| exact Hf]. now exists (draws w1).
Qed.

End Sleeping.

(** C3, as the code has it.  The sleep is the last step of every turn of
    the loop, the last target included: over a list of n targets the run
    sleeps exactly n times, the loop ends with a sleep, and each duration is
    3000 + r * 5000 ms for a random r drawn, computed in binary64, hence
    within [3000, 8000) whatever is drawn. *)
Theorem sleep_after_every_target E sites w :
  exists allNews w1 t,
    crawl_sites E sites [] w = (Ok allNews, w1)
    /\ trace w1 = trace w ++ t
    /\ length (sleeps t) = length sites
    /\ (sites <> [] -> exists t0 ms, t = t0 ++ [Sleep ms])
    /\ sleeps (trace (snd (main_on E sites w))) = sleeps (trace w) ++ sleeps t
    /\ Forall (fun ms => 3000 <= ms /\ ms < 8000)%Q (sleeps t)
    /\ Forall (fun ms =>
                 exists k,
                   ms = Number.add 3000
                          (Number.mul (Number.of_bits (random_at E k)) 5000))
         (sleeps t).
Proof.
  destruct (crawl_sites_sleeps E sites [] w)
    as (allNews & w1 & t & Hs & Ht & Hlen & Hend & Hb & Hf).
  exists allNews, w1, t. repeat (split; [assumption |]).
  split; [| split; [exact Hb | exact Hf]].
  unfold main_on. rewrite (bind_ok _ _ _ _ _ Hs).
  destruct (publish_no_sleep E allNews w1) as (tp & Htp & Hp).
  now rewrite Htp, Ht, !sleeps_app, Hp, app_nil_r.
Qed.

Lemma sleep_after_every_target_witness :
  exists allNews w1 t,
    crawl_sites Fixture.env [Fixture.qq] [] Fixture.world0 = (Ok allNews, w1)
    /\ trace w1 = trace Fixture.world0 ++ t
    /\ Forall (fun ms => 3000 <= ms /\ ms < 8000)%Q (sleeps t).
Proof.
  destruct (sleep_after_every_target Fixture.env [Fixture.qq] Fixture.world0)
    as (allNews & w1 & t & Hs & Ht & _ & _ & _ & Hb & _).
  exists allNews, w1, t. split; [exact Hs |]. split; [exact Ht |].
  exact Hb.
Defined.

(** The five targets of the program give five sleeps, not four. *)
Lemma five_targets_five_sleeps :
  length newsSites = 5%nat
  /\ length (sleeps (trace (snd (main Fixture.env Fixture.world0)))) = 5%nat
  /\ length (sleeps (trace (snd (main Fixture.env Fixture.world0))))
     <> (length newsSites - 1)%nat.
Proof. repeat split; vm_compute; try reflexivity; discriminate. Qed.

(** ** The debug dump of run *)

Lemma try_catch_bind {A B} (m : M A) (k : A -> M B) h w :
  try_catch (bind m k) h w
  = match m w with
    | (Ok a, w1) => try_catch (k a) h w1
    | (Throw e, w1) => h e w1
    end.
Proof. unfold try_catch, bind. now destruct (m w) as [[a | e] w1]. Qed.

#[local] Instance no_http_monoidal : Monoidal no_http.
Proof. split; [constructor |]. intros t1 t2 H1 H2. apply Forall_app. now split. Qed.

Lemma no_http_dumped t : no_http t -> debug_dumped t.
Proof.
  induction 1 as [| ev t Hev Ht IH]; [exact I |].
  destruct ev as [u [resp | e] | | | | | |]; cbn [debug_dumped];
    try exact IH.
  exfalso. apply Hev. exact I.
Qed.

#[local] Instance debug_dumped_monoidal : Monoidal debug_dumped.
Proof.
  split; [exact I |].
  intros t1 t2 H1 H2. induction t1 as [| ev t1 IH]; [exact H2 |].
  destruct ev as [u [resp | e] | | | | | |]; cbn [app debug_dumped] in *;
    try (now apply IH).
  destruct H1 as [[o Ho] H1]. split; [| now apply IH].
  exists o. destruct t1; [discriminate | exact Ho].
Qed.

#[local] Instance same_file_frame p : Frame (same_file p).
Proof.
  split; unfold same_file; try reflexivity.
  intros w1 w2 w3 H1 H2. now rewrite H2.
Qed.

Lemma dated_md_not_debug d : dated_md d <> debug_html.
Proof.
  unfold dated_md. intros H.
  apply (f_equal (fun s => List.last s 0)) in H.
  rewrite !app_assoc in H. change (js ".md") with ([46; 109] ++ [100]) in H.
  rewrite app_assoc, List.last_last in H. vm_compute in H. discriminate H.
Qed.

Lemma same_file_writeFileSync E p f c :
  f <> p -> steps (same_file p) (fs_writeFileSync E f c).
Proof.
  intros Hne w. unfold same_file, fs_writeFileSync. cbn [snd].
  destruct (fs_write_reply E (trace w) f c);
    [| destruct (fs_write_left E (trace w) f c)];
    cbn [files add_event put_file]; try reflexivity;
    now apply lookup_insert_ne.
Qed.

Lemma trace_left_by E p c w : trace (left_by E p c w) = trace w.
Proof. unfold left_by. now destruct (fs_write_left E (trace w) p c). Qed.

Lemma files_left_by E p c w f :
  f <> p -> files (left_by E p c w) !! f = files w !! f.
Proof.
  intros Hne. unfold left_by.
  destruct (fs_write_left E (trace w) p c); [| reflexivity].
  cbn [files put_file]. now apply lookup_insert_ne.
Qed.

Section DebugDump.
Context (E : Env).

(** [fetchPage] asks once; it returns the data of an answer and rethrows a
    failure, touching no file. *)
Lemma fetchPage_cases this w :
  let r := axios_reply E (trace w) (url this) in
  trace (snd (fetchPage E this w)) = trace w ++ [HttpGet (url this) r]
  /\ files (snd (fetchPage E this w)) = files w
  /\ fst (fetchPage E this w)
     = match r with Ok resp => Ok (data resp) | Throw e => Throw e end.
Proof.
  cbv zeta. unfold fetchPage, try_catch, bind, axios_get.
  cbn [logger severity logger_level Nat.leb].
  destruct (axios_reply E _ (url this)) as [resp | e];
    repeat split; reflexivity.
Qed.

(** What follows the dump in [run]: parsing and saving. *)
Lemma steps_after_dump (R : World -> World -> Prop) `{!Frame R}
    (ok : jsstring -> Prop) this filename html :
  (forall f c, ok f -> steps R (fs_writeFileSync E f c)) ->
  (forall d, ok (dated_md d)) ->
  (forall f, filename = Some f -> ok f) ->
  steps R
    (try_catch
       (newsItems <- parseNews E this html ;;
        (if (0 <? length newsItems)%nat
         then logger Linfo (js "成功解析到 " ++ ofN (N.of_nat (length newsItems))
                            ++ js " 条新闻") ;;
              saveToMarkdown E this (Some newsItems) filename ;;
              ret tt
         else logger Lwarn (js "从 " ++ url this ++ js " 没有解析到任何新闻")) ;;
        ret newsItems)
       (fun error =>
          logger Lerror (js "爬虫运行失败: " ++ message error) ;;
          ret [])).
Proof.
  intros Hw Hd Hf.
  pose proof (steps_parseNews R E this html) as Hparse.
  pose proof (fun items => steps_saveToMarkdown R E ok this items filename
                             Hw Hd Hf) as Hsave.
  walk.
Qed.

(** [run] with [debug] left out, unfolded up to the dump. *)
Lemma run_default_unfold this filename w :
  run E this filename None w
  = match fetchPage E this w with
    | (Ok html, w1) =>
      match fs_write_reply E (trace w1) debug_html html with
      | Ok _ =>
        try_catch
          (newsItems <- parseNews E this html ;;
           (if (0 <? length newsItems)%nat
            then logger Linfo (js "成功解析到 "
                               ++ ofN (N.of_nat (length newsItems))
                               ++ js " 条新闻") ;;
                 saveToMarkdown E this (Some newsItems) filename ;;
                 ret tt
            else logger Lwarn (js "从 " ++ url this
                               ++ js " 没有解析到任何新闻")) ;;
           ret newsItems)
          (fun error =>
             logger Lerror (js "爬虫运行失败: " ++ message error) ;;
             ret [])
          (add_event (WriteFile debug_html html (Ok tt))
             (put_file debug_html html w1))
      | Throw e =>
        (Ok [],
         add_log Lerror (js "爬虫运行失败: " ++ message e)
           (add_event (WriteFile debug_html html (Throw e))
              (left_by E debug_html html w1)))
      end
    | (Throw e, w1) =>
      (Ok [], add_log Lerror (js "爬虫运行失败: " ++ message e) w1)
    end.
Proof.
  unfold run. cbn [default]. rewrite try_catch_bind.
  destruct (fetchPage E this w) as [[html | e] w1]; [| reflexivity].
  rewrite try_catch_bind. unfold bind at 1. unfold fs_writeFileSync at 1.
  destruct (fs_write_reply E (trace w1) debug_html html) as [[] | e];
    reflexivity.
Qed.

Lemma run_debug_dumped this filename :
  steps (extends debug_dumped) (run E this filename None).
Proof.
  intros w. rewrite run_default_unfold.
  destruct (fetchPage_cases this w) as (Ht & _ & Hv). cbv zeta in *.
  destruct (fetchPage E this w) as [r w1]. cbn [fst snd] in *.
  destruct (axios_reply E (trace w) (url this)) as [resp | e]; subst r.
  - destruct (fs_write_reply E (trace w1) debug_html (data resp))
      as [[] | e] eqn:Hw.
    + match goal with
      | |- extends _ _ (snd (?m ?w2)) =>
        destruct (steps_after_dump (extends no_http) (fun _ => True) this
                    filename (data resp)
                    (fun f c _ => extends_writeFileSync no_http E f c
                                    (fun o => ltac:(repeat constructor; exact id)))
                    (fun _ => I) (fun _ _ => I) w2) as (t & Htail & Hn)
      end.
      eexists. split.
      * rewrite Htail. cbn [trace add_event put_file]. rewrite Ht.
        rewrite <- !app_assoc. reflexivity.
      * cbn [app debug_dumped]. split; [now eexists |].
        cbn [debug_dumped]. now apply no_http_dumped.
    + eexists. split.
      * cbn [snd trace add_log add_event]. rewrite trace_left_by, Ht.
        rewrite <- !app_assoc. reflexivity.
      * cbn [app debug_dumped]. split; [now eexists | exact I].
  - eexists. split; [cbn [snd trace add_log]; exact Ht | exact I].
Qed.

Lemma run_keeps_dump this w resp :
  axios_reply E (trace w) (url this) = Ok resp ->
  fs_write_reply E (trace w ++ [HttpGet (url this) (Ok resp)]) debug_html
    (data resp) = Ok tt ->
  files (snd (run E this None None w)) !! debug_html = Some (data resp).
Proof.
  intros Hget Hwrite. rewrite run_default_unfold.
  destruct (fetchPage_cases this w) as (Ht & _ & Hv). cbv zeta in *.
  destruct (fetchPage E this w) as [r w1]. cbn [fst snd] in *.
  rewrite Hget in Ht, Hv. subst r. rewrite Ht, Hwrite.
  match goal with
  | |- files (snd (?m ?w2)) !! _ = _ =>
    pose proof (steps_after_dump (same_file debug_html)
                  (fun f => f <> debug_html) this None (data resp)
                  (fun f c Hne => same_file_writeFileSync E debug_html f c Hne)
                  dated_md_not_debug (fun f (H : None = Some f) =>
                                        ltac:(discriminate H)) w2) as Hsame
  end.
  unfold same_file in Hsame. rewrite Hsame.
  cbn [files add_event put_file]. apply lookup_insert_eq.
Qed.

Lemma extends_sleep S `{!Monoidal S} ms :
  S [Sleep ms] -> steps (extends S) (sleep ms).
Proof. intros H w. eexists. split; [reflexivity | exact H]. Qed.

Lemma crawl_site_debug_dumped allNews site :
  steps (extends debug_dumped) (crawl_site E allNews site).
Proof.
  unfold crawl_site.
  pose proof (run_debug_dumped (new_NewsCrawler site) None) as Hrun.
  pose proof (fun ms => extends_sleep debug_dumped ms I) as Hsleep.
  walk.
Qed.

Lemma main_on_debug_dumped sites :
  steps (extends debug_dumped) (main_on E sites).
Proof.
  unfold main_on. apply steps_bind; [exact _ | |].
  - generalize (@nil NewsRecord).
    induction sites as [| site sites IH]; intros allNews; cbn [crawl_sites].
    + apply steps_ret; exact _.
    + apply steps_bind; [exact _ | apply crawl_site_debug_dumped |].
      intros a. apply IH.
  - intros allNews. apply steps_publish; try exact _; intros.
    + apply extends_writeFileSync; try exact _; easy.
    + apply extends_git_status; try exact _; easy.
    + apply extends_git_add; try exact _; easy.
    + apply extends_git_commit; try exact _; easy.
    + apply extends_git_push; try exact _; easy.
Qed.

End DebugDump.

(** C10. Left out, [debug] is [true], and the orchestrator leaves it out: in
    the trace of [main], run at once or as the scheduled job, every
    successful GET is followed at once by a write of the fetched text to
    [debug_html.html]; and when that write succeeds the file holds the text
    at the end of [run]. *)
Theorem debug_dump_unconditional E :
  (forall this filename w,
      run E this filename None w = run E this filename (Some true) w)
  /\ (forall w, extends debug_dumped w (snd (main E w)))
  /\ (forall w, extends debug_dumped w (snd (daily_job E w)))
  /\ (forall this w resp,
        axios_reply E (trace w) (url this) = Ok resp ->
        fs_write_reply E (trace w ++ [HttpGet (url this) (Ok resp)])
          debug_html (data resp) = Ok tt ->
        files (snd (run E this None None w)) !! debug_html
        = Some (data resp)).
Proof.
  split; [reflexivity |]. split; [| split].
  - apply main_on_debug_dumped.
  - pose proof (main_on_debug_dumped E newsSites) as Hmain.
    unfold daily_job. fold (steps (extends debug_dumped)
                              (logger Linfo (js "开始执行每日爬虫任务");;
                               main E;;
                               logger Linfo (js "每日爬虫任务完成"))).
    unfold main. walk.
  - apply run_keeps_dump.
Qed.

Lemma debug_dump_unconditional_witness :
  files (snd (run Fixture.env (new_NewsCrawler Fixture.qq) None None
                Fixture.world0)) !! debug_html = Some (js "<qq>").
Proof.
  refine (proj2 (proj2 (proj2 (debug_dump_unconditional Fixture.env)))
            (new_NewsCrawler Fixture.qq) Fixture.world0
            {| status := 200; data := js "<qq>" |} _ _).
  - reflexivity.
  - reflexivity.
Defined.

(** ** Where the Markdown file is written *)

Lemma group_items_plain newsItems : forall o,
  plain_sources newsItems -> exists o', group_items o newsItems = Ok o'.
Proof.
  induction newsItems as [| item items IH]; intros o Hp.
  - now exists o.
  - apply Forall_cons in Hp. destruct Hp as [Hi Hp]. cbn [group_items].
    unfold group_item.
    destruct (JsObject.get_own (source item) o); [apply IH, Hp |].
    rewrite bool_decide_eq_false_2 by exact Hi. apply IH, Hp.
Qed.

#[local] Instance any_monoidal : Monoidal (fun _ => True).
Proof. now split. Qed.

#[local] Instance git_only_monoidal : Monoidal (Forall is_git).
Proof. split; [constructor |]. intros t1 t2 H1 H2. apply Forall_app. now split. Qed.

Section MarkdownWrites.
Context (E : Env).

(** A non-empty list whose grouping succeeds is rendered and written by
    one [fs.writeFileSync], and that is all [saveToMarkdown] does. *)
Lemma saveToMarkdown_trace this item items filename w o :
  group_items JsObject.empty (item :: items) = Ok o ->
  exists head foot outcome,
    trace (snd (saveToMarkdown E this (Some (item :: items)) filename w))
    = trace w ++ [WriteFile (md_target filename (Date_at E (dates w)))
                    (md_document head o foot) outcome].
Proof.
  intros Hg. unfold saveToMarkdown.
  destruct filename as [[| c f] |]; cbn [truthy default md_target];
    unfold bind, try_catch, new_Date, lift, ret, fs_writeFileSync; rewrite Hg;
    cbn [fst snd trace next_date dates];
    match goal with
    | |- context [fs_write_reply E ?t ?p ?c] =>
      destruct (fs_write_reply E t p c) eqn:Hw;
      [| destruct (fs_write_left E t p c)]
    end;
    do 3 eexists; cbn [logger severity logger_level Nat.leb snd trace add_log
                       add_event put_file]; reflexivity.
Qed.

(** When [run] returns records, it has handed exactly them to
    [saveToMarkdown], and returns in the world that call left. *)
Lemma run_saves this filename w news w' :
  run E this filename None w = (Ok news, w') ->
  news <> [] ->
  exists w0 t0 b,
    trace w0 = trace w ++ t0
    /\ saveToMarkdown E this (Some news) filename w0 = (Ok b, w').
Proof.
  intros H Hne. rewrite run_default_unfold in H.
  destruct (fetchPage_cases E this w) as (Ht & _ & _). cbv zeta in Ht.
  destruct (fetchPage E this w) as [[html | e] w1]; cbn [snd] in Ht;
    [| injection H as <- _; contradiction].
  destruct (fs_write_reply E (trace w1) debug_html html) as [[] | e];
    [| injection H as <- _; contradiction].
  rewrite try_catch_bind in H.
  match type of H with
  | context [parseNews E this html ?w2] =>
    destruct (steps_parseNews (extends (fun _ => True)) E this html w2)
      as (tp & Htp & _);
    destruct (parseNews E this html w2) as [[items | e] w3]
  end; cbn [snd] in Htp;
    [| injection H as <- _; contradiction].
  rewrite try_catch_bind in H.
  destruct items as [| i items].
  - injection H as <- _. contradiction.
  - cbn [length Nat.ltb Nat.leb] in H. unfold bind at 1 2 in H.
    cbn [logger severity logger_level Nat.leb] in H.
    match type of H with
    | context [saveToMarkdown E this ?a ?f ?w0] =>
      destruct (saveToMarkdown E this a f w0) as [[b | e] w4] eqn:Hs;
      [ injection H as <- <-; exists w0; do 2 eexists; split; [| exact Hs]
      | injection H as <- _; contradiction ]
    end.
    cbn [trace add_log]. rewrite Htp. cbn [trace add_event put_file].
    rewrite Ht, <- !app_assoc. reflexivity.
Qed.

Lemma commitToGitHub_git_only filePath :
  steps (extends (Forall is_git)) (commitToGitHub E filePath).
Proof.
  apply steps_commitToGitHub; try exact _; intros.
  - apply extends_git_status; try exact _.
    intros o. now repeat constructor.
  - apply extends_git_add; try exact _. intros o. now repeat constructor.
  - apply extends_git_commit; try exact _. intros o. now repeat constructor.
  - apply extends_git_push; try exact _. intros o. now repeat constructor.
Qed.

(** After the loop: nothing for an empty aggregate, else one write of the
    rendered aggregate under the dated name, then git. *)
Lemma publish_trace allNews w :
  (allNews = [] -> publish E allNews w = (Ok tt, w))
  /\ (allNews <> [] ->
      forall o,
        group_items JsObject.empty allNews = Ok o ->
        exists head foot outcome git,
          trace (snd (publish E allNews w))
          = trace w
            ++ [WriteFile (dated_md (Date_at E (dates w)))
                  (md_document head o foot) outcome]
            ++ git
          /\ Forall is_git git).
Proof.
  split; [now intros -> |].
  intros Hne o Hg. destruct allNews as [| item items]; [contradiction |].
  unfold publish. cbn [length Nat.ltb Nat.leb]. unfold bind at 1.
  cbn [new_Date].
  destruct (saveToMarkdown_trace
              (new_NewsCrawler (js "https://example.com")) item items
              (Some (dated_md (Date_at E (dates w)))) (next_date w) o Hg)
    as (head & foot & outcome & Hs).
  assert (Hmd : md_target (Some (dated_md (Date_at E (dates w))))
                  (Date_at E (dates (next_date w)))
                = dated_md (Date_at E (dates w))).
  { unfold md_target.
    destruct (dated_md (Date_at E (dates w))) eqn:Hd; [| reflexivity].
    exfalso. unfold dated_md in Hd. apply app_eq_nil in Hd.
    destruct Hd as [_ Hd]. apply app_eq_nil in Hd. destruct Hd as [_ Hd].
    apply app_eq_nil in Hd. destruct Hd as [_ Hd]. vm_compute in Hd.
    discriminate Hd. }
  rewrite Hmd in Hs. cbn [trace next_date] in Hs.
  unfold bind at 1.
  destruct (saveToMarkdown E _ (Some (item :: items)) _ (next_date w))
    as [[b | e] w1]; cbn [snd] in Hs.
  - unfold bind at 1. cbn [logger severity logger_level Nat.leb].
    unfold bind at 1.
    match goal with
    | |- context [commitToGitHub E ?p ?w2] =>
      destruct (commitToGitHub_git_only p w2) as (git & Hgit & Hall);
      destruct (commitToGitHub E p w2) as [[c | e] w3]
    end; unfold ret; cbn [snd trace add_log] in *;
      exists head, foot, outcome, git;
      (split; [now rewrite Hgit, Hs, <- app_assoc | exact Hall]).
  - exists head, foot, outcome, []. cbn [snd]. rewrite Hs.
    split; [reflexivity | constructor].
Qed.

End MarkdownWrites.

(** C4, as the code has it.  The Markdown file is rendered and written
    inside [run] for every target that yields records, on that target's
    records and under the dated name, as the last event of that [run]; the
    records of the targets are appended to the aggregate; and after the loop
    the aggregate, when it is not empty, is rendered and written once more,
    followed only by git.  (Sources are taken not to be inherited property
    names, which would make the grouping throw before any write.) *)
Theorem markdown_written_per_target_and_after E :
  (forall this w news w',
      run E this None None w = (Ok news, w') ->
      news <> [] ->
      plain_sources news ->
      exists o t0 now head foot outcome,
        group_items JsObject.empty news = Ok o
        /\ trace w' = trace w ++ t0
                      ++ [WriteFile (dated_md now) (md_document head o foot)
                            outcome])
  /\ (forall allNews site w,
        exists news w1,
          run E (new_NewsCrawler site) None None
            (add_log Linfo (js "开始爬取: " ++ site) w) = (Ok news, w1)
          /\ fst (crawl_site E allNews site w) = Ok (allNews ++ news))
  /\ (forall sites w,
        exists allNews w1,
          crawl_sites E sites [] w = (Ok allNews, w1)
          /\ (allNews = [] -> main_on E sites w = (Ok tt, w1))
          /\ (allNews <> [] ->
              plain_sources allNews ->
              exists o head foot outcome git,
                group_items JsObject.empty allNews = Ok o
                /\ trace (snd (main_on E sites w))
                   = trace w1
                     ++ [WriteFile (dated_md (Date_at E (dates w1)))
                           (md_document head o foot) outcome]
                     ++ git
                /\ Forall is_git git)).
Proof.
  split; [| split].
  - intros this w news w' Hr Hne Hp.
    destruct (run_saves E this None w news w' Hr Hne) as (w0 & t0 & b & Ht & Hs).
    destruct (group_items_plain news JsObject.empty Hp) as (o & Hg).
    destruct news as [| item items]; [contradiction |].
    destruct (saveToMarkdown_trace E this item items None w0 o Hg)
      as (head & foot & outcome & Hw).
    rewrite Hs in Hw. cbn [snd md_target] in Hw.
    exists o, t0, (Date_at E (dates w0)), head, foot, outcome.
    split; [exact Hg |]. now rewrite Hw, Ht, <- app_assoc.
  - intros allNews site w.
    destruct (crawl_site_turn E allNews site w) as (news & w1 & Hr & Hv & _).
    now exists news, w1.
  - intros sites w.
    destruct (crawl_sites_sleeps E sites [] w) as (allNews & w1 & t & Hs & _).
    exists allNews, w1. split; [exact Hs |].
    unfold main_on. rewrite (bind_ok _ _ _ _ _ Hs).
    destruct (publish_trace E allNews w1) as [Hnil Hcons]. split.
    + exact Hnil.
    + intros Hne Hp. destruct (group_items_plain allNews JsObject.empty Hp)
        as (o & Hg).
      destruct (Hcons Hne o Hg) as (head & foot & outcome & git & Ht & Hgit).
      now exists o, head, foot, outcome, git.
Qed.

Lemma markdown_written_per_target_and_after_witness :
  exists o t0 now head foot outcome,
    group_items JsObject.empty Fixture.qq_news = Ok o
    /\ trace (snd (run Fixture.env (new_NewsCrawler Fixture.qq) None None
                     Fixture.world0))
       = trace Fixture.world0 ++ t0
         ++ [WriteFile (dated_md now) (md_document head o foot) outcome].
Proof.
  refine (proj1 (markdown_written_per_target_and_after Fixture.env)
            (new_NewsCrawler Fixture.qq) Fixture.world0 Fixture.qq_news
            (snd (run Fixture.env (new_NewsCrawler Fixture.qq) None None
                    Fixture.world0)) _ _ _).
  - rewrite (surjective_pairing (run _ _ _ _ _)) at 1. f_equal.
  - discriminate.
  - unfold plain_sources, Fixture.qq_news.
    repeat (apply List.Forall_cons;
            [apply (bool_decide_unpack _); vm_compute; exact I |]).
    apply List.Forall_nil.
Defined.

(** One target, one run: the dated file is written inside [run], before the
    sleep, and again after the loop. *)
Lemma markdown_written_twice :
  map kind_of
    (trace (snd (main_on Fixture.env [Fixture.qq] Fixture.world0)))
  = [KHttpGet Fixture.qq; KWriteFile debug_html;
     KWriteFile (js "20250105.md"); KSleep;
     KWriteFile (js "20250105.md"); KGit].
Proof. vm_compute. reflexivity. Qed.

(** * Further properties of the program *)

(** ** parseNews: totality and silence *)

#[local] Instance quiet_frame : Frame quiet.
Proof.
  split; unfold quiet; try (intros; repeat split; reflexivity).
  intros w1 w2 w3 (H1 & H2) (H3 & H4).
  split; congruence.
Qed.

Lemma parseNews_cases E this html w :
  (exists e, cheerio_parse E html = Throw e
             /\ parseNews E this html w
                = (Ok [],
                   add_log Lerror (js "解析新闻内容失败: " ++ message e)
                     (add_log Linfo (js "开始解析新闻内容") w)))
  \/ (exists document newsItems w1,
        cheerio_parse E html = Ok document
        /\ collectNews E this document
             (add_log Linfo (js "开始解析新闻内容") w) = (Ok newsItems, w1)
        /\ fst (parseNews E this html w) = Ok (uniqueNews newsItems)).
Proof.
  destruct (cheerio_parse E html) as [document | e] eqn:Hp.
  - right.
    destruct (returns_collectNews E this document
                (add_log Linfo (js "开始解析新闻内容") w)) as (items & w1 & Hc).
    exists document, items, w1. split; [reflexivity |]. split; [exact Hc |].
    now rewrite (parseNews_parsed E this html document w items w1 Hp Hc).
  - left. exists e. split; [reflexivity |].
    unfold parseNews, try_catch, bind, lift. rewrite Hp. reflexivity.
Qed.

(** X1. [parseNews] never throws, sends no request and touches no file;
    when [cheerio.load] throws it returns the empty list, having logged the
    failure. *)
Theorem parseNews_total_and_quiet E this html w :
  (exists out w', parseNews E this html w = (Ok out, w'))
  /\ quiet w (snd (parseNews E this html w))
  /\ (forall e,
        cheerio_parse E html = Throw e ->
        parseNews E this html w
        = (Ok [],
           add_log Lerror (js "解析新闻内容失败: " ++ message e)
             (add_log Linfo (js "开始解析新闻内容") w))).
Proof.
  split; [| split].
  - apply returns_try_catch. intros e. apply returns_bind; auto with returns.
  - apply (steps_parseNews quiet).
  - intros e He. destruct (parseNews_cases E this html w)
      as [(e' & He' & H) | (d & items & w1 & Hd & _)]; [| congruence].
    rewrite He in He'. injection He' as <-. exact H.
Qed.

Lemma parseNews_total_and_quiet_witness :
  parseNews Faults.unparsable (new_NewsCrawler Fixture.qq) (js "<qq>")
    Fixture.world0
  = (Ok [],
     add_log Lerror (js "解析新闻内容失败: " ++ js "unexpected input")
       (add_log Linfo (js "开始解析新闻内容") Fixture.world0)).
Proof.
  exact (proj2 (proj2 (parseNews_total_and_quiet Faults.unparsable
                         (new_NewsCrawler Fixture.qq) (js "<qq>")
                         Fixture.world0))
           {| message := js "unexpected input" |} eq_refl).
Defined.

(** ** What a record of parseNews looks like *)

Lemma trimStart_head s :
  match trimStart s with
  | [] => True
  | c :: _ => is_white_space c = false
  end.
Proof.
  induction s as [| c s IH]; [exact I |].
  cbn [trimStart]. destruct (is_white_space c) eqn:Hc; [exact IH | exact Hc].
Qed.

Lemma trimStart_suffix s : exists p, s = p ++ trimStart s.
Proof.
  induction s as [| c s (p & IH)]; [now exists [] |].
  cbn [trimStart]. destruct (is_white_space c).
  - exists (c :: p). cbn [app]. now rewrite <- IH.
  - now exists [].
Qed.

Lemma trimEnd_prefix s : exists q, s = trimEnd s ++ q.
Proof.
  unfold trimEnd. destruct (trimStart_suffix (rev s)) as (p & Hp).
  exists (rev p). rewrite <- rev_app_distr, <- Hp. now rewrite rev_involutive.
Qed.

Lemma trimmed_trim s : trimmed (trim s).
Proof.
  unfold trim, trimmed.
  destruct (trimEnd (trimStart s)) as [| c r] eqn:Ht; [exact I |].
  split.
  - destruct (trimEnd_prefix (trimStart s)) as (q & Hq).
    rewrite Ht in Hq. pose proof (trimStart_head s) as Hh.
    rewrite Hq in Hh. exact Hh.
  - unfold trimEnd in Ht.
    pose proof (trimStart_head (rev (trimStart s))) as Hh.
    destruct (trimStart (rev (trimStart s))) as [| d u]; [discriminate Ht |].
    cbn [rev] in Ht. rewrite <- Ht, List.last_last. exact Hh.
Qed.

Lemma trimmed_or_else a b : trimmed a -> trimmed b -> trimmed (or_else a b).
Proof. intros Ha Hb. unfold or_else. now destruct (truthy a). Qed.

Lemma title_and_link_some t l h :
  title_and_link t l = Some h ->
  truthy t = true /\ truthy h = true /\ l = Some h.
Proof.
  unfold title_and_link. destruct l as [h' |]; [| discriminate].
  destruct (truthy t); [| discriminate].
  destruct (truthy h') eqn:Hh; [| discriminate].
  now intros [= <-].
Qed.

Lemma fullLink_linked E this h w full :
  fst (fullLink E this h w) = Ok full ->
  (startsWith h (js "http") = true /\ full = h)
  \/ (startsWith h (js "http") = false /\ URL_href E h (url this) = Ok full).
Proof.
  unfold fullLink. destruct (startsWith h (js "http")).
  - intros [= <-]. now left.
  - intros H. now right.
Qed.

Lemma each_pushes_at P f :
  pushes_at P f ->
  forall els items w items' w',
    each f els items w = (Ok items', w') ->
    exists added,
      items' = items ++ added
      /\ Forall (fun r => exists el, In el els /\ P el r) added.
Proof.
  intros Hf els. induction els as [| el els IH]; intros items w items' w' H.
  - injection H as <- <-. exists []. now rewrite app_nil_r.
  - cbn [each] in H. unfold bind in H.
    destruct (f items el w) as [[a | e] w1] eqn:Hel; [| discriminate].
    destruct (IH _ _ _ _ H) as (added & -> & Hadd).
    assert (Hadd' : Forall (fun r => exists el0, In el0 (el :: els) /\ P el0 r)
                      added).
    { eapply List.Forall_impl; [| exact Hadd].
      intros r (el0 & Hin & Hr). exists el0. split; [now right | exact Hr]. }
    destruct (Hf _ _ _ _ _ Hel) as [-> | (r & -> & Hr)].
    + now exists added.
    + exists (r :: added). rewrite <- app_assoc. split; [reflexivity |].
      constructor; [| exact Hadd']. exists el. split; [now left | exact Hr].
Qed.

Lemma trimmed_title_in p el : trimmed (title_in p el).
Proof.
  destruct p; cbn [title_in]; try apply trimmed_trim.
  apply trimmed_or_else; apply trimmed_trim.
Qed.

Ltac callback_made :=
  let H := fresh "H" in
  let Htl := fresh "Htl" in
  let Hfl := fresh "Hfl" in
  intros ? ? ? ? ? H;
  unfold try_catch, bind in H;
  destruct (title_and_link _ _) as [h |] eqn:Htl;
  [ rewrite fullLink_pure in H;
    destruct (fst (fullLink _ _ h _)) as [full | e] eqn:Hfl;
    [ injection H as <- <-; right; eexists; split; [reflexivity |];
      apply title_and_link_some in Htl; destruct Htl as (Ht & Hh & Hl);
      apply fullLink_linked in Hfl;
      unfold made_at;
      cbn [title link summary crawl_time source title_in href_in labelled];
      split; [reflexivity |]; split; [exact Ht |];
      split; [exists h; split; [exact Hl |]; split; [exact Hh |];
              split; [exact Hfl | discriminate] |];
      split; [eexists; reflexivity |];
      split; [split; reflexivity | discriminate]
    | injection H as <- <-; now left ]
  | injection H as <- <-; now left ].

Section Records.
Context (E : Env) (this : NewsCrawler).

Lemma sina_card_made : pushes_at (made_at E this SinaCard) (sina_card E this).
Proof. unfold sina_card. callback_made. Qed.

Lemma sina_hot_made : pushes_at (made_at E this SinaHot) (sina_hot E this).
Proof. unfold sina_hot. callback_made. Qed.

Lemma netease_item_made :
  pushes_at (made_at E this NetEase) (netease_item E this).
Proof. unfold netease_item. callback_made. Qed.

Lemma anchor_filter_some txt href h :
  anchor_filter txt href = Some h ->
  href = Some h /\ truthy txt = true /\ truthy h = true
  /\ (10 < length txt < 100)%nat /\ scheme_test h = false.
Proof.
  unfold anchor_filter. destruct href as [h' |]; [| discriminate].
  destruct (truthy txt); [| discriminate].
  destruct (truthy h') eqn:Hh; [| discriminate].
  destruct (10 <? length txt)%nat eqn:Hlo; [| discriminate].
  destruct (length txt <? 100)%nat eqn:Hhi; [| discriminate].
  destruct (scheme_test h') eqn:Hs; [discriminate |].
  intros [= <-]. apply Nat.ltb_lt in Hlo, Hhi. repeat split; assumption.
Qed.

Lemma generic_anchor_made :
  pushes_at (made_at E this Generic) (generic_anchor E this).
Proof.
  intros items el w items' w' H. unfold generic_anchor in H.
  destruct (anchor_filter _ _) as [h |] eqn:Hf;
    [| injection H as <- <-; now left].
  apply anchor_filter_some in Hf. destruct Hf as (Ha & Ht & Hh & Hlen & Hs).
  unfold try_catch, bind in H. rewrite fullLink_pure in H.
  destruct (fst (fullLink E this h w)) as [full | e] eqn:Hfl;
    [| injection H as <- <-; now left].
  unfold new_Date, lift in H.
  destruct (URL_hostname E (url this)) as [host | e] eqn:Hhost;
    injection H as <- <-; [| now left].
  right. eexists. split; [reflexivity |].
  apply fullLink_linked in Hfl. unfold made_at.
  cbn [title link summary crawl_time source title_in href_in labelled].
  split; [reflexivity |]. split; [exact Ht |].
  split; [exists h; split; [exact Ha |]; split; [exact Hh |];
          split; [exact Hfl | intros _; exact Hs] |].
  split; [eexists; reflexivity |].
  split; [split; [reflexivity | exact Hhost] | intros _; exact Hlen].
Qed.

Lemma collectNews_from_page document w items w1 :
  collectNews E this document w = (Ok items, w1) ->
  Forall (from_page E this document) items.
Proof.
  unfold collectNews, bind.
  destruct (specific_pass E this document w) as [[specific | e] w0] eqn:Hs;
    [| discriminate].
  intros Hg.
  assert (Hspec : Forall (from_page E this document) specific).
  { unfold specific_pass in Hs.
    destruct (includes (url this) (js "sina.com.cn")) eqn:Hsina.
    - unfold bind in Hs.
      destruct (each (sina_card E this) _ [] w) as [[i1 | e] w2] eqn:H1;
        [| discriminate].
      apply (each_pushes_at _ _ sina_card_made) in H1.
      apply (each_pushes_at _ _ sina_hot_made) in Hs.
      destruct H1 as (a1 & -> & Ha1). destruct Hs as (a2 & -> & Ha2).
      cbn [app]. apply Forall_app. split.
      + eapply List.Forall_impl; [| exact Ha1]. intros r (el & Hin & Hr).
        exists SinaCard, el. split; [exact Hsina |]. now split.
      + eapply List.Forall_impl; [| exact Ha2]. intros r (el & Hin & Hr).
        exists SinaHot, el. split; [exact Hsina |]. now split.
    - destruct (includes (url this) (js "163.com")) eqn:H163.
      + apply (each_pushes_at _ _ netease_item_made) in Hs.
        destruct Hs as (a & -> & Ha). cbn [app].
        eapply List.Forall_impl; [| exact Ha]. intros r (el & Hin & Hr).
        exists NetEase, el. split; [now split |]. now split.
      + injection Hs as <- <-. constructor. }
  unfold generic_pass in Hg. destruct specific as [| r0 rest].
  - cbn [length Nat.eqb] in Hg.
    apply (each_pushes_at _ _ generic_anchor_made) in Hg.
    destruct Hg as (a & -> & Ha). cbn [app].
    eapply List.Forall_impl; [| exact Ha]. intros r (el & Hin & Hr).
    exists Generic, el. split; [exact I |]. now split.
  - cbn [length Nat.eqb] in Hg. injection Hg as <- <-. exact Hspec.
Qed.

End Records.

(** X2. [parseNews] returns, and every record it returns was pushed by one
    of its four loops at an element that the loop visited in the parsed
    page.  Its title is the text the loop reads off that element, trimmed
    and not empty; its link is the non-empty href the loop reads off that
    element, as it is when it starts with [http] and resolved against the
    crawler's URL otherwise; its crawl_time is a reading of the clock; its
    summary and source are those of the loop.  The two Sina loops are
    reached only for a URL containing [sina.com.cn], the NetEase loop only
    for one containing [163.com] and not [sina.com.cn]; a record of the
    generic loop has the host name of the URL as source, a title of 11 to
    99 code units and an href the scheme pattern does not match.  When the
    page cannot be parsed, nothing is returned. *)
Theorem parseNews_records E this html w :
  match fst (parseNews E this html w), cheerio_parse E html with
  | Ok out, Ok document =>
    Forall (fun r => trimmed (title r) /\ from_page E this document r) out
  | Ok out, Throw _ => out = []
  | Throw _, _ => False
  end.
Proof.
  destruct (parseNews_cases E this html w)
    as [(e & He & H) | (d & items & w1 & Hd & Hc & H)].
  - rewrite H, He. reflexivity.
  - rewrite H, Hd. apply Forall_forall. intros r Hr.
    apply list_elem_of_In, uniqueNews_incl in Hr.
    pose proof (collectNews_from_page E this d _ items w1 Hc) as Hall.
    rewrite Forall_forall in Hall.
    apply list_elem_of_In, Hall in Hr. split; [| exact Hr].
    destruct Hr as (p & el & _ & _ & (-> & _)). apply trimmed_title_in.
Qed.

Lemma parseNews_records_witness :
  Forall (fun r => trimmed (title r)
                   /\ from_page Fixture.env (new_NewsCrawler Fixture.qq)
                        Fixture.qq_page r)
    Fixture.qq_news.
Proof.
  pose proof (parseNews_records Fixture.env (new_NewsCrawler Fixture.qq)
                (js "<qq>") Fixture.world0) as H.
  assert (Hp : fst (parseNews Fixture.env (new_NewsCrawler Fixture.qq)
                      (js "<qq>") Fixture.world0) = Ok Fixture.qq_news)
    by (vm_compute; reflexivity).
  assert (Hc : cheerio_parse Fixture.env (js "<qq>") = Ok Fixture.qq_page)
    by (vm_compute; reflexivity).
  rewrite Hp, Hc in H. exact H.
Defined.

(** ** Deduplication of a list that needs none *)

Lemma set_fresh {V} (k : jsstring) (v : V) m :
  ~ In k (JsMap.keys m) -> JsMap.set k v m = m ++ [(k, v)].
Proof.
  induction m as [| [k0 v0] m IH]; [reflexivity |].
  cbn [JsMap.keys map fst In JsMap.set app]. intros Hn.
  rewrite bool_decide_eq_false_2 by (intros ->; apply Hn; now left).
  f_equal. apply IH. intros Hin. apply Hn. now right.
Qed.

Lemma fold_step_fresh {V} (entries : list (jsstring * V)) : forall m,
  List.NoDup (JsMap.keys m ++ JsMap.keys entries) ->
  fold_left step entries m = m ++ entries.
Proof.
  induction entries as [| [k v] entries IH]; intros m Hnd.
  - now rewrite app_nil_r.
  - cbn [fold_left]. unfold step at 2. cbn [fst snd].
    cbn [JsMap.keys map fst] in Hnd.
    rewrite set_fresh.
    + rewrite IH.
      * now rewrite <- app_assoc.
      * unfold JsMap.keys. rewrite map_app, <- app_assoc. exact Hnd.
    + apply List.NoDup_remove_2 in Hnd. intros Hin. apply Hnd.
      apply in_or_app. now left.
Qed.

(** X3. Deduplication keeps a list whose titles are pairwise different as
    it is, and deduplicating twice is deduplicating once. *)
Theorem uniqueNews_fixpoint newsItems :
  (List.NoDup (map title newsItems) -> uniqueNews newsItems = newsItems)
  /\ uniqueNews (uniqueNews newsItems) = uniqueNews newsItems.
Proof.
  assert (Hid : forall l, List.NoDup (map title l) -> uniqueNews l = l).
  { intros l Hnd. rewrite uniqueNews_unfold, fold_step_fresh.
    - cbn [app]. rewrite map_map. cbn [entry snd]. apply map_id.
    - cbn [JsMap.keys map app]. unfold JsMap.keys. rewrite map_map.
      exact Hnd. }
  split; [apply Hid |].
  apply Hid. rewrite uniqueNews_titles. apply first_occurrences_NoDup.
Qed.

Lemma uniqueNews_fixpoint_witness :
  uniqueNews Fixture.qq_news = Fixture.qq_news.
Proof.
  apply (proj1 (uniqueNews_fixpoint Fixture.qq_news)).
  repeat constructor; cbn [map In title Fixture.qq_news];
    intros H; repeat (destruct H as [H | H]; [vm_compute in H; discriminate H |]);
    exact H.
Defined.

(** ** run: failures and what it returns *)

Section RunFacts.
Context (E : Env).

Lemma fetchPage_ok this w resp :
  axios_reply E (trace w) (url this) = Ok resp ->
  fetchPage E this w = (Ok (data resp), after_fetch this resp w).
Proof.
  intros H. unfold fetchPage, try_catch, bind, axios_get.
  cbn [logger severity logger_level Nat.leb trace add_log]. rewrite H.
  reflexivity.
Qed.

Lemma fetchPage_throw this w e :
  axios_reply E (trace w) (url this) = Throw e ->
  fetchPage E this w
  = (Throw e,
     add_log Lerror (js "获取页面失败: " ++ message e)
       (add_event (HttpGet (url this) (Throw e))
          (add_log Linfo (js "正在获取页面: " ++ url this) w))).
Proof.
  intros H. unfold fetchPage, try_catch, bind, axios_get.
  cbn [logger severity logger_level Nat.leb trace add_log]. rewrite H.
  reflexivity.
Qed.

Lemma returns_parseNews this html : returns (parseNews E this html).
Proof.
  apply returns_try_catch. intros e. apply returns_bind; auto with returns.
Qed.

Lemma returns_saveToMarkdown this newsItems filename :
  returns (saveToMarkdown E this newsItems filename).
Proof.
  unfold saveToMarkdown.
  destruct newsItems as [[| item items] |];
    try (apply returns_bind; auto with returns).
  - destruct (match filename with Some f => truthy f | None => false end).
    + apply returns_ret.
    + apply returns_bind; [| auto with returns]. intros w. now do 2 eexists.
  - intros f. apply returns_try_catch. intros e.
    apply returns_bind; auto with returns.
Qed.

Lemma returns_saveToCsv this newsItems filename :
  returns (saveToCsv E this newsItems filename).
Proof.
  unfold saveToCsv.
  destruct newsItems as [[| item items] |];
    try (apply returns_bind; auto with returns).
  - destruct (match filename with Some f => truthy f | None => false end).
    + apply returns_ret.
    + apply returns_bind; [| auto with returns]. intros w. now do 2 eexists.
  - intros f. apply returns_try_catch. intros e.
    apply returns_bind; auto with returns.
Qed.

(** [run] with [debug] false, unfolded up to the parse. *)
Lemma run_nodebug_unfold this filename w :
  run E this filename (Some false) w
  = match fetchPage E this w with
    | (Ok html, w1) =>
      try_catch
        (newsItems <- parseNews E this html ;;
         (if (0 <? length newsItems)%nat
          then logger Linfo (js "成功解析到 "
                             ++ ofN (N.of_nat (length newsItems))
                             ++ js " 条新闻") ;;
               saveToMarkdown E this (Some newsItems) filename ;;
               ret tt
          else logger Lwarn (js "从 " ++ url this
                             ++ js " 没有解析到任何新闻")) ;;
         ret newsItems)
        (fun error =>
           logger Lerror (js "爬虫运行失败: " ++ message error) ;;
           ret [])
        w1
    | (Throw e, w1) =>
      (Ok [], add_log Lerror (js "爬虫运行失败: " ++ message e) w1)
    end.
Proof.
  unfold run. cbn [default]. rewrite try_catch_bind.
  destruct (fetchPage E this w) as [[html | e] w1]; [| reflexivity].
  rewrite try_catch_bind. reflexivity.
Qed.

(** What the part of [run] after the dump returns: the records parsed. *)
Lemma run_tail_value this filename html w :
  fst (try_catch
         (newsItems <- parseNews E this html ;;
          (if (0 <? length newsItems)%nat
           then logger Linfo (js "成功解析到 "
                              ++ ofN (N.of_nat (length newsItems))
                              ++ js " 条新闻") ;;
                saveToMarkdown E this (Some newsItems) filename ;;
                ret tt
           else logger Lwarn (js "从 " ++ url this
                              ++ js " 没有解析到任何新闻")) ;;
          ret newsItems)
         (fun error =>
            logger Lerror (js "爬虫运行失败: " ++ message error) ;;
            ret [])
         w)
  = fst (parseNews E this html w).
Proof.
  rewrite try_catch_bind.
  destruct (returns_parseNews this html w) as (items & w1 & Hp).
  rewrite Hp. cbn [fst]. rewrite try_catch_bind.
  destruct items as [| i items]; [reflexivity |].
  cbn [length Nat.ltb Nat.leb]. unfold bind at 1.
  cbn [logger severity logger_level Nat.leb]. unfold bind at 1.
  match goal with
  | |- context [saveToMarkdown E this ?a ?f ?w0] =>
    destruct (returns_saveToMarkdown this a f w0) as (b & w2 & Hs)
  end.
  rewrite Hs. reflexivity.
Qed.

End RunFacts.

#[local] Instance not_writing_monoidal p :
  Monoidal (Forall (fun ev => ~ writes_to p ev)).
Proof. split; [constructor |]. intros t1 t2 H1 H2. apply Forall_app. now split. Qed.

(** X4. When the request fails, [run] returns the empty list whatever its
    arguments: the one GET is the only event, no file is written, nothing
    is parsed, and the failure is logged by [fetchPage] and again by
    [run]. *)
Theorem run_when_fetch_fails E this filename debug w e :
  axios_reply E (trace w) (url this) = Throw e ->
  run E this filename debug w
  = (Ok [],
     add_log Lerror (js "爬虫运行失败: " ++ message e)
       (add_log Lerror (js "获取页面失败: " ++ message e)
          (add_event (HttpGet (url this) (Throw e))
             (add_log Linfo (js "正在获取页面: " ++ url this) w)))).
Proof.
  intros H. unfold run. rewrite try_catch_bind.
  rewrite (fetchPage_throw E this w e H). reflexivity.
Qed.

Lemma run_when_fetch_fails_witness :
  fst (run Fixture.env (new_NewsCrawler (js "https://www.thepaper.cn/")) None
         None Fixture.world0) = Ok [].
Proof.
  rewrite (run_when_fetch_fails Fixture.env
             (new_NewsCrawler (js "https://www.thepaper.cn/")) None None
             Fixture.world0 {| message := js "timeout of 10000ms exceeded" |}
             eq_refl).
  reflexivity.
Defined.

(** X5. When the dump of the fetched text to [debug_html.html] fails, [run]
    (with [debug] left out or true) gives the page up: it returns the empty
    list without parsing, the failed write is its last event and the clock
    was not read.  Every file but [debug_html.html] is as it was; that file
    holds what the failed write left of it, and its old text only if it
    could not be opened. *)
Theorem run_when_dump_fails E this filename w resp e :
  axios_reply E (trace w) (url this) = Ok resp ->
  fs_write_reply E (trace w ++ [HttpGet (url this) (Ok resp)]) debug_html
    (data resp) = Throw e ->
  run E this filename None w
  = (Ok [],
     add_log Lerror (js "爬虫运行失败: " ++ message e)
       (add_event (WriteFile debug_html (data resp) (Throw e))
          (left_by E debug_html (data resp) (after_fetch this resp w))))
  /\ run E this filename (Some true) w = run E this filename None w
  /\ (forall f,
        f <> debug_html ->
        files (snd (run E this filename None w)) !! f = files w !! f)
  /\ files (snd (run E this filename None w)) !! debug_html
     = match fs_write_left E (trace w ++ [HttpGet (url this) (Ok resp)])
               debug_html (data resp) with
       | Some rest => Some rest
       | None => files w !! debug_html
       end.
Proof.
  intros Hget Hw.
  assert (Hrun : run E this filename None w
                 = (Ok [],
                    add_log Lerror (js "爬虫运行失败: " ++ message e)
                      (add_event (WriteFile debug_html (data resp) (Throw e))
                         (left_by E debug_html (data resp)
                            (after_fetch this resp w))))).
  { rewrite run_default_unfold, (fetchPage_ok E this w resp Hget).
    cbn [trace after_fetch add_log add_event]. rewrite Hw. reflexivity. }
  split; [exact Hrun |]. split; [reflexivity |]. rewrite Hrun.
  cbn [snd files add_log add_event]. split.
  - intros f Hf. now rewrite files_left_by.
  - unfold left_by. cbn [trace after_fetch add_log add_event].
    destruct (fs_write_left E _ debug_html (data resp)); [| reflexivity].
    cbn [files put_file]. apply lookup_insert_eq.
Qed.

Lemma run_when_dump_fails_witness :
  fst (run Faults.full_disk (new_NewsCrawler Fixture.qq) None None
         Fixture.world0) = Ok []
  /\ files (snd (run Faults.full_disk (new_NewsCrawler Fixture.qq) None None
                   Fixture.world0)) !! debug_html = Some [].
Proof.
  pose proof (run_when_dump_fails Faults.full_disk
                (new_NewsCrawler Fixture.qq) None Fixture.world0
                {| status := 200; data := js "<qq>" |}
                {| message := js "ENOSPC: no space left on device" |}
                eq_refl eq_refl) as (Hrun & _ & _ & Hfile).
  split; [now rewrite Hrun | exact Hfile].
Defined.

(** X6. Once the page is fetched and dumped, [run] returns exactly what
    [parseNews] makes of the fetched text, whether or not the Markdown file
    could be saved: a failing [saveToMarkdown] costs the caller no
    record. *)
Theorem run_returns_parsed E this filename w resp :
  axios_reply E (trace w) (url this) = Ok resp ->
  fs_write_reply E (trace w ++ [HttpGet (url this) (Ok resp)]) debug_html
    (data resp) = Ok tt ->
  fst (run E this filename None w)
  = fst (parseNews E this (data resp) (after_dump this resp w)).
Proof.
  intros Hget Hw.
  rewrite run_default_unfold, (fetchPage_ok E this w resp Hget).
  cbn [trace after_fetch add_log add_event]. rewrite Hw.
  apply run_tail_value.
Qed.

Lemma run_returns_parsed_witness :
  fst (run Fixture.env (new_NewsCrawler Fixture.qq) (Some (js "out.md")) None
         Fixture.world0)
  = fst (parseNews Fixture.env (new_NewsCrawler Fixture.qq) (js "<qq>")
           (after_dump (new_NewsCrawler Fixture.qq)
              {| status := 200; data := js "<qq>" |} Fixture.world0)).
Proof.
  exact (run_returns_parsed Fixture.env (new_NewsCrawler Fixture.qq)
           (Some (js "out.md")) Fixture.world0
           {| status := 200; data := js "<qq>" |} eq_refl eq_refl).
Defined.

Lemma steps_run_nodebug E (R : World -> World -> Prop) `{!Frame R}
    (ok : jsstring -> Prop) this filename :
  steps R (axios_get E (url this)) ->
  (forall f c, ok f -> steps R (fs_writeFileSync E f c)) ->
  (forall d, ok (dated_md d)) ->
  (forall f, filename = Some f -> ok f) ->
  steps R (run E this filename (Some false)).
Proof.
  intros Hget Hw Hd Hf w. rewrite run_nodebug_unfold.
  pose proof (steps_fetchPage R E this Hget w) as Hfetch.
  destruct (fetchPage E this w) as [[html | e] w1]; cbn [snd] in Hfetch.
  - eapply frame_trans; [exact Hfetch |].
    apply (steps_after_dump E R ok this filename html Hw Hd Hf).
  - eapply frame_trans; [exact Hfetch | apply frame_log].
Qed.

(** X7. With [debug] false, [run] never writes [debug_html.html]: unless
    that very name is passed as the Markdown file name, no write to it
    occurs and the file reads after the run as it did before. *)
Theorem run_without_debug E this filename w :
  filename <> Some debug_html ->
  extends (Forall (fun ev => ~ writes_to debug_html ev)) w
    (snd (run E this filename (Some false) w))
  /\ files (snd (run E this filename (Some false) w)) !! debug_html
     = files w !! debug_html.
Proof.
  intros Hne. split.
  - apply (steps_run_nodebug E _ (fun f => f <> debug_html)).
    + apply extends_axios_get; try exact _. intros o.
      repeat constructor. exact id.
    + intros f c Hf. apply extends_writeFileSync; try exact _. intros o.
      repeat constructor. exact Hf.
    + apply dated_md_not_debug.
    + intros f ->. congruence.
  - apply (steps_run_nodebug E (same_file debug_html)
             (fun f => f <> debug_html)).
    + intros w0. reflexivity.
    + intros f c Hf. now apply same_file_writeFileSync.
    + apply dated_md_not_debug.
    + intros f ->. congruence.
Qed.

Lemma run_without_debug_witness :
  files (snd (run Fixture.env (new_NewsCrawler Fixture.qq) None (Some false)
                Fixture.world0)) !! debug_html = None.
Proof.
  rewrite (proj2 (run_without_debug Fixture.env (new_NewsCrawler Fixture.qq)
                    None Fixture.world0 ltac:(discriminate))).
  reflexivity.
Defined.

(** ** Saving: what is written, and what is returned *)

Section Saving.
Context (E : Env).

Lemma saveToMarkdown_written this item items filename w o :
  group_items JsObject.empty (item :: items) = Ok o ->
  let f := md_target filename (Date_at E (dates w)) in
  let k := md_clock filename w in
  let doc := md_document (Date_at E k) o (Date_at E (S k)) in
  let reply := fs_write_reply E (trace w) f doc in
  let r := saveToMarkdown E this (Some (item :: items)) filename w in
  fst r = Ok (succeeded reply)
  /\ trace (snd r) = trace w ++ [WriteFile f doc reply]
  /\ files (snd r)
     = (if succeeded reply then <[f := doc]> (files w)
        else files (left_by E f doc w))
  /\ (forall p, p <> f -> files (snd r) !! p = files w !! p).
Proof.
  intros Hg. cbv zeta. unfold saveToMarkdown.
  destruct filename as [[| c f] |];
    cbn [truthy default from_option id md_target md_clock];
    unfold bind, try_catch, new_Date, lift, ret, fs_writeFileSync, left_by;
    rewrite Hg; cbn [fst snd trace next_date dates];
    match goal with
    | |- context [fs_write_reply E ?t ?p ?c] =>
      destruct (fs_write_reply E t p c) eqn:Hw;
      [| destruct (fs_write_left E t p c)]
    end;
    cbn [logger severity logger_level Nat.leb fst snd trace files add_log
         add_event put_file next_date succeeded];
    (split; [reflexivity |]); (split; [reflexivity |]);
    (split; [reflexivity |]); intros p Hp;
    try reflexivity; now apply lookup_insert_ne.
Qed.

(** X8. For a non-empty list whose grouping succeeds, [saveToMarkdown]
    makes one write, of the document rendered from two readings of the
    clock, to the name passed or, without one, the dated name.  It returns
    [true] exactly when that write succeeds, and then the file holds the
    document; when the write fails it returns [false] and the file holds
    what the failed write left of it.  No other file changes either way. *)
Theorem saveToMarkdown_outcome this item items filename w o :
  group_items JsObject.empty (item :: items) = Ok o ->
  let f := md_target filename (Date_at E (dates w)) in
  let k := md_clock filename w in
  let doc := md_document (Date_at E k) o (Date_at E (S k)) in
  let reply := fs_write_reply E (trace w) f doc in
  let r := saveToMarkdown E this (Some (item :: items)) filename w in
  fst r = Ok (succeeded reply)
  /\ trace (snd r) = trace w ++ [WriteFile f doc reply]
  /\ files (snd r)
     = (if succeeded reply then <[f := doc]> (files w)
        else files (left_by E f doc w))
  /\ (forall p, p <> f -> files (snd r) !! p = files w !! p).
Proof. apply saveToMarkdown_written. Qed.

Lemma inherited_not_index :
  Forall (fun k => JsObject.array_index k = None) JsObject.inherited.
Proof. repeat (apply List.Forall_cons; [vm_compute; reflexivity |]). constructor. Qed.

Lemma get_own_inherited (o : JsObject.t (list NewsRecord)) k :
  k ∈ JsObject.inherited ->
  Forall (fun kv => fst kv ∉ JsObject.inherited) (JsObject.named o) ->
  JsObject.get_own k o = None.
Proof.
  intros Hk Hn. unfold JsObject.get_own.
  pose proof inherited_not_index as Hi. rewrite Forall_forall in Hi.
  rewrite (Hi k Hk).
  destruct (List.find _ (JsObject.named o)) as [[k' l] |] eqn:Hf; [| reflexivity].
  apply find_some in Hf. destruct Hf as [Hin Hk'].
  apply bool_decide_eq_true_1 in Hk'. cbn [fst] in Hk'. subst k'.
  rewrite Forall_forall in Hn. exfalso.
  apply (Hn (k, l)); [now apply list_elem_of_In | exact Hk].
Qed.

Lemma set_keeps_plain (o : JsObject.t (list NewsRecord)) k v :
  k ∉ JsObject.inherited ->
  Forall (fun kv => fst kv ∉ JsObject.inherited) (JsObject.named o) ->
  Forall (fun kv => fst kv ∉ JsObject.inherited)
    (JsObject.named (JsObject.set k v o)).
Proof.
  intros Hk Hn. unfold JsObject.set.
  destruct (JsObject.array_index k); cbn [JsObject.named]; [exact Hn |].
  now apply Forall_set.
Qed.

Lemma group_items_inherited items : forall o item,
  Forall (fun kv => fst kv ∉ JsObject.inherited) (JsObject.named o) ->
  In item items ->
  source item ∈ JsObject.inherited ->
  group_items o items
  = Throw {| message := js "newsBySource[item.source].push is not a function" |}.
Proof.
  induction items as [| i items IH]; intros o item Hn Hin Hs; [destruct Hin |].
  cbn [group_items]. unfold group_item.
  destruct (bool_decide_reflect (source i ∈ JsObject.inherited)) as [Hi | Hi].
  - now rewrite (get_own_inherited o (source i) Hi Hn).
  - destruct Hin as [-> | Hin]; [contradiction |].
    destruct (JsObject.get_own (source i) o);
      apply (IH _ item); try assumption; now apply set_keeps_plain.
Qed.

(** X9. A record whose source is a property name that every object
    inherits ([constructor], [toString], [__proto__], ...) makes the
    grouping throw: [saveToMarkdown] then returns [false] without writing
    anything, whatever else the list holds. *)
Theorem saveToMarkdown_inherited_source this items filename w item :
  In item items ->
  source item ∈ JsObject.inherited ->
  let r := saveToMarkdown E this (Some items) filename w in
  fst r = Ok false /\ trace (snd r) = trace w /\ files (snd r) = files w.
Proof.
  intros Hin Hs. cbv zeta.
  assert (Hg : group_items JsObject.empty items
               = Throw {| message :=
                            js "newsBySource[item.source].push is not a function" |})
    by (apply (group_items_inherited items _ item); [constructor | |]; assumption).
  unfold saveToMarkdown. destruct items as [| i items]; [destruct Hin |].
  destruct filename as [[| c f] |]; cbn [truthy default];
    unfold bind, try_catch, new_Date, lift, ret; rewrite Hg;
    repeat split; reflexivity.
Qed.

(** X10. For a non-empty list [saveToCsv] makes one write: the byte order
    mark, the header line and one row per record, to the name passed or,
    without one, [news_] followed by the digits of the ISO date and
    [.csv].  It returns [true] exactly when the write succeeds, and then
    the file holds that text; otherwise it returns [false] and the file
    holds what the failed write left of it.  No other file changes either
    way. *)
Theorem saveToCsv_outcome this item items filename w :
  let f := csv_target filename (Date_at E (dates w)) in
  let doc := csv_document (item :: items) in
  let reply := fs_write_reply E (trace w) f doc in
  let r := saveToCsv E this (Some (item :: items)) filename w in
  fst r = Ok (succeeded reply)
  /\ trace (snd r) = trace w ++ [WriteFile f doc reply]
  /\ files (snd r)
     = (if succeeded reply then <[f := doc]> (files w)
        else files (left_by E f doc w))
  /\ (forall p, p <> f -> files (snd r) !! p = files w !! p).
Proof.
  cbv zeta. unfold saveToCsv, csv_document.
  destruct filename as [[| c f] |];
    cbn [truthy default from_option id csv_target];
    unfold bind, try_catch, new_Date, ret, fs_writeFileSync, left_by;
    cbn [fst snd trace next_date dates];
    rewrite <- ?app_assoc;
    match goal with
    | |- context [fs_write_reply E ?t ?p ?c] =>
      destruct (fs_write_reply E t p c) eqn:Hw;
      [| destruct (fs_write_left E t p c)]
    end;
    cbn [logger severity logger_level Nat.leb fst snd trace files add_log
         add_event put_file next_date succeeded];
    (split; [reflexivity |]); (split; [reflexivity |]);
    (split; [reflexivity |]); intros p Hp;
    try reflexivity; now apply lookup_insert_ne.
Qed.

End Saving.

Lemma saveToMarkdown_outcome_witness :
  fst (saveToMarkdown Fixture.env (new_NewsCrawler Fixture.qq)
         (Some Fixture.qq_news) None Fixture.world0) = Ok true
  /\ fst (saveToMarkdown Faults.full_disk (new_NewsCrawler Fixture.qq)
            (Some Fixture.qq_news) (Some (js "digest.md")) Fixture.world0)
     = Ok false
  /\ files (snd (saveToMarkdown Faults.full_disk (new_NewsCrawler Fixture.qq)
                   (Some Fixture.qq_news) (Some (js "digest.md"))
                   Fixture.world0))
     = <[js "digest.md" := []]> ∅.
Proof.
  split; [| split].
  - refine (proj1 (saveToMarkdown_outcome Fixture.env
                     (new_NewsCrawler Fixture.qq) _ _ None Fixture.world0
                     qq_groups _)).
    vm_compute. reflexivity.
  - refine (proj1 (saveToMarkdown_outcome Faults.full_disk
                     (new_NewsCrawler Fixture.qq) _ _ (Some (js "digest.md"))
                     Fixture.world0 qq_groups _)).
    vm_compute. reflexivity.
  - refine (proj1 (proj2 (proj2 (saveToMarkdown_outcome Faults.full_disk
                                   (new_NewsCrawler Fixture.qq) _ _
                                   (Some (js "digest.md")) Fixture.world0
                                   qq_groups _)))).
    vm_compute. reflexivity.
Defined.

Lemma saveToMarkdown_inherited_source_witness :
  fst (saveToMarkdown Fixture.env (new_NewsCrawler Fixture.qq)
         (Some [Faults.constructor_item]) None Fixture.world0) = Ok false.
Proof.
  refine (proj1 (saveToMarkdown_inherited_source Fixture.env
                   (new_NewsCrawler Fixture.qq) [Faults.constructor_item] None
                   Fixture.world0 Faults.constructor_item
                   (or_introl eq_refl) _)).
  apply (bool_decide_unpack _). vm_compute. exact I.
Defined.

(** ** The object that groups records by source *)

Section ObjectFacts.
Context {V : Type}.
Implicit Types (o : JsObject.t V) (L : list (N * V)).

Lemma array_index_ofN k n : JsObject.array_index k = Some n -> ofN n = k.
Proof.
  unfold JsObject.array_index. destruct (JsObject.decimal 0 k) as [m |];
    [| discriminate].
  destruct (bool_decide_reflect (ofN m = k)) as [He | He]; [| discriminate].
  destruct (m <=? 4294967294); [| discriminate]. now intros [= <-].
Qed.

Lemma keys_set_indexed n v L m :
  In m (map fst (JsObject.set_indexed n v L)) <-> m = n \/ In m (map fst L).
Proof.
  induction L as [| [m0 x] L IH]; cbn [JsObject.set_indexed map fst In].
  - intuition.
  - destruct (N.eqb_spec n m0) as [-> | Hne]; cbn [map fst In]; [intuition |].
    destruct (n <? m0); cbn [map fst In]; [intuition |].
    rewrite IH. intuition.
Qed.

Lemma sorted_set_indexed n v L :
  StronglySorted N.lt (map fst L) ->
  StronglySorted N.lt (map fst (JsObject.set_indexed n v L)).
Proof.
  induction L as [| [m0 x] L IH]; cbn [JsObject.set_indexed map fst]; intros Hs.
  - repeat constructor.
  - apply StronglySorted_inv in Hs. destruct Hs as [Hs Hall].
    destruct (N.eqb_spec n m0) as [-> | Hne]; cbn [map fst].
    + now constructor.
    + destruct (N.ltb_spec n m0) as [Hlt | Hge]; cbn [map fst].
      * constructor; [now constructor |].
        constructor; [exact Hlt |].
        eapply List.Forall_impl; [| exact Hall]. intros a Ha. lia.
      * constructor; [now apply IH |].
        apply List.Forall_forall. intros a Ha. apply keys_set_indexed in Ha.
        destruct Ha as [-> | Ha]; [lia |].
        rewrite List.Forall_forall in Hall. now apply Hall.
Qed.

Lemma Forall_set_indexed (P : N * V -> Prop) n v L :
  P (n, v) -> Forall P L -> Forall P (JsObject.set_indexed n v L).
Proof.
  intros Hn. induction 1 as [| [m0 x] L H0 HL IH]; cbn [JsObject.set_indexed].
  - now repeat constructor.
  - destruct (N.eqb_spec n m0) as [-> | Hne]; [now constructor |].
    destruct (n <? m0); repeat constructor; assumption.
Qed.

Lemma find_set_indexed n v L n' :
  List.find (fun e => fst e =? n') (JsObject.set_indexed n v L)
  = if n =? n' then Some (n, v) else List.find (fun e => fst e =? n') L.
Proof.
  induction L as [| [m0 x] L IH]; cbn [JsObject.set_indexed List.find fst].
  - now destruct (n =? n').
  - destruct (N.eqb_spec n m0) as [-> | Hne]; cbn [List.find fst].
    + now destruct (m0 =? n').
    + destruct (N.ltb_spec n m0) as [Hlt | Hge]; cbn [List.find fst].
      * now destruct (n =? n').
      * destruct (N.eqb_spec m0 n') as [-> | Hm].
        -- destruct (N.eqb_spec n n'); [congruence | reflexivity].
        -- exact IH.
Qed.

Lemma get_own_set k v o k' :
  JsObject.get_own k' (JsObject.set k v o)
  = if bool_decide (k = k') then Some v else JsObject.get_own k' o.
Proof.
  unfold JsObject.get_own, JsObject.set.
  destruct (JsObject.array_index k) as [n |] eqn:Hk;
    destruct (JsObject.array_index k') as [n' |] eqn:Hk';
    cbn [JsObject.indexed JsObject.named].
  - rewrite find_set_indexed.
    apply array_index_ofN in Hk as Hk1. apply array_index_ofN in Hk' as Hk1'.
    destruct (N.eqb_spec n n') as [-> | Hne].
    + rewrite bool_decide_eq_true_2 by congruence. reflexivity.
    + rewrite bool_decide_eq_false_2; [reflexivity |].
      intros ->. congruence.
  - rewrite bool_decide_eq_false_2 by congruence. reflexivity.
  - rewrite bool_decide_eq_false_2 by congruence. reflexivity.
  - apply get_set.
Qed.

Lemma wf_empty : wf_object (@JsObject.empty V).
Proof. repeat split; constructor. Qed.

Lemma wf_set k v o : wf_object o -> wf_object (JsObject.set k v o).
Proof.
  intros (Hs & Hv & Hn & Hd). unfold JsObject.set.
  destruct (JsObject.array_index k) as [n |] eqn:Hk;
    repeat split; cbn [JsObject.indexed JsObject.named]; try assumption.
  - now apply sorted_set_indexed.
  - apply Forall_set_indexed; [| exact Hv]. cbn [fst].
    apply array_index_ofN in Hk as Hk1. now rewrite Hk1.
  - now apply Forall_set.
  - fold (JsMap.keys (JsMap.set k v (JsObject.named o))). rewrite keys_set.
    fold (JsMap.keys (JsObject.named o)) in Hd.
    destruct (bool_decide_reflect (k ∈ JsMap.keys (JsObject.named o)))
      as [Hin | Hnin]; [exact Hd |].
    apply List.NoDup_app; [exact Hd | repeat constructor; easy |].
    intros a Ha [<- | []]. apply Hnin. now apply list_elem_of_In.
Qed.

Lemma sorted_NoDup (l : list N) : StronglySorted N.lt l -> List.NoDup l.
Proof.
  induction 1 as [| a l Hs IH Hall]; constructor; [| exact IH].
  intros Hin. rewrite List.Forall_forall in Hall. specialize (Hall a Hin). lia.
Qed.

Lemma find_unique_N L n v :
  List.NoDup (map fst L) -> In (n, v) L ->
  List.find (fun e => fst e =? n) L = Some (n, v).
Proof.
  induction L as [| [m x] L IH]; [easy |].
  cbn [map fst In List.find]. intros Hnd [Heq | Hin].
  - injection Heq as -> ->. now rewrite N.eqb_refl.
  - apply List.NoDup_cons_iff in Hnd. destruct Hnd as [Hm Hnd].
    destruct (N.eqb_spec m n) as [-> | Hne]; [| now apply IH].
    exfalso. apply Hm. change n with (fst (n, v)). now apply in_map.
Qed.

Lemma find_unique_key (m : list (jsstring * V)) k v :
  List.NoDup (map fst m) -> In (k, v) m ->
  List.find (fun e => bool_decide (fst e = k)) m = Some (k, v).
Proof.
  induction m as [| [k0 x] m IH]; [easy |].
  cbn [map fst In List.find]. intros Hnd [Heq | Hin].
  - injection Heq as -> ->. now rewrite bool_decide_eq_true_2.
  - apply List.NoDup_cons_iff in Hnd. destruct Hnd as [Hm Hnd].
    destruct (bool_decide_reflect (k0 = k)) as [-> | Hne]; [| now apply IH].
    exfalso. apply Hm. change k with (fst (k, v)). now apply in_map.
Qed.

(** An entry of [Object.entries] is an own property, and conversely. *)
Lemma entries_get_own o k v :
  wf_object o ->
  In (k, v) (JsObject.entries o) <-> JsObject.get_own k o = Some v.
Proof.
  intros (Hs & Hv & Hn & Hd). unfold JsObject.entries, JsObject.get_own.
  rewrite in_app_iff, in_map_iff. split.
  - intros [([n x] & Heq & Hin) | Hin].
    + cbn [fst snd] in Heq. injection Heq as <- <-.
      rewrite List.Forall_forall in Hv. pose proof (Hv _ Hin) as H1.
      cbn [fst] in H1. rewrite H1.
      rewrite (find_unique_N _ n x); [reflexivity | | exact Hin].
      now apply sorted_NoDup.
    + rewrite List.Forall_forall in Hn. pose proof (Hn _ Hin) as H1.
      cbn [fst] in H1. rewrite H1.
      now rewrite (find_unique_key _ k v).
  - destruct (JsObject.array_index k) as [n |] eqn:Hk.
    + destruct (List.find _ (JsObject.indexed o)) as [[n' x] |] eqn:Hf;
        [| discriminate].
      intros [= <-]. apply find_some in Hf. destruct Hf as [Hin Heq].
      cbn [fst] in Heq. apply N.eqb_eq in Heq. subst n'.
      left. exists (n, x). cbn [fst snd]. apply array_index_ofN in Hk.
      now rewrite Hk.
    + destruct (List.find _ (JsObject.named o)) as [[k' x] |] eqn:Hf;
        [| discriminate].
      intros [= <-]. apply find_some in Hf. destruct Hf as [Hin Heq].
      apply bool_decide_eq_true_1 in Heq. cbn [fst] in Heq. subst k'.
      now right.
Qed.

Lemma entries_keys_NoDup o :
  wf_object o -> List.NoDup (map fst (JsObject.entries o)).
Proof.
  intros (Hs & Hv & Hn & Hd). unfold JsObject.entries.
  rewrite map_app, map_map. cbn [fst]. apply List.NoDup_app.
  - apply sorted_NoDup in Hs. rewrite List.Forall_forall in Hv.
    clear Hn Hd. induction (JsObject.indexed o) as [| [n x] L IH];
      [constructor |].
    cbn [map fst] in *. apply List.NoDup_cons_iff in Hs. destruct Hs as [Hn Hs].
    constructor.
    + intros Hin. apply in_map_iff in Hin. destruct Hin as ([n' x'] & Heq & Hin).
      cbn [fst] in Heq.
      assert (n' = n).
      { pose proof (Hv (n', x') (or_intror Hin)) as H1.
        pose proof (Hv (n, x) (or_introl eq_refl)) as H2.
        cbn [fst] in H1, H2. rewrite Heq in H1. congruence. }
      subst n'. apply Hn. change n with (fst (n, x')). now apply in_map.
    + apply IH; [exact Hs |]. intros e He. apply Hv. now right.
  - exact Hd.
  - intros k Hi Hk. apply in_map_iff in Hi. destruct Hi as ([n x] & <- & Hi).
    apply in_map_iff in Hk. destruct Hk as ([k' y] & Hk' & Hk).
    cbn [fst] in *. rewrite List.Forall_forall in Hv, Hn.
    pose proof (Hv _ Hi) as H1. pose proof (Hn _ Hk) as H2.
    cbn [fst] in H1, H2. congruence.
Qed.

End ObjectFacts.

Lemma group_of_snoc k pre item :
  group_of k (pre ++ [item])
  = group_of k pre ++ (if bool_decide (source item = k) then [item] else []).
Proof. unfold group_of. rewrite List.filter_app. reflexivity. Qed.

Lemma first_occurrences_elem ks k :
  In k (first_occurrences ks) <-> In k ks.
Proof.
  split; [apply first_occurrences_incl |].
  induction ks as [| k0 ks IH]; [easy |].
  cbn [first_occurrences In]. intros [-> | Hin]; [now left |].
  destruct (bool_decide_reflect (k = k0)) as [-> | Hne]; [now left |].
  right. apply filter_In. split; [now apply IH |].
  now rewrite bool_decide_eq_false_2.
Qed.

Lemma first_occurrences_snoc ks k :
  first_occurrences (ks ++ [k])
  = if bool_decide (k ∈ ks) then first_occurrences ks
    else first_occurrences ks ++ [k].
Proof.
  induction ks as [| k0 ks IH].
  - cbn. rewrite bool_decide_eq_false_2 by apply not_elem_of_nil. reflexivity.
  - cbn [app first_occurrences]. rewrite IH.
    destruct (bool_decide_reflect (k = k0)) as [-> | Hne].
    + rewrite (bool_decide_eq_true_2 (k0 ∈ k0 :: ks))
        by apply list_elem_of_here.
      destruct (bool_decide (k0 ∈ ks)); [reflexivity |].
      rewrite List.filter_app. cbn [List.filter].
      rewrite bool_decide_eq_true_2 by reflexivity. cbn [negb].
      now rewrite app_nil_r.
    + destruct (bool_decide_reflect (k ∈ ks)) as [Hin | Hnin].
      * rewrite bool_decide_eq_true_2 by now apply list_elem_of_further.
        reflexivity.
      * rewrite bool_decide_eq_false_2
          by (rewrite elem_of_cons; intros [? | ?]; congruence).
        rewrite List.filter_app. cbn [List.filter].
        rewrite bool_decide_eq_false_2 by exact Hne. reflexivity.
Qed.

Section Grouping.

Lemma group_item_step o pre item o' :
  wf_object o -> groups o pre -> named_order o pre ->
  group_item o item = Ok o' ->
  wf_object o' /\ groups o' (pre ++ [item]) /\ named_order o' (pre ++ [item]).
Proof.
  intros Hwf Hg Hord Hstep. unfold group_item in Hstep.
  assert (Hset : o' = JsObject.set (source item)
                        (group_of (source item) pre ++ [item]) o).
  { rewrite (Hg (source item)) in Hstep.
    destruct (group_of (source item) pre) as [| r l].
    - destruct (bool_decide (source item ∈ JsObject.inherited));
        [discriminate | now injection Hstep as <-].
    - now injection Hstep as <-. }
  subst o'. split; [now apply wf_set |]. split.
  - intros k. rewrite get_own_set, group_of_snoc.
    destruct (bool_decide_reflect (source item = k)) as [<- | Hne].
    + now destruct (group_of (source item) pre).
    + rewrite app_nil_r. apply Hg.
  - unfold named_order in *. rewrite map_app, List.filter_app.
    cbn [map List.filter]. unfold JsObject.set, is_index at 2.
    destruct (JsObject.array_index (source item)) as [n |] eqn:Hk;
      cbn [negb JsObject.named].
    + now rewrite app_nil_r.
    + fold (JsMap.keys (JsMap.set (source item)
                          (group_of (source item) pre ++ [item])
                          (JsObject.named o))).
      rewrite keys_set, first_occurrences_snoc.
      fold (JsMap.keys (JsObject.named o)) in Hord. rewrite Hord.
      set (L := List.filter (fun k => negb (is_index k)) (map source pre)).
      destruct (bool_decide_reflect (source item ∈ L)) as [Hin | Hnin].
      * rewrite bool_decide_eq_true_2; [reflexivity |].
        apply list_elem_of_In, first_occurrences_elem.
        now apply list_elem_of_In.
      * rewrite bool_decide_eq_false_2; [reflexivity |].
        intros Hin. apply Hnin.
        apply list_elem_of_In, first_occurrences_elem.
        now apply list_elem_of_In.
Qed.

Lemma group_items_steps items : forall o pre o',
  wf_object o -> groups o pre -> named_order o pre ->
  group_items o items = Ok o' ->
  wf_object o' /\ groups o' (pre ++ items) /\ named_order o' (pre ++ items).
Proof.
  induction items as [| item items IH]; intros o pre o' Hwf Hg Hord H.
  - injection H as <-. now rewrite app_nil_r.
  - cbn [group_items] in H.
    destruct (group_item o item) as [o1 | e] eqn:Hstep; [| discriminate].
    destruct (group_item_step o pre item o1 Hwf Hg Hord Hstep)
      as (Hwf1 & Hg1 & Hord1).
    specialize (IH o1 (pre ++ [item]) o' Hwf1 Hg1 Hord1 H).
    now rewrite <- app_assoc in IH.
Qed.

End Grouping.

(** X11. When the grouping of [saveToMarkdown] succeeds, the sections of
    the document are these: one per source that occurs, none twice; each
    holds exactly the records of that source, in the order of the list;
    sources that are canonical array indices come first, in ascending
    numeric order, and the others follow in the order of their first
    occurrence. *)
Theorem group_items_sections newsItems o :
  group_items JsObject.empty newsItems = Ok o ->
  (forall k l,
      In (k, l) (JsObject.entries o)
      <-> l = group_of k newsItems /\ l <> [])
  /\ List.NoDup (map fst (JsObject.entries o))
  /\ (forall r, In r newsItems -> In (source r) (map fst (JsObject.entries o)))
  /\ exists idx,
       StronglySorted N.lt idx
       /\ map fst (JsObject.entries o)
          = map ofN idx
            ++ first_occurrences
                 (List.filter (fun k => negb (is_index k))
                    (map source newsItems)).
Proof.
  intros H.
  assert (Hg0 : groups JsObject.empty [])
    by (intros k; unfold JsObject.get_own;
        now destruct (JsObject.array_index k)).
  assert (Ho0 : named_order JsObject.empty []) by reflexivity.
  destruct (group_items_steps newsItems JsObject.empty [] o wf_empty Hg0 Ho0 H)
    as (Hwf & Hg & Hord).
  cbn [app] in Hg, Hord.
  assert (Hent : forall k l,
             In (k, l) (JsObject.entries o)
             <-> l = group_of k newsItems /\ l <> []).
  { intros k l. rewrite (entries_get_own o k l Hwf), (Hg k).
    destruct (group_of k newsItems) as [| r g]; split.
    - discriminate.
    - intros [-> Hne]. contradiction.
    - intros [= <-]. now split.
    - intros [-> _]. reflexivity. }
  split; [exact Hent |]. split; [now apply entries_keys_NoDup |]. split.
  - intros r Hr.
    change (source r) with (fst (source r, group_of (source r) newsItems)).
    apply in_map, Hent. split; [reflexivity |].
    intros Hnil.
    assert (Hin : In r (group_of (source r) newsItems))
      by (apply filter_In; split; [exact Hr | now apply bool_decide_eq_true_2]).
    rewrite Hnil in Hin. destruct Hin.
  - exists (map fst (JsObject.indexed o)). split; [apply Hwf |].
    unfold JsObject.entries. rewrite map_app, !map_map. cbn [fst].
    now rewrite Hord.
Qed.

Lemma group_items_sections_witness :
  List.NoDup (map fst (JsObject.entries qq_groups)).
Proof.
  refine (proj1 (proj2 (group_items_sections Fixture.qq_news
                          qq_groups _))).
  vm_compute. reflexivity.
Defined.

(** ** Escaping in the rendered rows *)

Lemma pipes_escaped s a b :
  replaceAll 124 [92; 124] s = a ++ 124 :: b -> exists a', a = a' ++ [92].
Proof.
  revert a. induction s as [| c s IH]; intros a H.
  - destruct a; discriminate H.
  - unfold replaceAll in H. cbn [flat_map] in H.
    fold (replaceAll 124 [92; 124] s) in H.
    destruct (N.eqb_spec c 124) as [-> | Hne]; cbn [app] in H.
    + destruct a as [| x [| y a]]; cbn [app] in H.
      * discriminate H.
      * injection H as <- _. now exists [].
      * injection H as <- <- H. destruct (IH a H) as (a' & ->).
        now exists (92 :: 124 :: a').
    + destruct a as [| x a]; cbn [app] in H.
      * injection H as -> _. contradiction.
      * injection H as <- H. destruct (IH a H) as (a' & ->).
        now exists (c :: a').
Qed.

Lemma replaceAll_absent c r s : ~ In c s -> replaceAll c r s = s.
Proof.
  induction s as [| x s IH]; [reflexivity |].
  intros Hn. unfold replaceAll. cbn [flat_map].
  fold (replaceAll c r s). destruct (N.eqb_spec x c) as [-> | Hne].
  - exfalso. apply Hn. now left.
  - cbn [app]. f_equal. apply IH. intros Hin. apply Hn. now right.
Qed.

(** X12. In a row of the Markdown table every vertical bar that comes
    from the title stands right after a backslash, and a title without a
    bar is copied as it is; the link is put between the parentheses
    unchanged. *)
Theorem md_row_title_escaped item :
  exists safe,
    md_row item
    = js "| " ++ safe ++ js " | [链接](" ++ link item ++ js ") |" ++ nl
    /\ (forall a b, safe = a ++ 124 :: b -> exists a', a = a' ++ [92])
    /\ (~ In 124 (title item) -> safe = title item).
Proof.
  exists (replaceAll 124 [92; 124] (title item)).
  split; [reflexivity |]. split.
  - apply pipes_escaped.
  - apply replaceAll_absent.
Qed.

Lemma md_row_title_escaped_witness :
  exists a', js "a" ++ [92] = a' ++ [92].
Proof.
  destruct (md_row_title_escaped
              {| title := js "a|b"; link := js "l"; summary := [];
                 crawl_time := []; source := [] |}) as (safe & Hrow & Hesc & _).
  apply (Hesc (js "a" ++ [92]) (js "b")).
  unfold md_row in Hrow. cbn [title link] in Hrow.
  apply app_inv_head in Hrow. apply app_inv_tail in Hrow.
  rewrite <- Hrow. reflexivity.
Defined.

Lemma count_flat_map_quote s :
  count_occ N.eq_dec (flat_map spec_csv_unit s) 34
  = (2 * count_occ N.eq_dec s 34%N)%nat.
Proof.
  induction s as [| c s IH]; [reflexivity |].
  cbn [flat_map]. rewrite count_occ_app, IH. unfold spec_csv_unit.
  destruct (N.eqb_spec c 34) as [-> | Hq].
  - cbn [count_occ]. destruct (N.eq_dec 34 34); [lia | contradiction].
  - destruct (N.eqb_spec c 44) as [-> | Hc]; cbn [count_occ].
    + destruct (N.eq_dec 65292 34); [discriminate |].
      destruct (N.eq_dec 44 34); [discriminate | lia].
    + destruct (N.eq_dec c 34); [contradiction | lia].
Qed.

(** X13. A title or summary escaped for the CSV file holds no ASCII comma
    any more and exactly twice the double quotes it had, so the field put
    between quotes cannot be cut short or split. *)
Theorem csv_escape_safe s :
  ~ In 44 (csv_escape s)
  /\ count_occ N.eq_dec (csv_escape s) 34
     = (2 * count_occ N.eq_dec s 34%N)%nat.
Proof.
  rewrite csv_escape_spec. split; [| apply count_flat_map_quote].
  intros Hin. apply in_flat_map in Hin. destruct Hin as (c & _ & Hc).
  unfold spec_csv_unit in Hc.
  destruct (N.eqb_spec c 34); [| destruct (N.eqb_spec c 44)];
    cbn [In] in Hc; intuition (try discriminate; congruence).
Qed.

(** ** The commit, step by step *)

Lemma split_head_prefix c s :
  ~ In c (split_head c s) /\ exists rest, s = split_head c s ++ rest.
Proof.
  induction s as [| x s (Hn & rest & IH)]; [split; [easy | now exists []] |].
  cbn [split_head]. destruct (N.eqb_spec x c) as [-> | Hne].
  - split; [easy | now exists (c :: s)].
  - split.
    + intros [-> | Hin]; [contradiction | now apply Hn].
    + exists rest. cbn [app]. now rewrite <- IH.
Qed.

(** X14. [commitToGitHub] asks for the status first and then stages,
    commits and pushes to [origin main], each step only after the one
    before it succeeded and only for a path the status lists; it returns
    [true] exactly when the push went through, and it writes no file
    itself: [files], what the program wrote through [fs], is as before (the
    repository and the log are kept apart from it).  The commit message
    ends with the part of the ISO time before its first [T]. *)
Theorem commitToGitHub_chain E filePath w :
  let day := split_head 84 (toISOString (Date_at E (dates w))) in
  exists b t,
    fst (commitToGitHub E filePath w) = Ok b
    /\ trace (snd (commitToGitHub E filePath w)) = trace w ++ t
    /\ commit_chain filePath (js "更新每日新闻 " ++ day) t b
    /\ files (snd (commitToGitHub E filePath w)) = files w
    /\ ~ In 84 day.
Proof.
  cbv zeta.
  assert (Hday := proj1 (split_head_prefix 84
                           (toISOString (Date_at E (dates w))))).
  unfold commitToGitHub, try_catch, bind, git_status.
  cbn [logger severity logger_level Nat.leb trace add_log].
  destruct (git_status_reply E (trace w)) as [st | e] eqn:Hst.
  2:{ do 2 eexists. split; [reflexivity |]. split; [reflexivity |].
      split; [constructor |]. split; [reflexivity | exact Hday]. }
  unfold array_includes.
  destruct (bool_decide_reflect (filePath ∈ modified st)) as [Hm | Hm];
    destruct (bool_decide_reflect (filePath ∈ not_added st)) as [Hn | Hn];
    cbn [negb andb].
  4:{ do 2 eexists. split; [reflexivity |]. split; [reflexivity |].
      split; [| split; [reflexivity | exact Hday]].
      apply chain_unchanged. intros [? | ?]; contradiction. }
  all: assert (Hl : listed filePath st) by (unfold listed; tauto).
  all: unfold new_Date, git_add, git_commit, git_push, ret;
    cbn [trace add_event add_log next_date dates fst snd];
    match goal with
    | |- context [git_add_reply ?e ?t ?p] =>
      destruct (git_add_reply e t p) as [[] | e1]
    end;
    [ match goal with
      | |- context [git_commit_reply ?e ?t ?m] =>
        destruct (git_commit_reply e t m) as [[] | e2]
      end;
      [ match goal with
        | |- context [git_push_reply ?e ?t ?r ?b] =>
          destruct (git_push_reply e t r b) as [[] | e3]
        end | ] | ];
    do 2 eexists;
    (split; [reflexivity |]);
    (split; [cbn [trace add_event add_log next_date snd];
             rewrite <- ?app_assoc; cbn [app]; reflexivity |]);
    (split; [| split; [reflexivity | exact Hday]]);
    first [ now apply chain_pushed | now apply chain_push_failed
          | now apply chain_commit_failed | now apply chain_add_failed ].
Qed.

(** ** The orchestrator as a whole *)

#[local] Instance same_files_frame : Frame same_files.
Proof.
  split; unfold same_files; try reflexivity.
  intros w1 w2 w3 H1 H2. congruence.
Qed.

Lemma dated_md_nonempty d : dated_md d <> [].
Proof.
  unfold dated_md. intros Hd.
  apply app_eq_nil in Hd. destruct Hd as [_ Hd].
  apply app_eq_nil in Hd. destruct Hd as [_ Hd].
  apply app_eq_nil in Hd. destruct Hd as [_ Hd]. vm_compute in Hd.
  discriminate Hd.
Qed.

Lemma dated_md_target d now : md_target (Some (dated_md d)) now = dated_md d.
Proof.
  unfold md_target. pose proof (dated_md_nonempty d).
  now destruct (dated_md d).
Qed.

Lemma dated_md_clock d w : md_clock (Some (dated_md d)) w = dates w.
Proof.
  unfold md_clock. pose proof (dated_md_nonempty d).
  now destruct (dated_md d).
Qed.

Lemma gets_app t1 t2 : gets (t1 ++ t2) = gets t1 ++ gets t2.
Proof. apply flat_map_app. Qed.

Lemma gets_no_http t : no_http t -> gets t = [].
Proof.
  induction 1 as [| ev t Hev Ht IH]; [reflexivity |].
  destruct ev; cbn [gets flat_map app] in *; try exact IH.
  exfalso. apply Hev. exact I.
Qed.

Section Orchestrator.
Context (E : Env).

Lemma returns_commitToGitHub p : returns (commitToGitHub E p).
Proof.
  apply returns_try_catch. intros e. apply returns_bind; auto with returns.
Qed.

Lemma returns_publish allNews : returns (publish E allNews).
Proof.
  unfold publish. destruct (0 <? length allNews)%nat; [| apply returns_ret].
  apply returns_bind; [intros w; now do 2 eexists |]. intros d.
  apply returns_bind; [apply returns_saveToMarkdown |]. intros b.
  apply returns_bind; [apply returns_logger |]. intros _.
  apply returns_bind; [apply returns_commitToGitHub | auto with returns].
Qed.

Lemma returns_crawl_sites sites : forall allNews,
  returns (crawl_sites E sites allNews).
Proof.
  induction sites as [| site sites IH]; intros allNews; cbn [crawl_sites].
  - apply returns_ret.
  - apply returns_bind; [| intros a; apply IH].
    apply returns_try_catch. intros e. apply returns_bind; auto with returns.
Qed.

Lemma returns_main_on sites : returns (main_on E sites).
Proof.
  apply returns_bind; [apply returns_crawl_sites | apply returns_publish].
Qed.

(** [run] with [debug] left out asks for its own URL, once. *)
Lemma run_gets this filename w :
  exists t,
    trace (snd (run E this filename None w)) = trace w ++ t
    /\ gets t = [url this].
Proof.
  rewrite run_default_unfold.
  destruct (fetchPage_cases E this w) as (Ht & _ & _). cbv zeta in Ht.
  destruct (fetchPage E this w) as [[html | e] w1]; cbn [snd] in Ht.
  - destruct (fs_write_reply E (trace w1) debug_html html) as [[] | e].
    + match goal with
      | |- context [snd (?m ?w2)] =>
        destruct (steps_after_dump E (extends no_http) (fun _ => True) this
                    filename html
                    (fun f c _ => extends_writeFileSync no_http E f c
                                    (fun o => ltac:(repeat constructor; exact id)))
                    (fun _ => I) (fun _ _ => I) w2) as (t & Htail & Hn)
      end.
      eexists. split.
      * rewrite Htail. cbn [trace add_event put_file]. rewrite Ht.
        rewrite <- !app_assoc. reflexivity.
      * cbn [app gets flat_map]. fold (gets t). now rewrite (gets_no_http t Hn).
    + eexists. split.
      * cbn [snd trace add_log add_event]. rewrite trace_left_by, Ht.
        rewrite <- !app_assoc. reflexivity.
      * reflexivity.
  - eexists. split; [cbn [snd trace add_log]; exact Ht | reflexivity].
Qed.

Lemma crawl_sites_gets sites : forall allNews w,
  exists t,
    trace (snd (crawl_sites E sites allNews w)) = trace w ++ t
    /\ gets t = sites.
Proof.
  induction sites as [| site sites IH]; intros allNews w.
  - exists []. now rewrite app_nil_r.
  - destruct (crawl_site_turn E allNews site w) as (news & w1 & Hr & Hv & Ht).
    destruct (run_gets (new_NewsCrawler site) None
                (add_log Linfo (js "开始爬取: " ++ site) w)) as (tr & Htr & Hg).
    rewrite Hr in Htr. cbn [snd trace add_log] in Htr.
    destruct (crawl_site E allNews site w) as [r2 w2] eqn:Hc.
    cbn [fst snd] in Hv, Ht. subst r2.
    destruct (IH (allNews ++ news) w2) as (t & Hs & Hgt).
    cbn [crawl_sites]. rewrite (bind_ok _ _ _ _ _ Hc).
    eexists. split.
    + rewrite Hs, Ht, Htr, <- !app_assoc. reflexivity.
    + rewrite !gets_app, Hg, Hgt. reflexivity.
Qed.

Lemma publish_no_http allNews : steps (extends no_http) (publish E allNews).
Proof.
  apply steps_publish; try exact _; intros.
  - apply extends_writeFileSync; try exact _. intros o.
    repeat constructor. exact id.
  - apply extends_git_status; try exact _. intros o.
    repeat constructor. exact id.
  - apply extends_git_add; try exact _. intros o.
    repeat constructor. exact id.
  - apply extends_git_commit; try exact _. intros o.
    repeat constructor. exact id.
  - apply extends_git_push; try exact _. intros o.
    repeat constructor. exact id.
Qed.

Lemma commitToGitHub_same_files p :
  steps same_files (commitToGitHub E p).
Proof. apply steps_commitToGitHub; try exact _; intros; intros w; reflexivity. Qed.

End Orchestrator.

(** X15. [main] never throws, whatever the network, the disk and git
    answer, and neither does the scheduled job: the rejection handler that
    ends the process with status 1 has nothing to catch. *)
Theorem main_never_throws E w :
  (exists w', main E w = (Ok tt, w'))
  /\ (exists w', daily_job E w = (Ok tt, w')).
Proof.
  assert (Hm : forall w0, exists w', main E w0 = (Ok tt, w')).
  { intros w0. destruct (returns_main_on E newsSites w0) as ([] & w' & H).
    now exists w'. }
  split; [apply Hm |].
  unfold daily_job, bind. cbn [logger severity logger_level Nat.leb].
  destruct (Hm (add_log Linfo (js "开始执行每日爬虫任务") w)) as (w' & ->).
  now eexists.
Qed.

(** X16. One run of the orchestrator requests every target exactly once,
    in the order of the list, and nothing else: a target that fails, in
    the request or later, does not keep the following ones from being
    requested. *)
Theorem one_request_per_target E sites w :
  exists t,
    trace (snd (main_on E sites w)) = trace w ++ t /\ gets t = sites.
Proof.
  unfold main_on.
  destruct (returns_crawl_sites E sites [] w) as (allNews & w1 & Hc).
  destruct (crawl_sites_gets E sites [] w) as (t & Ht & Hg).
  rewrite Hc in Ht. cbn [snd] in Ht. rewrite (bind_ok _ _ _ _ _ Hc).
  destruct (publish_no_http E allNews w1) as (tp & Htp & Hn).
  exists (t ++ tp). split.
  - now rewrite Htp, Ht, app_assoc.
  - now rewrite gets_app, Hg, (gets_no_http tp Hn), app_nil_r.
Qed.

(** X17. At the end of a run whose aggregate is not empty and can be
    grouped, if the write after the loop succeeds, the files are those the
    loop left with the dated file holding the rendering of the aggregate:
    what the targets' own saves had put under that name is overwritten,
    and the commit changes nothing on disk. *)
Theorem main_leaves_aggregate E sites w allNews w1 o :
  crawl_sites E sites [] w = (Ok allNews, w1) ->
  allNews <> [] ->
  group_items JsObject.empty allNews = Ok o ->
  let name := dated_md (Date_at E (dates w1)) in
  let doc :=
    md_document (Date_at E (S (dates w1))) o (Date_at E (S (S (dates w1)))) in
  fs_write_reply E (trace w1) name doc = Ok tt ->
  files (snd (main_on E sites w)) = <[name := doc]> (files w1).
Proof.
  intros Hc Hne Hg. cbv zeta. intros Hw.
  unfold main_on. rewrite (bind_ok _ _ _ _ _ Hc).
  destruct allNews as [| item items]; [contradiction |].
  unfold publish. cbn [length Nat.ltb Nat.leb]. unfold bind at 1.
  cbn [new_Date].
  destruct (saveToMarkdown_written E
              (new_NewsCrawler (js "https://example.com")) item items
              (Some (dated_md (Date_at E (dates w1)))) (next_date w1) o Hg)
    as (Hv & Ht & Hf & _).
  rewrite dated_md_target, dated_md_clock in Hv, Ht, Hf.
  cbn [trace dates files next_date] in Hv, Ht, Hf.
  rewrite Hw in Hv, Ht, Hf. cbn [succeeded] in Hv, Hf.
  unfold bind at 1.
  destruct (saveToMarkdown E _ (Some (item :: items)) _ (next_date w1))
    as [[b | e] w2]; cbn [fst snd] in *; [| discriminate Hv].
  unfold bind at 1. cbn [logger severity logger_level Nat.leb].
  unfold bind at 1.
  match goal with
  | |- context [commitToGitHub E ?p ?w3] =>
    pose proof (commitToGitHub_same_files E p w3) as Hsame;
    destruct (commitToGitHub E p w3) as [[c | e] w4]
  end; unfold same_files in Hsame; cbn [snd files add_log] in *;
    unfold ret; cbn [snd]; congruence.
Qed.

Lemma main_leaves_aggregate_witness :
  files (snd (main_on Fixture.env [Fixture.qq] Fixture.world0))
  !! js "20250105.md"
  = Some (md_document (Fixture.date_at 7) qq_groups (Fixture.date_at 8)).
Proof.
  rewrite (main_leaves_aggregate Fixture.env [Fixture.qq] Fixture.world0
             Fixture.qq_news
             (snd (crawl_sites Fixture.env [Fixture.qq] [] Fixture.world0))
             qq_groups).
  - vm_compute. reflexivity.
  - rewrite (surjective_pairing (crawl_sites _ _ _ _)) at 1. f_equal.
  - discriminate.
  - vm_compute. reflexivity.
  - reflexivity.
Defined.

(** ** A target without records *)

(** X18. When [run] (with [debug] left out) returns no record, whether
    because the request failed, the dump failed, or the page held nothing,
    it has written at most the debug dump: every other file, the Markdown
    file first of all, is as it was. *)
Theorem run_without_records E this filename w :
  fst (run E this filename None w) = Ok [] ->
  forall p, p <> debug_html ->
    files (snd (run E this filename None w)) !! p = files w !! p.
Proof.
  intros H p Hp. rewrite run_default_unfold in *.
  destruct (fetchPage_cases E this w) as (_ & Hf & _).
  destruct (fetchPage E this w) as [[html | e] w1]; cbn [snd] in Hf;
    [| cbn [snd files add_log]; now rewrite Hf].
  destruct (fs_write_reply E (trace w1) debug_html html) as [[] | e];
    [| cbn [snd files add_log add_event]; now rewrite files_left_by, Hf].
  rewrite try_catch_bind in *.
  match goal with
  | |- context [parseNews E this html ?w2] =>
    pose proof (steps_parseNews quiet E this html w2) as (_ & Hq);
    destruct (parseNews E this html w2) as [[items | e] w3]
  end; cbn [snd files add_event put_file] in Hq.
  - rewrite try_catch_bind in *. destruct items as [| i items].
    + cbn [length Nat.ltb Nat.leb logger severity logger_level snd files
           add_log]. unfold try_catch, ret.
      cbn [snd files add_log]. rewrite Hq, lookup_insert_ne, Hf by congruence.
      reflexivity.
    + exfalso. cbn [length Nat.ltb Nat.leb] in H. unfold bind at 1 2 in H.
      cbn [logger severity logger_level Nat.leb] in H.
      match type of H with
      | context [saveToMarkdown E this ?a ?f ?w0] =>
        destruct (returns_saveToMarkdown E this a f w0) as (b & w4 & Hs)
      end.
      rewrite Hs in H. discriminate H.
  - unfold bind, ret. cbn [logger severity logger_level Nat.leb snd files
                           add_log].
    rewrite Hq, lookup_insert_ne, Hf by congruence. reflexivity.
Qed.

Lemma run_without_records_witness :
  files (snd (run Fixture.env (new_NewsCrawler (js "https://www.thepaper.cn/"))
                None None Fixture.world0)) !! js "20250105.md" = None.
Proof.
  rewrite (run_without_records Fixture.env
             (new_NewsCrawler (js "https://www.thepaper.cn/")) None
             Fixture.world0).
  - reflexivity.
  - reflexivity.
  - vm_compute. discriminate.
Defined.

(** ** The dated file name *)

Lemma all_below_spec P n m :
  all_below P n = true -> (m < n)%N -> P m = true.
Proof.
  unfold all_below. rewrite forallb_forall. intros H Hm. apply H.
  apply in_map_iff. exists (N.to_nat m). split; [apply N2Nat.id |].
  apply in_seq. lia.
Qed.

Lemma years_four_digits y :
  (1000 <= y <= 9999)%N -> digits 4 (ofN y) = true.
Proof.
  intros [Hlo Hhi].
  assert (H : all_below (fun n => (n <? 1000) || digits 4 (ofN n)) 10000 = true)
    by (vm_compute; reflexivity).
  apply (all_below_spec _ _ y) in H; [| lia].
  apply orb_true_iff in H. destruct H as [H | H]; [| exact H].
  apply N.ltb_lt in H. lia.
Qed.

Lemma two_digits n :
  (n <= 99)%N -> digits 2 (padStart 2 (js "0") (ofN n)) = true.
Proof.
  intros Hn.
  assert (H : all_below (fun n => digits 2 (padStart 2 (js "0") (ofN n))) 100
              = true) by (vm_compute; reflexivity).
  apply (all_below_spec _ _ n) in H; [exact H | lia].
Qed.

Lemma digits_app j k s t :
  digits j s = true -> digits k t = true -> digits (j + k) (s ++ t) = true.
Proof.
  unfold digits. rewrite !andb_true_iff, !Nat.eqb_eq. intros [Hs Fs] [Ht Ft].
  rewrite length_app, forallb_app, Hs, Ht, Fs, Ft. now split.
Qed.

(** X19. For a clock showing a year of four digits, the dated file name is
    eight decimal digits, the year, the month counted from 01 and the day,
    each padded to its width, followed by [.md]. *)
Theorem dated_md_shape d :
  (1000 <= getFullYear d <= 9999)%N ->
  (getMonth d <= 11)%N ->
  (getDate d <= 31)%N ->
  exists ymd,
    dated_md d = ymd ++ js ".md" /\ digits 8 ymd = true
    /\ ymd = ofN (getFullYear d)
             ++ padStart 2 (js "0") (ofN (getMonth d + 1))
             ++ padStart 2 (js "0") (ofN (getDate d)).
Proof.
  intros Hy Hm Hd.
  exists (ofN (getFullYear d)
          ++ padStart 2 (js "0") (ofN (getMonth d + 1))
          ++ padStart 2 (js "0") (ofN (getDate d))).
  split; [| split; [| reflexivity]].
  - unfold dated_md. cbv zeta. now rewrite <- !app_assoc.
  - apply (digits_app 4 4); [now apply years_four_digits |].
    apply (digits_app 2 2); apply two_digits; lia.
Qed.

Lemma dated_md_shape_witness :
  exists ymd,
    dated_md (Fixture.date_at 0) = ymd ++ js ".md" /\ digits 8 ymd = true
    /\ ymd = js "2025" ++ js "01" ++ js "05".
Proof.
  destruct (dated_md_shape (Fixture.date_at 0)) as (ymd & H1 & H2 & H3).
  - cbn. lia.
  - cbn. lia.
  - cbn. lia.
  - exists ymd. split; [exact H1 |]. split; [exact H2 |].
    rewrite H3. vm_compute. reflexivity.
Defined.

(** ** The pause that a turn announces *)

Section Announced.
Local Open Scope Q_scope.

Lemma div_1000_range ms :
  3000 <= ms -> ms <= 8000 - (1 # 1099511627776) ->
  3 <= Number.div ms 1000 /\ Number.div ms 1000 <= 8.
Proof.
  intros H0 H1. unfold Number.div.
  assert (Hx0 : 3 <= ms / 1000) by (apply Qle_shift_div_l; [easy | lra]).
  assert (Hx1 : ms / 1000 <= 8) by (apply Qle_shift_div_r; [easy | lra]).
  assert (Hx2 : ms / 1000 < 8) by (apply Qlt_shift_div_r; [easy | lra]).
  set (x := ms / 1000) in *.
  assert (Hx : 0 < x) by lra.
  assert (Hlo : (1 <= Number.ilog2 (Qabs x))%Z).
  { apply (exponent_ge x 1 Hx).
    assert (E : 2 ^ 1 == 2) by reflexivity. rewrite E. lra. }
  assert (Hhi : (Number.ilog2 (Qabs x) <= 2)%Z).
  { apply (exponent_le x 2 Hx).
    assert (E : 2 ^ (2 + 1) == 8) by reflexivity. rewrite E. exact Hx2. }
  destruct (Z.eq_dec (Number.ilog2 (Qabs x)) 1%Z) as [Hk | Hk].
  - assert (Hu : spacing x == 1 # 2251799813685248)
      by (unfold spacing; rewrite Hk; reflexivity).
    destruct (round64_between x 6755399441055744 18014398509481984 Hx)
      as [Ha Hb].
    + rewrite Hu. change (inject_Z 6755399441055744) with 6755399441055744.
      lra.
    + rewrite Hu. change (inject_Z 18014398509481984) with 18014398509481984.
      lra.
    + rewrite Hu in Ha, Hb.
      change (inject_Z 6755399441055744) with 6755399441055744 in Ha.
      change (inject_Z 18014398509481984) with 18014398509481984 in Hb.
      split; lra.
  - assert (Hu : spacing x == 1 # 1125899906842624).
    { unfold spacing. replace (Number.ilog2 (Qabs x)) with 2%Z by lia.
      reflexivity. }
    destruct (round64_between x 3377699720527872 9007199254740992 Hx)
      as [Ha Hb].
    + rewrite Hu. change (inject_Z 3377699720527872) with 3377699720527872.
      lra.
    + rewrite Hu. change (inject_Z 9007199254740992) with 9007199254740992.
      lra.
    + rewrite Hu in Ha, Hb.
      change (inject_Z 3377699720527872) with 3377699720527872 in Ha.
      change (inject_Z 9007199254740992) with 9007199254740992 in Hb.
      split; lra.
Qed.

Lemma Math_round_range x (lo hi : Z) :
  inject_Z lo <= x -> x <= inject_Z hi -> (lo <= Math_round x <= hi)%Z.
Proof.
  intros Hlo Hhi. unfold Math_round. split.
  - rewrite <- (Qfloor_Z lo). apply Qfloor_resp_le. lra.
  - assert (H : inject_Z (Qfloor (x + (1 # 2))) < inject_Z (hi + 1)).
    { apply Qle_lt_trans with (x + (1 # 2)); [apply Qfloor_le |].
      rewrite inject_Z_plus. change (inject_Z 1) with 1. lra. }
    rewrite <- Zlt_Qlt in H. lia.
Qed.

Lemma announced_range bits :
  (3 <= Math_round
          (Number.div
             (Number.add 3000 (Number.mul (Number.of_bits bits) 5000)) 1000)
   <= 8)%Z.
Proof.
  destruct (of_bits_range bits) as [H0 H1].
  destruct (mul_5000_range _ H0 H1) as [Hm0 Hm1].
  destruct (add_3000_range _ Hm0 Hm1) as [Ha0 Ha1].
  destruct (div_1000_range _ Ha0 Ha1) as [Hd0 Hd1].
  apply Math_round_range; assumption.
Qed.

End Announced.

(** X20. Every turn of the loop draws one random number, announces the
    pause in whole seconds and then sleeps: the two lines it logs after
    [run] are the count of records and the announcement, and the number
    announced is the duration of the sleep divided by 1000 and rounded to
    the nearest integer, halves going up, all in binary64.  It is one of 3
    to 8: 8 is announced for a pause that is shorter than 8000 ms. *)
Theorem crawl_site_announces E allNews site w :
  exists news w1,
    run E (new_NewsCrawler site) None None
      (add_log Linfo (js "开始爬取: " ++ site) w) = (Ok news, w1)
    /\ draws (snd (crawl_site E allNews site w)) = S (draws w1)
    /\ exists ms secs,
         ms = Number.add 3000
                (Number.mul (Number.of_bits (random_at E (draws w1))) 5000)
         /\ secs = Math_round (Number.div ms 1000)
         /\ trace (snd (crawl_site E allNews site w)) = trace w1 ++ [Sleep ms]
         /\ logged (snd (crawl_site E allNews site w))
            = logged w1
              ++ [(Linfo, js "成功爬取 " ++ ofN (N.of_nat (length news))
                          ++ js " 条新闻");
                  (Linfo, js "等待 " ++ ofZ secs ++ js " 秒后继续下一个网站")]
         /\ (3 <= secs <= 8)%Z.
Proof.
  destruct (returns_run E (new_NewsCrawler site) None None
              (add_log Linfo (js "开始爬取: " ++ site) w)) as (news & w1 & Hr).
  exists news, w1. split; [exact Hr |].
  unfold crawl_site, try_catch.
  rewrite (bind_ok _ _ w tt (add_log Linfo (js "开始爬取: " ++ site) w))
    by reflexivity.
  rewrite (bind_ok _ _ _ _ _ Hr). split; [reflexivity |].
  do 2 eexists. split; [reflexivity |]. split; [reflexivity |].
  split; [reflexivity |]. split.
  - cbn [snd logged add_log add_event next_draw logger severity logger_level
         Nat.leb bind Math_random sleep ret fst]. 
    unfold bind, Math_random, sleep, ret.
    cbn [snd logged add_log add_event next_draw logger severity logger_level
         Nat.leb fst].
    rewrite <- app_assoc. reflexivity.
  - apply announced_range.
Qed.

(** The largest draw: a pause of 7999.999999999999 ms is announced as 8
    seconds. *)
Example announced_eight :
  Math_round
    (Number.div (Number.add 3000 (Number.mul (Number.of_bits (2 ^ 53 - 1)) 5000))
       1000) = 8%Z.
Proof. vm_compute. reflexivity. Qed.
